(** * Face extraction and identity resolution: a model of the route handlers

    The development embeds the route handlers of [api/routes.js], the access
    helpers of [utils/helpers.js], the permission middleware of
    [utils/authMiddleware.js] and the Mongoose models they work on, and
    states the properties of the label-consensus, verification, promotion
    and registration operations over that embedding.

    Conventions.
    - An [ObjectId] is a natural number; [new mongoose.Types.ObjectId()]
      draws the next number of a counter kept beside the database.
    - A [Date] is a natural number; every handler receives the value of
      [new Date()] as its argument [now].
    - A collection is the list of its documents in insertion order, so
      that [findOne] returns the first match.
    - A write to the database may throw; which ones do is given by a fault
      schedule [faults : nat -> bool] over the writes of one request, in
      the order the handler issues them. *)

From Stdlib Require Import List String Ascii DecimalString Bool Arith Lia.
Import ListNotations.
Local Open Scope string_scope.
Local Open Scope list_scope.

Set Implicit Arguments.

(** ** Values shared by all models *)

Definition ObjectId := nat.
Definition Date := nat.
Definition Buffer := string.

(** JavaScript truthiness of a string that may be absent: [undefined],
    [null] and the empty string are falsy. *)
Definition truthy (s : option string) : bool :=
  match s with
  | None => false
  | Some s' => negb (String.eqb s' "")
  end.

(** [a || b] on strings that may be absent. *)
Definition orElse (s : option string) (d : string) : string :=
  match s with
  | None => d
  | Some s' => if String.eqb s' "" then d else s'
  end.

Definition no_faults : nat -> bool := fun _ => false.

(** The reply of a handler: HTTP status and the [message] of its body. *)
Record Response := { res_status : nat; res_message : string }.

Definition reply (code : nat) (msg : string) : Response :=
  {| res_status := code; res_message := msg |}.

(** ** Array helpers of the handlers *)

(** [Array.prototype.findIndex]; [None] stands for [-1]. *)
Fixpoint findIndex {A : Type} (p : A -> bool) (l : list A) : option nat :=
  match l with
  | [] => None
  | x :: t => if p x then Some 0 else option_map S (findIndex p t)
  end.

(** [l[i] = f (l[i])] for an index inside the array. *)
Fixpoint updateAt {A : Type} (i : nat) (f : A -> A) (l : list A) {struct l}
    : list A :=
  match l, i with
  | [], _ => []
  | x :: t, 0 => f x :: t
  | x :: t, S j => x :: updateAt j f t
  end.

(** [Array.prototype.find] returns the element itself, not a copy: an
    assignment to a field of the found object changes the array slot it
    sits in, the first one that satisfies [p]. *)
Fixpoint mutateFound {A : Type} (p : A -> bool) (f : A -> A) (l : list A) : list A :=
  match l with
  | [] => []
  | x :: t => if p x then f x :: t else x :: mutateFound p f t
  end.

(** ** Users: [models/userModel.js] *)

Inductive Role := RAdmin | RManager | RUser.

Definition Role_eqb (a b : Role) : bool :=
  match a, b with
  | RAdmin, RAdmin | RManager, RManager | RUser, RUser => true
  | _, _ => false
  end.

Module Permissions.
Record t := {
    canVerifyFaces : bool;
    canManageUsers : bool;
    canManageAllFaces : bool;
    canViewAllData : bool }.
End Permissions.

Module User.
Record t := {
    _id : ObjectId;
    name : string;
    email : string;
    password : string;
    role : Role;
    permissions : Permissions.t }.
End User.

(** ** Proposed labels, shared by faces and clusters

    The confidence of a face proposal is always written as the constant
    1.0 and never read; it is left out. *)
Module Proposal.
Record t := {
    label : string;
    proposedBy : ObjectId;
    proposedAt : Date }.

Definition relabel (l : string) (now : Date) (p : t) : t :=
    {| label := l; proposedBy := proposedBy p; proposedAt := now |}.

Definition by_user (uid : ObjectId) (p : t) : bool := Nat.eqb (proposedBy p) uid.
End Proposal.

(** ** Faces: [models/faceModel.js]

    The feature vector, its version and the quality score are opaque to
    every handler below and are left out. *)
Inductive PersonType := PEmployee | PVisitor | PUnknown.
Inductive VerificationStatus := Unverified | Verified | Rejected.

Module Face.
Record t := {
    _id : ObjectId;
    primaryImage : Buffer;
    additionalImages : list (option Buffer);
    personType : PersonType;
    personId : ObjectId;
    active : bool;
    verificationStatus : VerificationStatus;
    uploadedBy : option ObjectId;
    verifiedBy : option ObjectId;
    verificationDate : option Date;
    verificationNote : option string;
    proposedLabels : list Proposal.t;
    selectedLabel : option string;
    createdAt : Date;
    updatedAt : Date }.

Definition set_proposedLabels (ps : list Proposal.t) (f : t) : t :=
    {| _id := _id f; primaryImage := primaryImage f;
       additionalImages := additionalImages f; personType := personType f;
       personId := personId f; active := active f;
       verificationStatus := verificationStatus f; uploadedBy := uploadedBy f;
       verifiedBy := verifiedBy f; verificationDate := verificationDate f;
       verificationNote := verificationNote f; proposedLabels := ps;
       selectedLabel := selectedLabel f; createdAt := createdAt f;
       updatedAt := updatedAt f |}.

Definition set_updatedAt (d : Date) (f : t) : t :=
    {| _id := _id f; primaryImage := primaryImage f;
       additionalImages := additionalImages f; personType := personType f;
       personId := personId f; active := active f;
       verificationStatus := verificationStatus f; uploadedBy := uploadedBy f;
       verifiedBy := verifiedBy f; verificationDate := verificationDate f;
       verificationNote := verificationNote f; proposedLabels := proposedLabels f;
       selectedLabel := selectedLabel f; createdAt := createdAt f;
       updatedAt := d |}.

Definition set_selectedLabel (l : option string) (f : t) : t :=
    {| _id := _id f; primaryImage := primaryImage f;
       additionalImages := additionalImages f; personType := personType f;
       personId := personId f; active := active f;
       verificationStatus := verificationStatus f; uploadedBy := uploadedBy f;
       verifiedBy := verifiedBy f; verificationDate := verificationDate f;
       verificationNote := verificationNote f; proposedLabels := proposedLabels f;
       selectedLabel := l; createdAt := createdAt f;
       updatedAt := updatedAt f |}.

Definition set_person (pt : PersonType) (pid : ObjectId) (f : t) : t :=
    {| _id := _id f; primaryImage := primaryImage f;
       additionalImages := additionalImages f; personType := pt;
       personId := pid; active := active f;
       verificationStatus := verificationStatus f; uploadedBy := uploadedBy f;
       verifiedBy := verifiedBy f; verificationDate := verificationDate f;
       verificationNote := verificationNote f; proposedLabels := proposedLabels f;
       selectedLabel := selectedLabel f; createdAt := createdAt f;
       updatedAt := updatedAt f |}.

  (** The five assignments at the head of the verification handler. *)
Definition set_verification (s : VerificationStatus) (by_ : ObjectId)
      (now : Date) (note : string) (f : t) : t :=
    {| _id := _id f; primaryImage := primaryImage f;
       additionalImages := additionalImages f; personType := personType f;
       personId := personId f; active := active f;
       verificationStatus := s; uploadedBy := uploadedBy f;
       verifiedBy := Some by_; verificationDate := Some now;
       verificationNote := Some note; proposedLabels := proposedLabels f;
       selectedLabel := selectedLabel f; createdAt := createdAt f;
       updatedAt := now |}.
End Face.

(** ** Access helpers: [utils/helpers.js] *)

Definition isAdminOrManager (u : User.t) : bool :=
  Role_eqb (User.role u) RAdmin || Role_eqb (User.role u) RManager.

Definition uploadedByUser (by_ : option ObjectId) (u : User.t) : bool :=
  match by_ with
  | Some o => Nat.eqb o (User._id u)
  | None => false
  end.

Definition canUserAccessFace (u : User.t) (face : Face.t) : bool :=
  if isAdminOrManager u || Permissions.canViewAllData (User.permissions u)
  then true
  else if uploadedByUser (Face.uploadedBy face) u then true
  else false.

Definition canUserVerifyFace (u : User.t) : bool :=
  Permissions.canVerifyFaces (User.permissions u) || isAdminOrManager u.

(** [checkPermission('canVerifyFaces')] of [utils/authMiddleware.js]. *)
Definition checkPermission_canVerifyFaces (u : User.t) : bool :=
  Permissions.canVerifyFaces (User.permissions u).

(** ** Employees and visitors: [models/employeeModel.js], [models/visitorModel.js]

    The attendance log of an employee is never touched by the handlers
    below and is left out.  The schema requires [faceId]; the completion
    handler nevertheless queries for [faceId: { $ne: null }], so the field
    is kept optional to give that query its meaning. *)
Module Employee.
Record t := {
    _id : ObjectId;
    name : string;
    employeeId : string;
    email : string;
    phone : string;
    department : string;
    position : string;
    faceId : option ObjectId;
    joiningDate : Date;
    createdAt : Date;
    updatedAt : Date }.
End Employee.

Module Visit.
Record t := { entryTime : Date; purpose : string }.
End Visit.

Module Visitor.
Record t := {
    _id : ObjectId;
    name : string;
    email : option string;
    phone : option string;
    company : option string;
    faceId : option ObjectId;
    category : string;
    visits : list Visit.t;
    regularVisitor : bool;
    blacklisted : bool;
    createdAt : Date;
    updatedAt : Date }.

Definition set_faceId (fid : option ObjectId) (v : t) : t :=
    {| _id := _id v; name := name v; email := email v; phone := phone v;
       company := company v; faceId := fid; category := category v;
       visits := visits v; regularVisitor := regularVisitor v;
       blacklisted := blacklisted v; createdAt := createdAt v;
       updatedAt := updatedAt v |}.
End Visitor.

(** ** Extraction jobs: [models/extractedFaceModel.js] *)

Inductive FileType := Image | Video.
Inductive JobStatus := Processing | Completed | Failed.

Definition JobStatus_eqb (a b : JobStatus) : bool :=
  match a, b with
  | Processing, Processing | Completed, Completed | Failed, Failed => true
  | _, _ => false
  end.

Module Crop.
Record t := { imageUrl : string; imageData : option Buffer }.
End Crop.

Module Cluster.
Record t := {
    clusterId : string;
    faces : list Crop.t;
    representativeFace : option Crop.t;
    proposedLabels : list Proposal.t;
    selectedLabel : option string }.

Definition set_proposedLabels (ps : list Proposal.t) (c : t) : t :=
    {| clusterId := clusterId c; faces := faces c;
       representativeFace := representativeFace c; proposedLabels := ps;
       selectedLabel := selectedLabel c |}.

Definition set_selectedLabel (l : option string) (c : t) : t :=
    {| clusterId := clusterId c; faces := faces c;
       representativeFace := representativeFace c;
       proposedLabels := proposedLabels c; selectedLabel := l |}.
End Cluster.

Module ExtractedFace.
Record t := {
    _id : ObjectId;
    fileId : string;
    fileName : string;
    fileType : FileType;
    uploadedBy : ObjectId;
    facesCount : nat;
    clusters : list Cluster.t;
    status : JobStatus;
    processingMessage : string;
    createdAt : Date;
    updatedAt : Date;
    isLabeled : bool;
    sessionId : string }.

Definition set_clusters (cs : list Cluster.t) (j : t) : t :=
    {| _id := _id j; fileId := fileId j; fileName := fileName j;
       fileType := fileType j; uploadedBy := uploadedBy j;
       facesCount := facesCount j; clusters := cs; status := status j;
       processingMessage := processingMessage j; createdAt := createdAt j;
       updatedAt := updatedAt j; isLabeled := isLabeled j;
       sessionId := sessionId j |}.

Definition set_updatedAt (d : Date) (j : t) : t :=
    {| _id := _id j; fileId := fileId j; fileName := fileName j;
       fileType := fileType j; uploadedBy := uploadedBy j;
       facesCount := facesCount j; clusters := clusters j; status := status j;
       processingMessage := processingMessage j; createdAt := createdAt j;
       updatedAt := d; isLabeled := isLabeled j;
       sessionId := sessionId j |}.

Definition set_isLabeled (b : bool) (j : t) : t :=
    {| _id := _id j; fileId := fileId j; fileName := fileName j;
       fileType := fileType j; uploadedBy := uploadedBy j;
       facesCount := facesCount j; clusters := clusters j; status := status j;
       processingMessage := processingMessage j; createdAt := createdAt j;
       updatedAt := updatedAt j; isLabeled := b;
       sessionId := sessionId j |}.

(** The update document [{ status, processingMessage }] of
    [findByIdAndUpdate]. *)
Definition set_outcome (s : JobStatus) (msg : string) (j : t) : t :=
    {| _id := _id j; fileId := fileId j; fileName := fileName j;
       fileType := fileType j; uploadedBy := uploadedBy j;
       facesCount := facesCount j; clusters := clusters j; status := s;
       processingMessage := msg; createdAt := createdAt j;
       updatedAt := updatedAt j; isLabeled := isLabeled j;
       sessionId := sessionId j |}.

Definition set_facesCount (n : nat) (j : t) : t :=
    {| _id := _id j; fileId := fileId j; fileName := fileName j;
       fileType := fileType j; uploadedBy := uploadedBy j;
       facesCount := n; clusters := clusters j; status := status j;
       processingMessage := processingMessage j; createdAt := createdAt j;
       updatedAt := updatedAt j; isLabeled := isLabeled j;
       sessionId := sessionId j |}.
End ExtractedFace.

(** ** The database and the ObjectId counter *)

Record DB := {
  faces : list Face.t;
  employees : list Employee.t;
  visitors : list Visitor.t;
  extractedFaces : list ExtractedFace.t;
  users : list User.t }.

Definition set_faces (x : list Face.t) (d : DB) : DB :=
  {| faces := x; employees := employees d; visitors := visitors d;
     extractedFaces := extractedFaces d; users := users d |}.

Definition set_employees (x : list Employee.t) (d : DB) : DB :=
  {| faces := faces d; employees := x; visitors := visitors d;
     extractedFaces := extractedFaces d; users := users d |}.

Definition set_visitors (x : list Visitor.t) (d : DB) : DB :=
  {| faces := faces d; employees := employees d; visitors := x;
     extractedFaces := extractedFaces d; users := users d |}.

Definition set_extractedFaces (x : list ExtractedFace.t) (d : DB) : DB :=
  {| faces := faces d; employees := employees d; visitors := visitors d;
     extractedFaces := x; users := users d |}.

Definition set_users (x : list User.t) (d : DB) : DB :=
  {| faces := faces d; employees := employees d; visitors := visitors d;
     extractedFaces := extractedFaces d; users := x |}.

Record World := { store : DB; nextOid : ObjectId }.

(** [Model.findById]. *)
Definition findById {A : Type} (idOf : A -> ObjectId) (i : ObjectId)
    (coll : list A) : option A :=
  find (fun d => Nat.eqb (idOf d) i) coll.

(** [doc.save()] of a document that was loaded from the collection, and
    [Model.findByIdAndUpdate]: the stored document with that id is
    replaced. *)
Definition replaceById {A : Type} (idOf : A -> ObjectId) (i : ObjectId)
    (f : A -> A) (coll : list A) : list A :=
  map (fun d => if Nat.eqb (idOf d) i then f d else d) coll.

(** ** Label proposals *)

Definition newProposal (uid : ObjectId) (l : string) (now : Date) : Proposal.t :=
  {| Proposal.label := l; Proposal.proposedBy := uid; Proposal.proposedAt := now |}.

(** The proposal update of [POST /faces/:id/propose-label]: [find] the
    user's entry and assign to it, or [push] a new one. *)
Definition upsertFaceProposal (uid : ObjectId) (l : string) (now : Date)
    (ps : list Proposal.t) : list Proposal.t :=
  match find (Proposal.by_user uid) ps with
  | Some _ => mutateFound (Proposal.by_user uid) (Proposal.relabel l now) ps
  | None => ps ++ [newProposal uid l now]
  end.

(** The proposal update of [POST /faces/extract/:id/cluster/:clusterId/label]:
    [findIndex] the user's entry and assign at that index, or [push]. *)
Definition upsertClusterProposal (uid : ObjectId) (l : string) (now : Date)
    (ps : list Proposal.t) : list Proposal.t :=
  match findIndex (Proposal.by_user uid) ps with
  | Some i => updateAt i (Proposal.relabel l now) ps
  | None => ps ++ [newProposal uid l now]
  end.

(** [POST /faces/:id/propose-label] *)
Definition proposeFaceLabel (faults : nat -> bool) (now : Date) (u : User.t)
    (id : ObjectId) (label : option string) (db : DB) : Response * DB :=
  match label with
  | None => (reply 400 "Please provide a label", db)
  | Some l =>
    if String.eqb l "" then (reply 400 "Please provide a label", db) else
    match findById Face._id id (faces db) with
    | None => (reply 404 "Face not found", db)
    | Some face =>
      if negb (canUserAccessFace u face)
         && negb (Permissions.canVerifyFaces (User.permissions u))
      then (reply 403 "You do not have permission to propose a label for this face", db)
      else
        let face1 :=
          Face.set_proposedLabels
            (upsertFaceProposal (User._id u) l now (Face.proposedLabels face)) face in
        let face2 := Face.set_updatedAt now face1 in
        if faults 0 then (reply 500 "Error proposing label", db)
        else (reply 200 "Label proposed successfully",
              set_faces (replaceById Face._id id (fun _ => face2) (faces db)) db)
    end
  end.

(** The access check shared by the extraction routes. *)
Definition cannotAccessExtraction (u : User.t) (job : ExtractedFace.t) : bool :=
  negb (Nat.eqb (ExtractedFace.uploadedBy job) (User._id u))
  && negb (Permissions.canViewAllData (User.permissions u))
  && negb (Role_eqb (User.role u) RAdmin)
  && negb (Role_eqb (User.role u) RManager).

(** The guard in front of the assignment to [selectedLabel] of a cluster. *)
Definition selectsOnProposal (u : User.t) : bool :=
  Role_eqb (User.role u) RAdmin || Role_eqb (User.role u) RManager
  || Permissions.canVerifyFaces (User.permissions u).

(** What the cluster-label handler does to the cluster it found. *)
Definition labelClusterAt (u : User.t) (l : string) (now : Date)
    (c : Cluster.t) : Cluster.t :=
  let c1 :=
    Cluster.set_proposedLabels
      (upsertClusterProposal (User._id u) l now (Cluster.proposedLabels c)) c in
  if selectsOnProposal u then Cluster.set_selectedLabel (Some l) c1 else c1.

(** [POST /faces/extract/:id/cluster/:clusterId/label] *)
Definition labelCluster (faults : nat -> bool) (now : Date) (u : User.t)
    (id : ObjectId) (clusterId : string) (label : option string) (db : DB)
    : Response * DB :=
  match label with
  | None => (reply 400 "Please provide a label", db)
  | Some l =>
    if String.eqb l "" then (reply 400 "Please provide a label", db) else
    match findById ExtractedFace._id id (extractedFaces db) with
    | None => (reply 404 "Face extraction not found", db)
    | Some job =>
      if cannotAccessExtraction u job
      then (reply 403 "You do not have permission to label this cluster", db)
      else
        match findIndex (fun c => String.eqb (Cluster.clusterId c) clusterId)
                        (ExtractedFace.clusters job) with
        | None => (reply 404 "Cluster not found", db)
        | Some ci =>
          let job1 :=
            ExtractedFace.set_clusters
              (updateAt ci (labelClusterAt u l now) (ExtractedFace.clusters job)) job in
          let job2 := ExtractedFace.set_updatedAt now job1 in
          if faults 0 then (reply 500 "Error labeling cluster", db)
          else (reply 200 "Cluster labeled successfully",
                set_extractedFaces
                  (replaceById ExtractedFace._id id (fun _ => job2) (extractedFaces db)) db)
        end
    end
  end.

(** ** Strings built by the handlers *)

Definition natToString (n : nat) : string :=
  DecimalString.NilEmpty.string_of_uint (Nat.to_uint n).

Definition isSpace (c : Ascii.ascii) : bool :=
  let n := Ascii.nat_of_ascii c in
  Nat.eqb n 32 || (Nat.leb 9 n && Nat.leb n 13).

Definition toLower (c : Ascii.ascii) : Ascii.ascii :=
  let n := Ascii.nat_of_ascii c in
  if Nat.leb 65 n && Nat.leb n 90 then Ascii.ascii_of_nat (n + 32) else c.

(** [s.replace(/\s+/g, '.').toLowerCase()] on ASCII text. *)
Fixpoint dotted (inSpaces : bool) (s : string) : string :=
  match s with
  | EmptyString => EmptyString
  | String c t =>
    if isSpace c
    then if inSpaces then dotted true t else String "."%char (dotted true t)
    else String (toLower c) (dotted false t)
  end.

Fixpoint trimStart (s : string) : string :=
  match s with
  | EmptyString => EmptyString
  | String c t => if isSpace c then trimStart t else s
  end.

Fixpoint trimEnd (s : string) : string :=
  match s with
  | EmptyString => EmptyString
  | String c t =>
    let t' := trimEnd t in
    if isSpace c && String.eqb t' "" then EmptyString else String c t'
  end.

(** The [trim: true] setter of a schema string; Mongoose applies it to
    the values it stores and to the values of a query filter alike. *)
Definition trim (s : string) : string := trimEnd (trimStart s).

(** ** Transactions

    A handler that works in a session reads and writes a working copy of
    the database.  [commitTransaction] makes the working copy the
    database; [abortTransaction], and [endSession] with a transaction in
    progress, drop it.  A step of the handler yields a value, leaves the
    handler with a reply ([return res.status(..)]), or throws. *)

Inductive Outcome (A : Type) : Type :=
| Value (a : A)
| Respond (r : Response)
| Raise (e : string).

Arguments Value {A} a.
Arguments Respond {A} r.
Arguments Raise {A} e.

Record Session := { work : DB; oid : ObjectId; writes : nat }.

Definition Tx (A : Type) : Type := Session -> Outcome A * Session.

Definition ret {A : Type} (a : A) : Tx A := fun s => (Value a, s).

Definition bind {A B : Type} (m : Tx A) (k : A -> Tx B) : Tx B :=
  fun s =>
    match m s with
    | (Value a, s') => k a s'
    | (Respond r, s') => (Respond r, s')
    | (Raise e, s') => (Raise e, s')
    end.

Declare Scope tx_scope.
Delimit Scope tx_scope with tx.
Notation "x <- m ;; k" := (bind m (fun x => k))
  (at level 100, m at next level, right associativity) : tx_scope.
Notation "m ;;; k" := (bind m (fun _ => k))
  (at level 100, right associativity) : tx_scope.

Definition respond {A : Type} (r : Response) : Tx A := fun s => (Respond r, s).
Definition raise {A : Type} (e : string) : Tx A := fun s => (Raise e, s).

(** [new mongoose.Types.ObjectId()], also drawn by [new Model(..)] for
    the [_id] of the document. *)
Definition newObjectId : Tx ObjectId :=
  fun s => (Value (oid s),
            {| work := work s; oid := S (oid s); writes := writes s |}).

(** A query in the session sees the working copy. *)
Definition query {A : Type} (q : DB -> A) : Tx A :=
  fun s => (Value (q (work s)), s).

(** A write in the session: it throws where the fault schedule says so. *)
Definition write (faults : nat -> bool) (f : DB -> DB) : Tx unit :=
  fun s =>
    if faults (writes s)
    then (Raise "write failed",
          {| work := work s; oid := oid s; writes := S (writes s) |})
    else (Value tt,
          {| work := f (work s); oid := oid s; writes := S (writes s) |}).

(** [session.commitTransaction()] is the last fallible step; it takes
    its place in the fault schedule after the writes. *)
Definition commitTransaction (faults : nat -> bool) : Tx unit :=
  fun s =>
    if faults (writes s)
    then (Raise "commit failed",
          {| work := work s; oid := oid s; writes := S (writes s) |})
    else (Value tt,
          {| work := work s; oid := oid s; writes := S (writes s) |}).

(** [startTransaction .. commitTransaction] with the [catch] that aborts
    and replies 500 with [errMsg], and the [finally] that ends the
    session. *)
Definition withTransaction (errMsg : string) (body : Tx Response) (w : World)
    : Response * World :=
  match body {| work := store w; oid := nextOid w; writes := 0 |} with
  | (Value r, s) => (r, {| store := work s; nextOid := oid s |})
  | (Respond r, s) => (r, {| store := store w; nextOid := oid s |})
  | (Raise _, s) => (reply 500 errMsg, {| store := store w; nextOid := oid s |})
  end.

(** ** Verification: [POST /faces/:id/verify] *)

Module VerifyBody.
Record t := {
    status : option string;
    selectedLabel : option string;
    personType : option string;
    personId : option ObjectId;
    note : option string;
    createNewPerson : bool;
    email : option string;
    phone : option string;
    department : option string;
    position : option string;
    company : option string;
    category : option string;
    purpose : option string;
    regularVisitor : bool }.
End VerifyBody.

(** [['verified', 'rejected'].includes(status)] *)
Definition parseStatus (s : option string) : option VerificationStatus :=
  match s with
  | None => None
  | Some x =>
    if String.eqb x "verified" then Some Verified
    else if String.eqb x "rejected" then Some Rejected
    else None
  end.

Definition statusWord (s : VerificationStatus) : string :=
  match s with
  | Verified => "verified"
  | Rejected => "rejected"
  | Unverified => "unverified"
  end.

(** [['employee', 'visitor'].includes(personType)] *)
Definition parsePersonType (s : option string) : option PersonType :=
  match s with
  | None => None
  | Some x =>
    if String.eqb x "employee" then Some PEmployee
    else if String.eqb x "visitor" then Some PVisitor
    else None
  end.

Definition MissingLabel : Response :=
  reply 400 "Please provide a selected label for verified faces".

Definition MissingPersonType : Response :=
  reply 400 "Please specify a valid person type (employee or visitor)".

(** [save] of a new employee or visitor.  The validator written out is
    the one on [name], required and trimmed: it rejects a name that trims
    to the empty string.  The other reasons for which the [save] of such
    a document throws (the [match] of [email], the [enum] of [category],
    the unique indexes on [employeeId] and [email]) are not told apart:
    they are throws of this write, which the fault schedule decides. *)
Definition insertNamed (faults : nat -> bool) (name : string)
    (f : DB -> DB) : Tx unit :=
  if String.eqb (trim name) "" then raise "Please provide name"
  else write faults f.

Definition newEmployee (eid : ObjectId) (l : string) (now : Date)
    (fid : ObjectId) (b : VerifyBody.t) : Employee.t :=
  {| Employee._id := eid;
     Employee.name := trim l;
     Employee.employeeId := "EMP-" ++ natToString now;
     Employee.email :=
       orElse (VerifyBody.email b) (dotted false l ++ "@example.com");
     Employee.phone := orElse (VerifyBody.phone b) "0000000000";
     Employee.department := orElse (VerifyBody.department b) "General";
     Employee.position := orElse (VerifyBody.position b) "Staff";
     Employee.faceId := Some fid;
     Employee.joiningDate := now;
     Employee.createdAt := now;
     Employee.updatedAt := now |}.

Definition newVerifiedVisitor (vid : ObjectId) (l : string) (now : Date)
    (fid : ObjectId) (b : VerifyBody.t) : Visitor.t :=
  {| Visitor._id := vid;
     Visitor.name := trim l;
     Visitor.email := VerifyBody.email b;
     Visitor.phone := VerifyBody.phone b;
     Visitor.company := Some (orElse (VerifyBody.company b) "Unknown");
     Visitor.faceId := Some fid;
     Visitor.category := orElse (VerifyBody.category b) "business";
     Visitor.visits :=
       [ {| Visit.entryTime := now;
            Visit.purpose := orElse (VerifyBody.purpose b) "General Visit" |} ];
     Visitor.regularVisitor := VerifyBody.regularVisitor b;
     Visitor.blacklisted := false;
     Visitor.createdAt := now;
     Visitor.updatedAt := now |}.

Definition personNotFound (pt : PersonType) (pid : ObjectId) : Response :=
  reply 404
    ((match pt with PEmployee => "Employee" | _ => "Visitor" end)
     ++ " not found with ID " ++ natToString pid).

Definition personExists (pt : PersonType) (pid : ObjectId) (d : DB) : bool :=
  match pt with
  | PEmployee =>
    match findById Employee._id pid (employees d) with Some _ => true | None => false end
  | _ =>
    match findById Visitor._id pid (visitors d) with Some _ => true | None => false end
  end.

Local Open Scope tx_scope.

(** The branch [if (status === 'verified')]: the face with its label and,
    when asked for, its person. *)
Definition verifiedBranch (faults : nat -> bool) (now : Date)
    (b : VerifyBody.t) (face : Face.t) : Tx Face.t :=
  match VerifyBody.selectedLabel b with
  | None => respond MissingLabel
  | Some l =>
    if String.eqb l "" then respond MissingLabel else
    let face1 := Face.set_selectedLabel (Some l) face in
    if VerifyBody.createNewPerson b then
      match parsePersonType (VerifyBody.personType b) with
      | None => respond MissingPersonType
      | Some PEmployee =>
        eid <- newObjectId ;;
        insertNamed faults l
          (fun d => set_employees
             (employees d ++ [newEmployee eid l now (Face._id face) b]) d) ;;;
        ret (Face.set_person PEmployee eid face1)
      | Some _ =>
        vid <- newObjectId ;;
        insertNamed faults l
          (fun d => set_visitors
             (visitors d ++ [newVerifiedVisitor vid l now (Face._id face) b]) d) ;;;
        ret (Face.set_person PVisitor vid face1)
      end
    else
      match VerifyBody.personId b with
      | None => ret face1
      | Some pid =>
        match parsePersonType (VerifyBody.personType b) with
        | None => respond MissingPersonType
        | Some pt =>
          found <- query (personExists pt pid) ;;
          if found then ret (Face.set_person pt pid face1)
          else respond (personNotFound pt pid)
        end
      end
  end.

Definition verifyFaceBody (faults : nat -> bool) (now : Date) (u : User.t)
    (id : ObjectId) (b : VerifyBody.t) : Tx Response :=
  match parseStatus (VerifyBody.status b) with
  | None =>
    respond (reply 400
      "Please provide a valid verification status (verified or rejected)")
  | Some st =>
    found <- query (fun d => findById Face._id id (faces d)) ;;
    match found with
    | None => respond (reply 404 "Face not found")
    | Some face =>
      let face1 :=
        Face.set_verification st (User._id u) now
          (orElse (VerifyBody.note b) "") face in
      face2 <- (match st with
                | Verified => verifiedBranch faults now b face1
                | _ => ret face1
                end) ;;
      write faults
        (fun d => set_faces (replaceById Face._id id (fun _ => face2) (faces d)) d) ;;;
      commitTransaction faults ;;;
      ret (reply 200 ("Face " ++ statusWord st ++ " successfully"))
    end
  end.

Definition Forbidden : Response :=
  reply 403 "You do not have permission to perform this action".

(** The route with its middleware [checkPermission('canVerifyFaces')]. *)
Definition verifyFace (faults : nat -> bool) (now : Date) (u : User.t)
    (id : ObjectId) (b : VerifyBody.t) (w : World) : Response * World :=
  if negb (checkPermission_canVerifyFaces u) then (Forbidden, w)
  else withTransaction "Error verifying face" (verifyFaceBody faults now u id b) w.

(** ** Extraction: [POST /faces/extract] and its background continuation *)

(** What [faceProcessingBridge.validateFaceUpload] resolves to: the
    clusters in the order of [Object.entries], each face already decoded
    to its bytes. *)
Module ProviderResult.
Record t := {
    success : bool;
    message : option string;
    is_valid : bool;
    face_count : nat;
    clusters : list (string * list Buffer) }.
End ProviderResult.

(** ** The bridge to the Python utilities: [utils/faceProcessingBridge.js]

    [_runPythonCommand] spawns the Python process and settles its
    promise in the handler of the [close] event of the process, and
    nowhere else; neither it nor [validateFaceUpload] sets a timer. *)

(** How the promise of [validateFaceUpload] settled: it resolved to a
    result or rejected with an error.  While the process has not closed
    the promise has not settled; the call is then a continuation that
    waits in [pending] of the system further down. *)
Inductive BridgeOutcome :=
| Returned (r : ProviderResult.t)
| Threw (e : string).

(** What the [close] event reports: the exit code, [null] when a signal
    ended the process, and what the process wrote to its two streams. *)
Module PythonExit.
Record t := { code : option nat; outputData : string; errorData : string }.
End PythonExit.

(** The exit code inside the template string. *)
Definition exitCodeText (code : option nat) : string :=
  match code with
  | Some n => natToString n
  | None => "null"
  end.

Section Bridge.

(** [JSON.parse] of the output is taken as given: the value, read
    through the fields the continuation reads, or the message of the
    [SyntaxError].  Output that parses to [null], whose fields cannot be
    read, is left out. *)
Variable parseOutput : string -> ProviderResult.t + string.

(** The handler of [close] in [_runPythonCommand]. *)
Definition runPythonCommand (closed : PythonExit.t) : BridgeOutcome :=
  match PythonExit.code closed with
  | Some 0 =>
    match parseOutput (PythonExit.outputData closed) with
    | inl result => Returned result
    | inr message => Threw ("Failed to parse Python output: " ++ message)
    end
  | code =>
    Threw ("Python process exited with code " ++ exitCodeText code ++ ": "
           ++ PythonExit.errorData closed)
  end.

(** [validateFaceUpload] awaits [_runPythonCommand]; its [catch] logs
    the error and throws it again. *)
Definition validateFaceUpload (closed : PythonExit.t) : BridgeOutcome :=
  runPythonCommand closed.

End Bridge.

Module Upload.
Record t := { originalname : string; buffer : Buffer }.
End Upload.

Definition fileTypeWord (t : FileType) : string :=
  match t with Image => "image" | Video => "video" end.

Fixpoint mapi_from {A B : Type} (i : nat) (f : A -> nat -> B) (l : list A) : list B :=
  match l with
  | [] => []
  | x :: t => f x i :: mapi_from (S i) f t
  end.

Definition buildCluster (fileId : string) (entry : string * list Buffer) : Cluster.t :=
  let (clusterId, clusterFaces) := entry in
  {| Cluster.clusterId := clusterId;
     Cluster.representativeFace :=
       match clusterFaces with
       | [] => None
       | first :: _ =>
         Some {| Crop.imageUrl :=
                   "face_" ++ fileId ++ "_" ++ clusterId ++ "_representative.jpg";
                 Crop.imageData := Some first |}
       end;
     Cluster.faces :=
       mapi_from 0
         (fun face index =>
            {| Crop.imageUrl :=
                 "face_" ++ fileId ++ "_" ++ clusterId ++ "_"
                 ++ natToString index ++ ".jpg";
               Crop.imageData := Some face |})
         clusterFaces;
     Cluster.proposedLabels := [];
     Cluster.selectedLabel := None |}.

Local Close Scope tx_scope.

(** The synchronous part: the job is saved in [processing] and the reply
    202 is sent.  The third component is the document the continuation
    keeps in its closure, when there is a continuation. *)
Definition extractFaces (faults : nat -> bool) (now : Date) (u : User.t)
    (file : option Upload.t) (fileType : FileType) (sessionId : option string)
    (w : World) : Response * World * option ExtractedFace.t :=
  match file with
  | None => (reply 400 "Please provide an image or video file", w, None)
  | Some f =>
    let fileId := natToString (nextOid w) in
    let extractedFace :=
      {| ExtractedFace._id := S (nextOid w);
         ExtractedFace.fileId := fileId;
         ExtractedFace.fileName := Upload.originalname f;
         ExtractedFace.fileType := fileType;
         ExtractedFace.uploadedBy := User._id u;
         ExtractedFace.facesCount := 0;
         ExtractedFace.clusters := [];
         ExtractedFace.status := Processing;
         ExtractedFace.processingMessage := "Extracting faces from uploaded file...";
         ExtractedFace.createdAt := now;
         ExtractedFace.updatedAt := now;
         ExtractedFace.isLabeled := false;
         ExtractedFace.sessionId := orElse sessionId fileId |} in
    if faults 0
    then (reply 500 "Error extracting faces",
          {| store := store w; nextOid := S (S (nextOid w)) |}, None)
    else (reply 202 "Face extraction started",
          {| store := set_extractedFaces
                        (extractedFaces (store w) ++ [extractedFace]) (store w);
             nextOid := S (S (nextOid w)) |},
          Some extractedFace)
  end.

Definition updateJob (id : ObjectId) (f : ExtractedFace.t -> ExtractedFace.t)
    (d : DB) : DB :=
  set_extractedFaces (replaceById ExtractedFace._id id f (extractedFaces d)) d.

(** The first [findByIdAndUpdate] of a run is write 0; when it throws,
    the [catch] issues write 1. *)
Definition orCatch (faults : nat -> bool) (now : Date) (id : ObjectId)
    (f : ExtractedFace.t -> ExtractedFace.t) (d : DB) : DB :=
  if faults 0 then
    if faults 1 then d
    else updateJob id
           (fun j => ExtractedFace.set_updatedAt now
              (ExtractedFace.set_outcome Failed "Error processing file: write failed" j)) d
  else updateJob id f d.

(** The background continuation, run with what the bridge call gave. *)
Definition extractContinuation (faults : nat -> bool) (now : Date)
    (extractedFace : ExtractedFace.t) (outcome : BridgeOutcome) (d : DB) : DB :=
  let id := ExtractedFace._id extractedFace in
  match outcome with
  | Threw e =>
    if faults 0 then d
    else updateJob id
           (fun j => ExtractedFace.set_updatedAt now
              (ExtractedFace.set_outcome Failed ("Error processing file: " ++ e) j)) d
  | Returned result =>
    if negb (ProviderResult.success result) then
      orCatch faults now id
        (ExtractedFace.set_outcome Failed
           (orElse (ProviderResult.message result) "Failed to process the file")) d
    else if negb (ProviderResult.is_valid result)
            || Nat.eqb (ProviderResult.face_count result) 0 then
      orCatch faults now id
        (ExtractedFace.set_outcome Failed
           (orElse (ProviderResult.message result)
                   "No human faces detected in the uploaded file")) d
    else
      let clusters :=
        map (buildCluster (ExtractedFace.fileId extractedFace))
            (ProviderResult.clusters result) in
      orCatch faults now id
        (fun j =>
           ExtractedFace.set_updatedAt now
             (ExtractedFace.set_clusters clusters
                (ExtractedFace.set_facesCount (ProviderResult.face_count result)
                   (ExtractedFace.set_outcome Completed
                      ("Successfully extracted "
                       ++ natToString (ProviderResult.face_count result)
                       ++ " faces from "
                       ++ fileTypeWord (ExtractedFace.fileType extractedFace)) j)))) d
  end.

(** ** Completion: [POST /faces/extract/:id/complete] *)

Definition canComplete (u : User.t) (job : ExtractedFace.t) : bool :=
  Nat.eqb (ExtractedFace.uploadedBy job) (User._id u)
  || Role_eqb (User.role u) RAdmin
  || Role_eqb (User.role u) RManager
  || Permissions.canVerifyFaces (User.permissions u).

(** [Employee.findOne({ name })]; the filter value passes the [trim]
    setter of the schema. *)
Definition findEmployeeByName (l : string) (d : DB) : option Employee.t :=
  find (fun e => String.eqb (Employee.name e) (trim l)) (employees d).

Definition findVisitorByName (l : string) (d : DB) : option Visitor.t :=
  find (fun v => String.eqb (Visitor.name v) (trim l)) (visitors d).

(** [Visitor.exists({ name, faceId: { $ne: null } })] *)
Definition visitorWithFaceExists (l : string) (d : DB) : bool :=
  existsb
    (fun v => String.eqb (Visitor.name v) (trim l)
              && match Visitor.faceId v with Some _ => true | None => false end)
    (visitors d).

Definition newExtractedVisitor (vid : ObjectId) (l : string) (now : Date)
    (placeholder : ObjectId) : Visitor.t :=
  {| Visitor._id := vid;
     Visitor.name := trim l;
     Visitor.email := None;
     Visitor.phone := None;
     Visitor.company := None;
     Visitor.faceId := Some placeholder;
     Visitor.category := "business";
     Visitor.visits :=
       [ {| Visit.entryTime := now;
            Visit.purpose := "Created from face extraction" |} ];
     Visitor.regularVisitor := false;
     Visitor.blacklisted := false;
     Visitor.createdAt := now;
     Visitor.updatedAt := now |}.

Definition newExtractedFace (fid : ObjectId) (u : User.t) (now : Date)
    (c : Cluster.t) (img : Buffer) (l : string)
    (pt : PersonType) (pid : ObjectId) : Face.t :=
  {| Face._id := fid;
     Face.primaryImage := img;
     Face.additionalImages :=
       map (fun face => Crop.imageData face) (firstn 4 (Cluster.faces c));
     Face.personType := pt;
     Face.personId := pid;
     Face.active := true;
     Face.verificationStatus :=
       if Permissions.canVerifyFaces (User.permissions u)
       then Verified else Unverified;
     Face.uploadedBy := Some (User._id u);
     Face.verifiedBy := None;
     Face.verificationDate := None;
     Face.verificationNote := None;
     Face.proposedLabels := [newProposal (User._id u) l now];
     Face.selectedLabel := Some l;
     Face.createdAt := now;
     Face.updatedAt := now |}.

(** The crop the loop promotes: the cluster has a truthy selected label
    and a representative face with image data. *)
Definition promotable (c : Cluster.t) : option (string * Buffer) :=
  match Cluster.selectedLabel c with
  | None => None
  | Some l =>
    if String.eqb l "" then None else
    match Cluster.representativeFace c with
    | None => None
    | Some rep =>
      match Crop.imageData rep with
      | None => None
      | Some img => Some (l, img)
      end
    end
  end.

Local Open Scope tx_scope.

(** The lookup [Employee], then [Visitor], then a new [Visitor]. *)
Definition resolvePerson (faults : nat -> bool) (now : Date) (l : string)
    : Tx (PersonType * ObjectId) :=
  employee <- query (findEmployeeByName l) ;;
  match employee with
  | Some e => ret (PEmployee, Employee._id e)
  | None =>
    visitor <- query (findVisitorByName l) ;;
    match visitor with
    | Some v => ret (PVisitor, Visitor._id v)
    | None =>
      placeholder <- newObjectId ;;
      vid <- newObjectId ;;
      insertNamed faults l
        (fun d => set_visitors
           (visitors d ++ [newExtractedVisitor vid l now placeholder]) d) ;;;
      ret (PVisitor, vid)
    end
  end.

(** One turn of the loop over the clusters. *)
Definition completeCluster (faults : nat -> bool) (now : Date) (u : User.t)
    (c : Cluster.t) : Tx unit :=
  match promotable c with
  | None => ret tt
  | Some (l, img) =>
    _unused <- newObjectId ;;
    person <- resolvePerson faults now l ;;
    let (personType, personId) := person in
    fid <- newObjectId ;;
    write faults
      (fun d => set_faces
         (faces d ++ [newExtractedFace fid u now c img l personType personId]) d) ;;;
    match personType with
    | PVisitor =>
      linked <- query (visitorWithFaceExists l) ;;
      if negb linked
      then write faults
             (fun d => set_visitors
                (replaceById Visitor._id personId
                   (Visitor.set_faceId (Some fid)) (visitors d)) d)
      else ret tt
    | _ => ret tt
    end
  end.

Fixpoint forEach {A : Type} (f : A -> Tx unit) (l : list A) : Tx unit :=
  match l with
  | [] => ret tt
  | x :: t => f x ;;; forEach f t
  end.

Definition completeLabelingBody (faults : nat -> bool) (now : Date)
    (u : User.t) (extractedFace : ExtractedFace.t) : Tx Response :=
  forEach (completeCluster faults now u) (ExtractedFace.clusters extractedFace) ;;;
  write faults
    (updateJob (ExtractedFace._id extractedFace)
       (fun _ => ExtractedFace.set_updatedAt now
                   (ExtractedFace.set_isLabeled true extractedFace))) ;;;
  commitTransaction faults ;;;
  ret (reply 200 "Face labeling completed successfully").

Local Close Scope tx_scope.

Definition completeLabeling (faults : nat -> bool) (now : Date) (u : User.t)
    (id : ObjectId) (w : World) : Response * World :=
  match findById ExtractedFace._id id (extractedFaces (store w)) with
  | None => (reply 404 "Face extraction not found", w)
  | Some extractedFace =>
    if negb (canComplete u extractedFace)
    then (reply 403 "You do not have permission to complete this labeling", w)
    else withTransaction "Error completing face labeling"
           (completeLabelingBody faults now u extractedFace) w
  end.

(** ** Registration: [POST /auth/register] and the [pre('save')] hook *)

Module RegisterBody.
Record t := {
    name : option string;
    email : option string;
    password : option string;
    role : option string }.
End RegisterBody.

(** The [enum] of the [role] path. *)
Definition parseRole (s : string) : option Role :=
  if String.eqb s "admin" then Some RAdmin
  else if String.eqb s "manager" then Some RManager
  else if String.eqb s "user" then Some RUser
  else None.

(** The permissions the hook assigns for a role. *)
Definition rolePermissions (r : Role) : Permissions.t :=
  match r with
  | RAdmin =>
    {| Permissions.canVerifyFaces := true; Permissions.canManageUsers := true;
       Permissions.canManageAllFaces := true; Permissions.canViewAllData := true |}
  | RManager =>
    {| Permissions.canVerifyFaces := true; Permissions.canManageUsers := false;
       Permissions.canManageAllFaces := true; Permissions.canViewAllData := true |}
  | RUser =>
    {| Permissions.canVerifyFaces := false; Permissions.canManageUsers := false;
       Permissions.canManageAllFaces := false; Permissions.canViewAllData := false |}
  end.

(** The schema defaults of the [permissions] path. *)
Definition defaultPermissions : Permissions.t :=
  {| Permissions.canVerifyFaces := false; Permissions.canManageUsers := false;
     Permissions.canManageAllFaces := false; Permissions.canViewAllData := false |}.

Section Registration.

(** The [match] pattern of the [email] path and [bcrypt.hash] with a
    fresh salt are taken as given. *)
Variable emailPattern : string -> bool.
Variable bcryptHash : string -> string.

(** [UserSchema.pre('save')].  When the password was not modified the
    hook calls [next()] without returning, so the lines below it run in
    either case. *)
Definition preSave (modifiedPassword modifiedRole : bool) (u : User.t) : User.t :=
  let u1 :=
    {| User._id := User._id u; User.name := User.name u;
       User.email := User.email u;
       User.password := bcryptHash (User.password u);
       User.role := User.role u; User.permissions := User.permissions u |} in
  if modifiedRole then
    {| User._id := User._id u1; User.name := User.name u1;
       User.email := User.email u1; User.password := User.password u1;
       User.role := User.role u1;
       User.permissions := rolePermissions (User.role u1) |}
  else u1.

(** The validators of the user schema on the document [User.create]
    builds; [None] is a validation error. *)
Definition validateUser (id : ObjectId) (b : RegisterBody.t) : option User.t :=
  match RegisterBody.name b, RegisterBody.email b, RegisterBody.password b with
  | Some n, Some e, Some p =>
    match parseRole (orElse (RegisterBody.role b) "user") with
    | Some r =>
      if negb (String.eqb (trim n) "")
         && Nat.leb (String.length (trim n)) 50
         && emailPattern e
         && Nat.leb 6 (String.length p)
      then Some {| User._id := id; User.name := trim n; User.email := e;
                   User.password := p; User.role := r;
                   User.permissions := defaultPermissions |}
      else None
    | None => None
    end
  | _, _, _ => None
  end.

(** [User.findOne({ email })] *)
Definition findUserByEmail (e : option string) (d : DB) : option User.t :=
  match e with
  | None => None
  | Some e' => find (fun u => String.eqb (User.email u) e') (users d)
  end.

(** The route takes no authenticated actor: it is mounted without
    [protect]. *)
Definition register (faults : nat -> bool) (b : RegisterBody.t) (w : World)
    : Response * World :=
  match findUserByEmail (RegisterBody.email b) (store w) with
  | Some _ => (reply 400 "User already exists", w)
  | None =>
    let w' := {| store := store w; nextOid := S (nextOid w) |} in
    match validateUser (nextOid w) b with
    | None => (reply 500 "Error registering user", w')
    | Some doc =>
      if faults 0 then (reply 500 "Error registering user", w')
      else (reply 201 "",
            {| store := set_users (users (store w) ++ [preSave true true doc]) (store w);
               nextOid := S (nextOid w) |})
    end
  end.

End Registration.

(** ** The system: handlers and pending continuations *)

Record System := { world : World; pending : list ExtractedFace.t }.

Inductive Op :=
| OpRegister (emailPattern : string -> bool) (bcryptHash : string -> string)
    (faults : nat -> bool) (b : RegisterBody.t)
| OpProposeFaceLabel (faults : nat -> bool) (now : Date) (u : User.t)
    (id : ObjectId) (label : option string)
| OpVerifyFace (faults : nat -> bool) (now : Date) (u : User.t)
    (id : ObjectId) (b : VerifyBody.t)
| OpExtractFaces (faults : nat -> bool) (now : Date) (u : User.t)
    (file : option Upload.t) (fileType : FileType) (sessionId : option string)
| OpBridgeSettles (faults : nat -> bool) (now : Date) (id : ObjectId)
    (outcome : BridgeOutcome)
| OpLabelCluster (faults : nat -> bool) (now : Date) (u : User.t)
    (id : ObjectId) (clusterId : string) (label : option string)
| OpCompleteLabeling (faults : nat -> bool) (now : Date) (u : User.t)
    (id : ObjectId).

Definition onStore (f : DB -> DB) (w : World) : World :=
  {| store := f (store w); nextOid := nextOid w |}.

Definition isJob (id : ObjectId) (j : ExtractedFace.t) : bool :=
  Nat.eqb (ExtractedFace._id j) id.

(** One operation of the system.  The bridge call of a job settles at
    most once: its continuation leaves [pending] when it runs. *)
Definition step (op : Op) (s : System) : System :=
  match op with
  | OpRegister ep h faults b =>
    {| world := snd (register ep h faults b (world s)); pending := pending s |}
  | OpProposeFaceLabel faults now u id label =>
    {| world := onStore (fun d => snd (proposeFaceLabel faults now u id label d)) (world s);
       pending := pending s |}
  | OpVerifyFace faults now u id b =>
    {| world := snd (verifyFace faults now u id b (world s)); pending := pending s |}
  | OpExtractFaces faults now u file fileType sessionId =>
    match extractFaces faults now u file fileType sessionId (world s) with
    | (_, w, Some doc) => {| world := w; pending := pending s ++ [doc] |}
    | (_, w, None) => {| world := w; pending := pending s |}
    end
  | OpBridgeSettles faults now id outcome =>
    match find (isJob id) (pending s) with
    | None => s
    | Some doc =>
      {| world := onStore (extractContinuation faults now doc outcome) (world s);
         pending := filter (fun j => negb (isJob id j)) (pending s) |}
    end
  | OpLabelCluster faults now u id clusterId label =>
    {| world := onStore (fun d => snd (labelCluster faults now u id clusterId label d)) (world s);
       pending := pending s |}
  | OpCompleteLabeling faults now u id =>
    {| world := snd (completeLabeling faults now u id (world s)); pending := pending s |}
  end.

Definition run (ops : list Op) (s : System) : System :=
  fold_left (fun acc op => step op acc) ops s.

Definition emptyDB : DB :=
  {| faces := []; employees := []; visitors := []; extractedFaces := []; users := [] |}.

Definition initialSystem : System :=
  {| world := {| store := emptyDB; nextOid := 0 |}; pending := [] |}.

(** * Statements *)

(** ** Fault schedules and what a run under faults may differ in *)

Definition session0 (w : World) : Session :=
  {| work := store w; oid := nextOid w; writes := 0 |}.

(** No fallible step with an index in [a, b) is made to fail. *)
Definition faultless (faults : nat -> bool) (a b : nat) : Prop :=
  forall n, a <= n -> n < b -> faults n = false.

(** [mf] is a computation under [faults], [m0] the same computation
    without faults: from every session, either [mf] throws, or the two
    agree and none of the steps [m0] issues is made to fail. *)
Definition Agrees (faults : nat -> bool) {A : Type} (mf m0 : Tx A) : Prop :=
  forall s,
    (exists e s', mf s = (Raise e, s'))
    \/ (mf s = m0 s
        /\ writes s <= writes (snd (m0 s))
        /\ faultless faults (writes s) (writes (snd (m0 s)))).

(** The number of fallible steps (writes and the commit) the handler
    issues when none fails. *)
Definition verifySteps (now : Date) (u : User.t) (id : ObjectId)
    (b : VerifyBody.t) (w : World) : nat :=
  writes (snd (verifyFaceBody no_faults now u id b (session0 w))).

Definition completeSteps (now : Date) (u : User.t) (job : ExtractedFace.t)
    (w : World) : nat :=
  writes (snd (completeLabelingBody no_faults now u job (session0 w))).

(** ** Concrete inputs *)

Definition verifierOnly : Permissions.t :=
  {| Permissions.canVerifyFaces := true; Permissions.canManageUsers := false;
     Permissions.canManageAllFaces := false; Permissions.canViewAllData := false |}.

Definition mkUser (id : ObjectId) (n : string) (r : Role) (p : Permissions.t) : User.t :=
  {| User._id := id; User.name := n; User.email := n ++ "@example.com";
     User.password := "$2b$10$hash"; User.role := r; User.permissions := p |}.

(** The uploader, a plain user. *)
Definition alice : User.t := mkUser 1 "alice" RUser defaultPermissions.
(** A plain user who was granted [canVerifyFaces] and nothing else. *)
Definition reviewer : User.t := mkUser 2 "reviewer" RUser verifierOnly.
(** An administrator with the permissions of the role. *)
Definition root : User.t := mkUser 3 "root" RAdmin (rolePermissions RAdmin).
(** Another plain user. *)
Definition bob : User.t := mkUser 4 "bob" RUser defaultPermissions.

(** A face uploaded by [alice] with her proposal, not yet verified. *)
Definition face20 : Face.t :=
  {| Face._id := 20; Face.primaryImage := "jpeg-bytes";
     Face.additionalImages := []; Face.personType := PUnknown;
     Face.personId := 19; Face.active := true;
     Face.verificationStatus := Unverified; Face.uploadedBy := Some 1;
     Face.verifiedBy := None; Face.verificationDate := None;
     Face.verificationNote := None;
     Face.proposedLabels := [newProposal 1 "Alice" 0];
     Face.selectedLabel := None; Face.createdAt := 0; Face.updatedAt := 0 |}.

Definition crop0 : Crop.t :=
  {| Crop.imageUrl := "face_9_0_0.jpg"; Crop.imageData := Some "crop-bytes" |}.

(** A cluster of one crop whose selected label is "Alice". *)
Definition cluster0 : Cluster.t :=
  {| Cluster.clusterId := "0"; Cluster.faces := [crop0];
     Cluster.representativeFace :=
       Some {| Crop.imageUrl := "face_9_0_representative.jpg";
               Crop.imageData := Some "crop-bytes" |};
     Cluster.proposedLabels := [newProposal 1 "Alice" 3];
     Cluster.selectedLabel := Some "Alice" |}.

(** A completed extraction job of [alice] holding that cluster. *)
Definition job10 : ExtractedFace.t :=
  {| ExtractedFace._id := 10; ExtractedFace.fileId := "9";
     ExtractedFace.fileName := "door.jpg"; ExtractedFace.fileType := Image;
     ExtractedFace.uploadedBy := 1; ExtractedFace.facesCount := 1;
     ExtractedFace.clusters := [cluster0]; ExtractedFace.status := Completed;
     ExtractedFace.processingMessage := "Successfully extracted 1 faces from image";
     ExtractedFace.createdAt := 2; ExtractedFace.updatedAt := 3;
     ExtractedFace.isLabeled := false; ExtractedFace.sessionId := "9" |}.

(** A database with the four users, the face and the job, and no person. *)
Definition world0 : World :=
  {| store := {| faces := [face20]; employees := []; visitors := [];
                 extractedFaces := [job10];
                 users := [alice; reviewer; root; bob] |};
     nextOid := 21 |}.

(** A verification that asks for a new visitor named "Alice". *)
Definition verifyNewVisitor : VerifyBody.t :=
  {| VerifyBody.status := Some "verified";
     VerifyBody.selectedLabel := Some "Alice";
     VerifyBody.personType := Some "visitor"; VerifyBody.personId := None;
     VerifyBody.note := None; VerifyBody.createNewPerson := true;
     VerifyBody.email := None; VerifyBody.phone := None;
     VerifyBody.department := None; VerifyBody.position := None;
     VerifyBody.company := None; VerifyBody.category := None;
     VerifyBody.purpose := None; VerifyBody.regularVisitor := false |}.

(** A verification with [status = verified] and no selected label. *)
Definition verifyNoLabel : VerifyBody.t :=
  {| VerifyBody.status := Some "verified";
     VerifyBody.selectedLabel := None;
     VerifyBody.personType := Some "visitor"; VerifyBody.personId := None;
     VerifyBody.note := Some "looks right"; VerifyBody.createNewPerson := true;
     VerifyBody.email := None; VerifyBody.phone := None;
     VerifyBody.department := None; VerifyBody.position := None;
     VerifyBody.company := None; VerifyBody.category := None;
     VerifyBody.purpose := None; VerifyBody.regularVisitor := false |}.

(** The person is written (step 0) and the write of the face (step 1)
    throws. *)
Definition faceWriteFails : nat -> bool := fun n => Nat.eqb n 1.

(** ** Looking at faces and clusters the way the handlers do *)

Definition faceProposals (id : ObjectId) (d : DB) : option (list Proposal.t) :=
  option_map Face.proposedLabels (findById Face._id id (faces d)).

Definition faceSelectedLabel (id : ObjectId) (d : DB) : option (option string) :=
  option_map Face.selectedLabel (findById Face._id id (faces d)).

Definition hasClusterId (clusterId : string) (c : Cluster.t) : bool :=
  String.eqb (Cluster.clusterId c) clusterId.

Definition findCluster (id : ObjectId) (clusterId : string) (d : DB)
    : option Cluster.t :=
  match findById ExtractedFace._id id (extractedFaces d) with
  | Some job => find (hasClusterId clusterId) (ExtractedFace.clusters job)
  | None => None
  end.

Definition clusterProposals (id : ObjectId) (clusterId : string) (d : DB)
    : option (list Proposal.t) :=
  option_map Cluster.proposedLabels (findCluster id clusterId d).

Definition clusterSelectedLabel (id : ObjectId) (clusterId : string) (d : DB)
    : option (option string) :=
  option_map Cluster.selectedLabel (findCluster id clusterId d).

(** The holder of the privilege of the claim: [canVerifyFaces], or the
    role admin or manager. *)
Definition privileged (u : User.t) : Prop :=
  Permissions.canVerifyFaces (User.permissions u) = true
  \/ User.role u = RAdmin \/ User.role u = RManager.

Definition ForbiddenToPropose : Response :=
  reply 403 "You do not have permission to propose a label for this face".

(** The reply of [labelCluster] and [proposeFaceLabel] on success. *)
Definition succeeded (r : Response) : Prop := res_status r = 200.

(** ** One slot per proposer *)

Definition oneSlotPerProposer (ps : list Proposal.t) : Prop :=
  NoDup (map Proposal.proposedBy ps).

(** Every face and every cluster of the database keeps at most one
    proposal per proposer. *)
Definition slotsInv (d : DB) : Prop :=
  (forall f, In f (faces d) -> oneSlotPerProposer (Face.proposedLabels f))
  /\ (forall j c,
        In j (extractedFaces d) -> In c (ExtractedFace.clusters j) ->
        oneSlotPerProposer (Cluster.proposedLabels c)).

(** A face as the completion handler creates it: one proposal, by the
    caller. *)
Definition singleProposal (f : Face.t) : Prop :=
  exists p, Face.proposedLabels f = [p].

(** What holds of the session throughout the loop of the completion
    handler, started on the database [d0] with the counter at [o0]: the
    jobs are untouched and faces are only added. *)
Definition loopInv (d0 : DB) (o0 : ObjectId) (s : Session) : Prop :=
  extractedFaces (work s) = extractedFaces d0
  /\ o0 <= oid s
  /\ exists added,
       faces (work s) = faces d0 ++ added /\ Forall singleProposal added.

(** The document the completion handler saves. *)
Definition labeled (now : Date) (job : ExtractedFace.t) : ExtractedFace.t :=
  ExtractedFace.set_updatedAt now (ExtractedFace.set_isLabeled true job).

(** A computation never takes the ObjectId counter back. *)
Definition OidMono {A : Type} (m : Tx A) : Prop :=
  forall s, oid s <= oid (snd (m s)).

(** The system on the database [world0], with no extraction running. *)
Definition system0 : System := {| world := world0; pending := [] |}.

(** [alice] proposes twice for her face and once for her cluster, and
    the administrator proposes for both. *)
Definition proposals0 : list Op :=
  [ OpProposeFaceLabel no_faults 7 alice 20 (Some "Alicia");
    OpProposeFaceLabel no_faults 8 alice 20 (Some "Alice B.");
    OpLabelCluster no_faults 9 alice 10 "0" (Some "Alicia");
    OpProposeFaceLabel no_faults 10 root 20 (Some "Bob");
    OpLabelCluster no_faults 11 root 10 "0" (Some "Bob") ].

(** ** The life of an extraction job *)

Definition statusStep (a b : JobStatus) : Prop :=
  a = b \/ (a = Processing /\ (b = Completed \/ b = Failed)).

Definition terminal (s : JobStatus) : Prop := s = Completed \/ s = Failed.

(** Two clusters that differ at most in their label fields. *)
Definition sameButLabels (c c' : Cluster.t) : Prop :=
  Cluster.clusterId c' = Cluster.clusterId c
  /\ Cluster.faces c' = Cluster.faces c
  /\ Cluster.representativeFace c' = Cluster.representativeFace c.

(** Two job documents that differ at most in the label fields of their
    clusters, in [isLabeled] and in [updatedAt]. *)
Definition sameButLabeling (j j' : ExtractedFace.t) : Prop :=
  ExtractedFace.fileId j' = ExtractedFace.fileId j
  /\ ExtractedFace.fileName j' = ExtractedFace.fileName j
  /\ ExtractedFace.fileType j' = ExtractedFace.fileType j
  /\ ExtractedFace.uploadedBy j' = ExtractedFace.uploadedBy j
  /\ ExtractedFace.facesCount j' = ExtractedFace.facesCount j
  /\ ExtractedFace.status j' = ExtractedFace.status j
  /\ ExtractedFace.processingMessage j' = ExtractedFace.processingMessage j
  /\ ExtractedFace.createdAt j' = ExtractedFace.createdAt j
  /\ ExtractedFace.sessionId j' = ExtractedFace.sessionId j
  /\ Forall2 sameButLabels (ExtractedFace.clusters j) (ExtractedFace.clusters j').

(** What one operation may do to a job document. *)
Definition allowedChange (j j' : ExtractedFace.t) : Prop :=
  ExtractedFace._id j' = ExtractedFace._id j
  /\ statusStep (ExtractedFace.status j) (ExtractedFace.status j')
  /\ (terminal (ExtractedFace.status j) -> sameButLabeling j j').

(** What one operation may do to the collection of jobs: every document
    changes as allowed, and new documents start in [processing]. *)
Definition jobsEvolve (old new : list ExtractedFace.t) : Prop :=
  exists kept fresh,
    new = kept ++ fresh
    /\ Forall2 allowedChange old kept
    /\ Forall (fun j => ExtractedFace.status j = Processing) fresh.

Definition jobsOf (s : System) : list ExtractedFace.t :=
  extractedFaces (store (world s)).

(** The states the system can be in: ids were drawn from the counter, no
    two jobs and no two continuations share an id, and a job whose bridge
    call has not settled is in [processing]. *)
Definition systemInv (s : System) : Prop :=
  (forall j, In j (jobsOf s) -> ExtractedFace._id j < nextOid (world s))
  /\ (forall p, In p (pending s) -> ExtractedFace._id p < nextOid (world s))
  /\ NoDup (map ExtractedFace._id (jobsOf s))
  /\ NoDup (map ExtractedFace._id (pending s))
  /\ (forall p j,
        In p (pending s) -> In j (jobsOf s) ->
        ExtractedFace._id j = ExtractedFace._id p ->
        ExtractedFace.status j = Processing).

(** ** Calling the completion handler twice *)

(** The label resolves by name: an employee carries it, or a visitor
    with a face reference does. *)
Definition resolved (l : string) (d : DB) : Prop :=
  findEmployeeByName l d <> None \/ visitorWithFaceExists l d = true.

Definition isPromotable (c : Cluster.t) : bool :=
  match promotable c with Some _ => true | None => false end.

(** The number of clusters of a job the loop promotes. *)
Definition promotableCount (job : ExtractedFace.t) : nat :=
  List.length (filter isPromotable (ExtractedFace.clusters job)).

Definition isLabeledIn (id : ObjectId) (d : DB) : option bool :=
  option_map ExtractedFace.isLabeled
    (findById ExtractedFace._id id (extractedFaces d)).

(** Every label the loop promotes resolves by name. *)
Definition allResolved (cs : list Cluster.t) (d : DB) : Prop :=
  forall c l img, In c cs -> promotable c = Some (l, img) -> resolved l d.

(** ** Registration *)

(** The document a successful registration stores. *)
Definition registeredUser (bcryptHash : string -> string) (id : ObjectId)
    (n e p : string) (r : Role) : User.t :=
  {| User._id := id; User.name := trim n; User.email := e;
     User.password := bcryptHash p; User.role := r;
     User.permissions := rolePermissions r |}.

(** A registration that asks for the role admin. *)
Definition registerAdmin : RegisterBody.t :=
  {| RegisterBody.name := Some "Mallory";
     RegisterBody.email := Some "mallory@example.com";
     RegisterBody.password := Some "hunter22";
     RegisterBody.role := Some "admin" |}.

Definition anyEmail : string -> bool := fun _ => true.
Definition markHashed : string -> string := fun p => ("bcrypt:" ++ p)%string.

(** ** A bridge call that does not settle *)

(** The operation is the settling of the bridge call of job [id]. *)
Definition settles (id : ObjectId) (op : Op) : bool :=
  match op with
  | OpBridgeSettles _ _ id' _ => Nat.eqb id' id
  | _ => false
  end.

Definition noneSettles (id : ObjectId) (ops : list Op) : bool :=
  forallb (fun op => negb (settles id op)) ops.

Definition jobOutcome (id : ObjectId) (d : DB) : option (JobStatus * string) :=
  option_map
    (fun j => (ExtractedFace.status j, ExtractedFace.processingMessage j))
    (findById ExtractedFace._id id (extractedFaces d)).

Definition doorVideo : Upload.t :=
  {| Upload.originalname := "door.mp4"; Upload.buffer := "mp4-bytes" |}.

(** The Python process was killed by the system: exit code 137, nothing
    on the output. *)
Definition killedRun : PythonExit.t :=
  {| PythonExit.code := Some 137; PythonExit.outputData := "";
     PythonExit.errorData := "Killed" |}.

(** A parser that finds no JSON in any output. *)
Definition noJSON : string -> ProviderResult.t + string :=
  fun _ => inr "Unexpected end of JSON input".

(** [alice] uploads a video; while the bridge call is out, she tries to
    label a cluster and completes the labelling, and somebody registers. *)
Definition whileBridgeIsOut : list Op :=
  [ OpExtractFaces no_faults 1 alice (Some doorVideo) Video None;
    OpLabelCluster no_faults 2 alice 1 "0" (Some "Alice");
    OpCompleteLabeling no_faults 3 alice 1;
    OpRegister anyEmail markHashed no_faults registerAdmin ].

(** * The other routes of [api/routes.js] *)

(** ** [parseInt] as the routes use it, without a radix

    Leading white space is skipped, a sign is read, a prefix [0x] or
    [0X] selects radix 16, and the longest run of digits is the value;
    with no digit the result is [NaN], here [None].  The sign is kept
    beside the magnitude, so that [-0] stays apart from the negative
    numbers as in the comparison [faceIdx < 0]. *)

Module ParsedInt.
Record t := { negative : bool; magnitude : nat }.
End ParsedInt.

Definition digitValue (c : ascii) : option nat :=
  let n := nat_of_ascii c in
  if Nat.leb 48 n && Nat.leb n 57 then Some (n - 48)
  else if Nat.leb 97 n && Nat.leb n 122 then Some (n - 87)
  else if Nat.leb 65 n && Nat.leb n 90 then Some (n - 55)
  else None.

Definition isDigitOf (radix : nat) (c : ascii) : bool :=
  match digitValue c with
  | Some k => Nat.ltb k radix
  | None => false
  end.

Fixpoint parseDigits (radix acc : nat) (s : string) : nat :=
  match s with
  | EmptyString => acc
  | String c t =>
    match digitValue c with
    | Some k => if Nat.ltb k radix then parseDigits radix (radix * acc + k) t else acc
    | None => acc
    end
  end.

Definition readSign (s : string) : bool * string :=
  match s with
  | String c t =>
    if Ascii.eqb c "-" then (true, t)
    else if Ascii.eqb c "+" then (false, t)
    else (false, s)
  | EmptyString => (false, s)
  end.

Definition readRadix (s : string) : nat * string :=
  match s with
  | String c0 (String c1 t) =>
    if Ascii.eqb c0 "0" && (Ascii.eqb c1 "x" || Ascii.eqb c1 "X") then (16, t)
    else (10, s)
  | _ => (10, s)
  end.

Definition parseInt (input : string) : option ParsedInt.t :=
  let (neg, s1) := readSign (trimStart input) in
  let (radix, s2) := readRadix s1 in
  match s2 with
  | String c _ =>
    if isDigitOf radix c
    then Some {| ParsedInt.negative := neg;
                 ParsedInt.magnitude := parseDigits radix 0 s2 |}
    else None
  | EmptyString => None
  end.

(** [n < 0] *)
Definition isNegative (n : ParsedInt.t) : bool :=
  ParsedInt.negative n && negb (Nat.eqb (ParsedInt.magnitude n) 0).

(** ** Reading an extraction job *)

Definition jobStatusWord (s : JobStatus) : string :=
  match s with
  | Processing => "processing"
  | Completed => "completed"
  | Failed => "failed"
  end.

Module StatusSummary.
Record t := {
    id : ObjectId;
    fileId : string;
    fileName : string;
    fileType : FileType;
    status : JobStatus;
    message : string;
    facesCount : nat;
    clusterCount : nat;
    createdAt : Date;
    updatedAt : Date }.
End StatusSummary.

Definition summarize (job : ExtractedFace.t) : StatusSummary.t :=
  {| StatusSummary.id := ExtractedFace._id job;
     StatusSummary.fileId := ExtractedFace.fileId job;
     StatusSummary.fileName := ExtractedFace.fileName job;
     StatusSummary.fileType := ExtractedFace.fileType job;
     StatusSummary.status := ExtractedFace.status job;
     StatusSummary.message := ExtractedFace.processingMessage job;
     StatusSummary.facesCount := ExtractedFace.facesCount job;
     StatusSummary.clusterCount := List.length (ExtractedFace.clusters job);
     StatusSummary.createdAt := ExtractedFace.createdAt job;
     StatusSummary.updatedAt := ExtractedFace.updatedAt job |}.

(** [GET /faces/extract/:id] *)
Definition getExtractionStatus (u : User.t) (id : ObjectId) (d : DB)
    : Response * option StatusSummary.t :=
  match findById ExtractedFace._id id (extractedFaces d) with
  | None => (reply 404 "Face extraction not found", None)
  | Some extractedFace =>
    if cannotAccessExtraction u extractedFace
    then (reply 403 "You do not have permission to access this face extraction", None)
    else (reply 200 "", Some (summarize extractedFace))
  end.

(** A cluster as the listing sends it: the crops by their urls only.
    The ids of the embedded crop documents are not modelled. *)
Module ClusterView.
Record t := {
    clusterId : string;
    faces : list string;
    representativeFace : option string;
    proposedLabels : list Proposal.t;
    selectedLabel : option string;
    faceCount : nat }.
End ClusterView.

Definition viewCluster (cluster : Cluster.t) : ClusterView.t :=
  {| ClusterView.clusterId := Cluster.clusterId cluster;
     ClusterView.faces := map Crop.imageUrl (Cluster.faces cluster);
     ClusterView.representativeFace :=
       match Cluster.representativeFace cluster with
       | Some rep => Some (Crop.imageUrl rep)
       | None => None
       end;
     ClusterView.proposedLabels := Cluster.proposedLabels cluster;
     ClusterView.selectedLabel := Cluster.selectedLabel cluster;
     ClusterView.faceCount := List.length (Cluster.faces cluster) |}.

(** [GET /faces/extract/:id/clusters] *)
Definition listClusters (u : User.t) (id : ObjectId) (d : DB)
    : Response * option (list ClusterView.t) :=
  match findById ExtractedFace._id id (extractedFaces d) with
  | None => (reply 404 "Face extraction not found", None)
  | Some extractedFace =>
    if cannotAccessExtraction u extractedFace
    then (reply 403 "You do not have permission to access these face clusters", None)
    else if negb (JobStatus_eqb (ExtractedFace.status extractedFace) Completed)
    then (reply 400
            ("Face extraction is not completed (status: "
             ++ jobStatusWord (ExtractedFace.status extractedFace) ++ ")"),
          None)
    else (reply 200 "", Some (map viewCluster (ExtractedFace.clusters extractedFace)))
  end.

(** [GET /faces/extract/:id/face/:clusterId/:faceIndex]; on success the
    body is the image. *)
Definition getFaceImage (u : User.t) (id : ObjectId) (clusterId faceIndex : string)
    (d : DB) : Response * option Buffer :=
  match findById ExtractedFace._id id (extractedFaces d) with
  | None => (reply 404 "Face extraction not found", None)
  | Some extractedFace =>
    if cannotAccessExtraction u extractedFace
    then (reply 403 "You do not have permission to access this face", None)
    else
      match find (hasClusterId clusterId) (ExtractedFace.clusters extractedFace) with
      | None => (reply 404 "Cluster not found", None)
      | Some cluster =>
        match parseInt faceIndex with
        | None => (reply 404 "Face not found", None)
        | Some faceIdx =>
          if isNegative faceIdx
             || Nat.leb (List.length (Cluster.faces cluster))
                        (ParsedInt.magnitude faceIdx)
          then (reply 404 "Face not found", None)
          else
            match nth_error (Cluster.faces cluster) (ParsedInt.magnitude faceIdx) with
            | None => (reply 404 "Face image data not found", None)
            | Some face =>
              match Crop.imageData face with
              | None => (reply 404 "Face image data not found", None)
              | Some imageData => (reply 200 "", Some imageData)
              end
            end
        end
      end
  end.

(** ** The [multer] configuration of the routes

    [upload] keeps the files in memory, limits a file to 50 MB and
    filters by the mime type.  When [multer] refuses a request it calls
    [next] with the error: the handler of the route does not run, and
    the error handler of [server.js] answers 500 with the text of the
    error under [error] and no [message]. *)

Module ImageFile.
Record t := { buffer : Buffer; mimetype : string }.
End ImageFile.

(** [String.prototype.includes], which is what [RegExp.prototype.test]
    comes to for an alternation of plain words. *)
Fixpoint includes (word s : string) : bool :=
  String.prefix word s
  || match s with
     | EmptyString => false
     | String _ rest => includes word rest
     end.

(** [/jpeg|jpg|png|webp/] *)
Definition allowedImageTypes (mimetype : string) : bool :=
  includes "jpeg" mimetype || includes "jpg" mimetype
  || includes "png" mimetype || includes "webp" mimetype.

(** [/mp4|avi|mov|wmv|flv|mkv/] *)
Definition allowedVideoTypes (mimetype : string) : bool :=
  includes "mp4" mimetype || includes "avi" mimetype
  || includes "mov" mimetype || includes "wmv" mimetype
  || includes "flv" mimetype || includes "mkv" mimetype.

(** [fileFilter]: the file type it notes on the request, or [None] for
    the error it passes to the callback. *)
Definition fileFilter (mimetype : string) : option FileType :=
  if String.prefix "image/" mimetype && allowedImageTypes mimetype
  then Some Image
  else if String.prefix "video/" mimetype && allowedVideoTypes mimetype
  then Some Video
  else None.

Section Multer.

(** [limits: { fileSize: 50 * 1024 * 1024 }]: whether [multer] finds the
    bytes of a file over the limit is taken as given. *)
Variable overFileSize : Buffer -> bool.

(** [upload.array(field, maxCount)] on the files the request carries in
    that field: [multer] refuses the request when there are more than
    [maxCount], when the filter refuses one of them, or when one is over
    the size limit.  Files in another field, which it refuses as well,
    are not modelled. *)
Definition uploadArray (maxCount : nat) (files : list ImageFile.t) : bool :=
  Nat.leb (List.length files) maxCount
  && forallb
       (fun file =>
          match fileFilter (ImageFile.mimetype file) with
          | Some _ => negb (overFileSize (ImageFile.buffer file))
          | None => false
          end)
       files.

End Multer.

(** The reply of the error handler of [server.js]. *)
Definition ServerError : Response := reply 500 "".

(** ** [POST /faces/upload]

    The features, the quality score and the similar faces of the reply
    come from the random helpers and are left out, as the feature vector
    is in the face model. *)

Definition uploadedFace (fid pid : ObjectId) (u : User.t) (now : Date)
    (file : ImageFile.t) (proposedLabel : option string) : Face.t :=
  {| Face._id := fid;
     Face.primaryImage := ImageFile.buffer file;
     Face.additionalImages := [];
     Face.personType := PUnknown;
     Face.personId := pid;
     Face.active := true;
     Face.verificationStatus := Unverified;
     Face.uploadedBy := Some (User._id u);
     Face.verifiedBy := None;
     Face.verificationDate := None;
     Face.verificationNote := None;
     Face.proposedLabels := [newProposal (User._id u) (orElse proposedLabel "Unknown") now];
     Face.selectedLabel := None;
     Face.createdAt := now;
     Face.updatedAt := now |}.

(** The loop over the files.  The [k]-th [face.save()] is fallible step
    [k]; it is not in a transaction, so what was saved before a throw
    stays.  [None] stands for the throw; otherwise the ids of the new
    faces are returned in order. *)
Fixpoint uploadEach (faults : nat -> bool) (now : Date) (u : User.t)
    (proposedLabel : option string) (k : nat) (files : list ImageFile.t)
    (w : World) : option (list ObjectId) * World :=
  match files with
  | [] => (Some [], w)
  | file :: rest =>
    let pid := nextOid w in
    let fid := S (nextOid w) in
    if faults k
    then (None, {| store := store w; nextOid := S (S (nextOid w)) |})
    else
      let w1 :=
        {| store := set_faces
                      (faces (store w) ++ [uploadedFace fid pid u now file proposedLabel])
                      (store w);
           nextOid := S (S (nextOid w)) |} in
      match uploadEach faults now u proposedLabel (S k) rest w1 with
      | (Some ids, w2) => (Some (fid :: ids), w2)
      | (None, w2) => (None, w2)
      end
  end.

(** The handler behind [upload.array('images', 5)]. *)
Definition uploadFacesHandler (faults : nat -> bool) (now : Date) (u : User.t)
    (files : list ImageFile.t) (proposedLabel : option string) (w : World)
    : Response * list ObjectId * World :=
  match files with
  | [] => (reply 400 "Please provide at least one image", [], w)
  | _ =>
    match uploadEach faults now u proposedLabel 0 files w with
    | (Some ids, w') =>
      (reply 201
         (natToString (List.length ids)
          ++ " face(s) uploaded successfully and pending verification"),
       ids, w')
    | (None, w') => (reply 500 "Error uploading face image", [], w')
    end
  end.

(** The route: [files] are the files the request carries in the field
    [images]. *)
Definition uploadFaces (overFileSize : Buffer -> bool) (faults : nat -> bool)
    (now : Date) (u : User.t) (files : list ImageFile.t)
    (proposedLabel : option string) (w : World)
    : Response * list ObjectId * World :=
  if uploadArray overFileSize 5 files
  then uploadFacesHandler faults now u files proposedLabel w
  else (ServerError, [], w).

(** ** [POST /auth/login] *)

Module UserSummary.
Record t := { id : ObjectId; name : string; email : string; role : Role }.
End UserSummary.

Definition summarizeUser (u : User.t) : UserSummary.t :=
  {| UserSummary.id := User._id u; UserSummary.name := User.name u;
     UserSummary.email := User.email u; UserSummary.role := User.role u |}.

Definition InvalidCredentials : Response := reply 401 "Invalid credentials".

Section Login.

(** [bcrypt.compare] of the entered password with the stored hash. *)
Variable bcryptCompare : string -> string -> bool.

(** [UserSchema.methods.matchPassword] *)
Definition matchPassword (u : User.t) (enteredPassword : string) : bool :=
  bcryptCompare enteredPassword (User.password u).

Definition login (email password : option string) (d : DB)
    : Response * option UserSummary.t :=
  if negb (truthy email) || negb (truthy password)
  then (reply 400 "Please provide email and password", None)
  else
    match findUserByEmail email d with
    | None => (InvalidCredentials, None)
    | Some user =>
      if negb (matchPassword user (orElse password ""))
      then (InvalidCredentials, None)
      else (reply 200 "", Some (summarizeUser user))
    end.

End Login.

(** ** [GET /labels] *)

Inductive LabelType := LEmployee | LVisitor | LCustom.

Module LabelItem.
Record t := { label : string; type : LabelType; id : option ObjectId }.
End LabelItem.

(** [Map.prototype.set]: a key that is present keeps its place and
    takes the new value; a new key goes to the end. *)
Fixpoint mapSet (k : string) (v : LabelItem.t) (m : list (string * LabelItem.t))
    : list (string * LabelItem.t) :=
  match m with
  | [] => [(k, v)]
  | (k', v') :: t =>
    if String.eqb k' k then (k', v) :: t else (k', v') :: mapSet k v t
  end.

(** [Array.from(new Map(allLabels.map(item => [item.label, item])).values())] *)
Definition uniqueLabels (allLabels : list LabelItem.t) : list LabelItem.t :=
  map snd
    (fold_left (fun m item => mapSet (LabelItem.label item) item m) allLabels []).

Section Labels.

(** The [active] path of an employee document, which the employee
    record above does not carry. *)
Variable employeeActive : Employee.t -> bool.

Definition employeeLabels (d : DB) : list LabelItem.t :=
  map (fun emp => {| LabelItem.label := Employee.name emp;
                     LabelItem.type := LEmployee;
                     LabelItem.id := Some (Employee._id emp) |})
      (firstn 1000 (filter employeeActive (employees d))).

Definition visitorLabels (d : DB) : list LabelItem.t :=
  map (fun vis => {| LabelItem.label := Visitor.name vis;
                     LabelItem.type := LVisitor;
                     LabelItem.id := Some (Visitor._id vis) |})
      (firstn 1000 (filter (fun v => negb (Visitor.blacklisted v)) (visitors d))).

Definition userLabels (createdLabels : option (list string)) : list LabelItem.t :=
  map (fun label => {| LabelItem.label := label;
                       LabelItem.type := LCustom;
                       LabelItem.id := None |})
      (match createdLabels with Some ls => ls | None => [] end).

(** The handler, given the [createdLabels] of the caller's user
    document. *)
Definition getLabels (createdLabels : option (list string)) (d : DB)
    : list LabelItem.t :=
  uniqueLabels (employeeLabels d ++ visitorLabels d ++ userLabels createdLabels).

End Labels.

(** * Statements about the routes *)

(** An administrator whose [canVerifyFaces] flag was switched off. *)
Definition demotedAdmin : User.t := mkUser 5 "dana" RAdmin defaultPermissions.

(** The face as the verification handler saves it for [verified] with
    the label [l], before any person is attached. *)
Definition verifiedAs (u : User.t) (now : Date) (b : VerifyBody.t) (l : string)
    (face : Face.t) : Face.t :=
  Face.set_selectedLabel (Some l)
    (Face.set_verification Verified (User._id u) now
       (orElse (VerifyBody.note b) "") face).


(** A verification that links the face to the visitor 77. *)
Definition verifyLink77 : VerifyBody.t :=
  {| VerifyBody.status := Some "verified";
     VerifyBody.selectedLabel := Some "Alice";
     VerifyBody.personType := Some "visitor"; VerifyBody.personId := Some 77;
     VerifyBody.note := None; VerifyBody.createNewPerson := false;
     VerifyBody.email := None; VerifyBody.phone := None;
     VerifyBody.department := None; VerifyBody.position := None;
     VerifyBody.company := None; VerifyBody.category := None;
     VerifyBody.purpose := None; VerifyBody.regularVisitor := false |}.

(** A verification with a label and no person. *)
Definition verifyLabelOnly : VerifyBody.t :=
  {| VerifyBody.status := Some "verified";
     VerifyBody.selectedLabel := Some "Alice";
     VerifyBody.personType := None; VerifyBody.personId := None;
     VerifyBody.note := None; VerifyBody.createNewPerson := false;
     VerifyBody.email := None; VerifyBody.phone := None;
     VerifyBody.department := None; VerifyBody.position := None;
     VerifyBody.company := None; VerifyBody.category := None;
     VerifyBody.purpose := None; VerifyBody.regularVisitor := false |}.

(** The visitor 77 of the examples, and a world that holds her. *)
Definition visitor77 : Visitor.t :=
  {| Visitor._id := 77; Visitor.name := "Alice"; Visitor.email := None;
     Visitor.phone := None; Visitor.company := None; Visitor.faceId := Some 76;
     Visitor.category := "business"; Visitor.visits := [];
     Visitor.regularVisitor := true; Visitor.blacklisted := false;
     Visitor.createdAt := 0; Visitor.updatedAt := 0 |}.

Definition world77 : World :=
  {| store := set_visitors [visitor77] (store world0); nextOid := 78 |}.

(** ** What the continuation leaves *)

Definition jobById (id : ObjectId) (d : DB) : option ExtractedFace.t :=
  findById ExtractedFace._id id (extractedFaces d).

(** The outcomes the continuation records as a failure. *)
Definition providerFailed (r : ProviderResult.t) : bool :=
  negb (ProviderResult.success r)
  || negb (ProviderResult.is_valid r)
  || Nat.eqb (ProviderResult.face_count r) 0.

Definition failureMessage (r : ProviderResult.t) : string :=
  if negb (ProviderResult.success r)
  then orElse (ProviderResult.message r) "Failed to process the file"
  else orElse (ProviderResult.message r) "No human faces detected in the uploaded file".

(** A cluster as the continuation builds it from a group of the
    provider: the id of the group, one crop per face in order, the first
    face as the representative, no label. *)
Definition builtFrom (entry : string * list Buffer) (c : Cluster.t) : Prop :=
  Cluster.clusterId c = fst entry
  /\ map Crop.imageData (Cluster.faces c) = map Some (snd entry)
  /\ option_map Crop.imageData (Cluster.representativeFace c)
     = option_map Some (hd_error (snd entry))
  /\ Cluster.proposedLabels c = []
  /\ Cluster.selectedLabel c = None.

Definition hasKey (k : string) (entry : string * list Buffer) : bool :=
  String.eqb (fst entry) k.

(** A provider result with two groups. *)
Definition twoGroups : ProviderResult.t :=
  {| ProviderResult.success := true; ProviderResult.message := None;
     ProviderResult.is_valid := true; ProviderResult.face_count := 3;
     ProviderResult.clusters := [("0", ["a0"; "a1"]); ("1", ["b0"])] |}.

(** A provider result that found no face. *)
Definition noFaces : ProviderResult.t :=
  {| ProviderResult.success := true; ProviderResult.message := Some "No face found";
     ProviderResult.is_valid := false; ProviderResult.face_count := 0;
     ProviderResult.clusters := [] |}.

(** A job of [alice] that is still processing, and a database with it. *)
Definition job30 : ExtractedFace.t :=
  {| ExtractedFace._id := 30; ExtractedFace.fileId := "29";
     ExtractedFace.fileName := "yard.mp4"; ExtractedFace.fileType := Video;
     ExtractedFace.uploadedBy := 1; ExtractedFace.facesCount := 0;
     ExtractedFace.clusters := []; ExtractedFace.status := Processing;
     ExtractedFace.processingMessage := "Extracting faces from uploaded file...";
     ExtractedFace.createdAt := 4; ExtractedFace.updatedAt := 4;
     ExtractedFace.isLabeled := false; ExtractedFace.sessionId := "29" |}.

Definition db30 : DB := set_extractedFaces [job10; job30] (store world0).

(** A listed cluster that shows a group of the provider. *)
Definition showsGroup (entry : string * list Buffer) (v : ClusterView.t) : Prop :=
  ClusterView.clusterId v = fst entry
  /\ ClusterView.faceCount v = List.length (snd entry)
  /\ List.length (ClusterView.faces v) = List.length (snd entry)
  /\ ClusterView.proposedLabels v = []
  /\ ClusterView.selectedLabel v = None.

(** The caller is neither the uploader, nor admin or manager, nor a
    holder of [canViewAllData]. *)
Definition outsider (u : User.t) (job : ExtractedFace.t) : Prop :=
  ExtractedFace.uploadedBy job <> User._id u
  /\ User.role u = RUser
  /\ Permissions.canViewAllData (User.permissions u) = false.

(** A plain user who was granted [canViewAllData] and nothing else. *)
Definition viewerOnly : Permissions.t :=
  {| Permissions.canVerifyFaces := false; Permissions.canManageUsers := false;
     Permissions.canManageAllFaces := false; Permissions.canViewAllData := true |}.

Definition auditor : User.t := mkUser 6 "auditor" RUser viewerOnly.

(** ** The shape of a job *)

(** A completed job counts at least one face; a job that is processing
    or failed has no cluster and counts no face. *)
Definition jobShape (j : ExtractedFace.t) : Prop :=
  (ExtractedFace.status j = Completed /\ ExtractedFace.facesCount j <> 0)
  \/ (ExtractedFace.status j <> Completed
      /\ ExtractedFace.clusters j = []
      /\ ExtractedFace.facesCount j = 0).

Definition shapedSystem (s : System) : Prop :=
  systemInv s /\ forall j, In j (jobsOf s) -> jobShape j.

(** ** The faces the completion stores *)

(** Every visitor of [d] is still a visitor of [d'], under the same id
    and name. *)
Definition visitorsKept (d d' : DB) : Prop :=
  forall v, In v (visitors d) ->
    exists v', In v' (visitors d')
               /\ Visitor._id v' = Visitor._id v
               /\ Visitor.name v' = Visitor.name v.

(** The face [f] names a stored person called [l]: an employee, or a
    visitor when no employee has that name. *)
Definition refersTo (f : Face.t) (l : string) (d : DB) : Prop :=
  (Face.personType f = PEmployee
   /\ exists e, In e (employees d)
                /\ Employee._id e = Face.personId f
                /\ Employee.name e = trim l)
  \/ (Face.personType f = PVisitor
      /\ findEmployeeByName l d = None
      /\ exists v, In v (visitors d)
                   /\ Visitor._id v = Face.personId f
                   /\ Visitor.name v = trim l).

(** The face [f] is what the loop of the completion stores for the
    cluster [c], as seen in the database [d]: it carries the selected
    label of [c], the representative crop of [c] as its image and the
    first four crops of [c] beside it; the label is the single proposal,
    made by [u] at [now]; [u] is the uploader; the face is verified
    exactly when [u] holds the verify permission; and it names a stored
    person called by the label. *)
Definition promotes (u : User.t) (now : Date) (d : DB) (c : Cluster.t)
    (f : Face.t) : Prop :=
  exists l img,
    promotable c = Some (l, img)
    /\ Face.selectedLabel f = Some l
    /\ Face.primaryImage f = img
    /\ Face.additionalImages f
       = map (fun crop => Crop.imageData crop) (firstn 4 (Cluster.faces c))
    /\ Face.proposedLabels f = [newProposal (User._id u) l now]
    /\ Face.uploadedBy f = Some (User._id u)
    /\ Face.verificationStatus f
       = (if Permissions.canVerifyFaces (User.permissions u)
          then Verified else Unverified)
    /\ refersTo f l d.

(** The face the completion of [job10] by [alice] stores on [world0]. *)
Definition promotedAlice : Face.t :=
  newExtractedFace 24 alice 7 cluster0 "crop-bytes" "Alice" PVisitor 23.

(** ** The proposals of the other users *)

(** The entries of [ps] that [uid] did not propose, in their order. *)
Definition othersEntries (uid : ObjectId) (ps : list Proposal.t) : list Proposal.t :=
  filter (fun p => negb (Proposal.by_user uid p)) ps.

(** After a proposal of [l] by [uid] at [now]: the first entry of [uid]
    is that proposal, and the entries of the others are those of
    [before]. *)
Definition proposalRecorded (uid : ObjectId) (l : string) (now : Date)
    (before after : list Proposal.t) : Prop :=
  find (Proposal.by_user uid) after = Some (newProposal uid l now)
  /\ othersEntries uid after = othersEntries uid before.

(** ** What an upload leaves behind *)

(** The first of the fallible steps [k], [k + 1], ..., [k + n - 1] that
    throws. *)
Fixpoint firstFault (faults : nat -> bool) (k n : nat) : option nat :=
  match n with
  | 0 => None
  | S m => if faults k then Some k else firstFault faults (S k) m
  end.

(** A face as the upload stores it: of an unknown person, unverified,
    uploaded by the caller, with the caller's proposal as its only one
    and no selected label. *)
Definition pendingUpload (u : User.t) (now : Date) (proposedLabel : option string)
    (f : Face.t) : Prop :=
  Face.personType f = PUnknown
  /\ Face.verificationStatus f = Unverified
  /\ Face.uploadedBy f = Some (User._id u)
  /\ Face.proposedLabels f
     = [newProposal (User._id u) (orElse proposedLabel "Unknown") now]
  /\ Face.selectedLabel f = None.

Definition twoImages : list ImageFile.t :=
  [ {| ImageFile.buffer := "front"; ImageFile.mimetype := "image/png" |};
    {| ImageFile.buffer := "side"; ImageFile.mimetype := "image/png" |} ].

(** No file is over the size limit. *)
Definition noneTooLarge : Buffer -> bool := fun _ => false.

(** One file more than the route takes. *)
Definition sixImages : list ImageFile.t :=
  twoImages ++ twoImages ++ twoImages.

(** A file the filter refuses. *)
Definition oneGif : list ImageFile.t :=
  [ {| ImageFile.buffer := "anim"; ImageFile.mimetype := "image/gif" |} ].

(** The second [save] throws. *)
Definition secondSaveFails (k : nat) : bool := Nat.eqb k 1.

(** ** Accounts *)

(** A comparison that accepts the hashes [markHashed] makes. *)
Definition comparesMark (entered stored : string) : bool :=
  String.eqb stored (markHashed entered).

(** No two stored users share an email. *)
Definition distinctEmails (d : DB) : Prop :=
  NoDup (map User.email (users d)).

(** A pattern that asks for a character. *)
Definition nonEmptyEmail (e : string) : bool := negb (String.eqb e "").

(** ** The label list *)

(** The last item of [items] that carries the label [k]. *)
Definition lastWith (k : string) (items : list LabelItem.t) : option LabelItem.t :=
  find (fun item => String.eqb (LabelItem.label item) k) (rev items).

(** The map the handler builds holds, under each key, the last item
    with that label, and no key twice. *)
Definition holdsLast (m : list (string * LabelItem.t)) (items : list LabelItem.t)
    : Prop :=
  NoDup (map fst m)
  /\ forall k v, In (k, v) m <-> lastWith k items = Some v.

(** Every stored face has an id the counter has passed. *)
Definition faceIdsIssued (w : World) : Prop :=
  forall f, In f (faces (store w)) -> Face._id f < nextOid w.

(** The job the extraction of [doorVideo] by alice creates on [world0]. *)
Definition job22 : ExtractedFace.t :=
  {| ExtractedFace._id := 22; ExtractedFace.fileId := "21";
     ExtractedFace.fileName := Upload.originalname doorVideo;
     ExtractedFace.fileType := Video;
     ExtractedFace.uploadedBy := 1; ExtractedFace.facesCount := 0;
     ExtractedFace.clusters := []; ExtractedFace.status := Processing;
     ExtractedFace.processingMessage := "Extracting faces from uploaded file...";
     ExtractedFace.createdAt := 9; ExtractedFace.updatedAt := 9;
     ExtractedFace.isLabeled := false;
     ExtractedFace.sessionId := "21" |}.

(** * Proofs *)

Unset Implicit Arguments.

(** ** Runs under a fault schedule *)

Lemma Agrees_pure (faults : nat -> bool) (A : Type) (m : Tx A) :
  (forall s, writes (snd (m s)) = writes s) -> Agrees faults m m.
Proof.
  intros Hw s. right. rewrite Hw. repeat split; auto.
  intros n Ha Hb. lia.
Qed.

Lemma Agrees_ret (faults : nat -> bool) (A : Type) (a : A) :
  Agrees faults (ret a) (ret a).
Proof. apply Agrees_pure. reflexivity. Qed.

Lemma Agrees_respond (faults : nat -> bool) (A : Type) (r : Response) :
  Agrees faults (@respond A r) (respond r).
Proof. apply Agrees_pure. reflexivity. Qed.

Lemma Agrees_raise (faults : nat -> bool) (A : Type) (e : string) :
  Agrees faults (@raise A e) (raise e).
Proof. apply Agrees_pure. reflexivity. Qed.

Lemma Agrees_newObjectId (faults : nat -> bool) :
  Agrees faults newObjectId newObjectId.
Proof. apply Agrees_pure. reflexivity. Qed.

Lemma Agrees_query (faults : nat -> bool) (A : Type) (q : DB -> A) :
  Agrees faults (query q) (query q).
Proof. apply Agrees_pure. reflexivity. Qed.

Lemma Agrees_write (faults : nat -> bool) (f : DB -> DB) :
  Agrees faults (write faults f) (write no_faults f).
Proof.
  intros s. unfold write, no_faults.
  destruct (faults (writes s)) eqn:Hf.
  - left. eauto.
  - right. cbn. repeat split; auto.
    intros n Ha Hb. assert (n = writes s) by lia. subst n. exact Hf.
Qed.

Lemma Agrees_commit (faults : nat -> bool) :
  Agrees faults (commitTransaction faults) (commitTransaction no_faults).
Proof.
  intros s. unfold commitTransaction, no_faults.
  destruct (faults (writes s)) eqn:Hf.
  - left. eauto.
  - right. cbn. repeat split; auto.
    intros n Ha Hb. assert (n = writes s) by lia. subst n. exact Hf.
Qed.

Lemma Agrees_bind (faults : nat -> bool) (A B : Type)
    (mf m0 : Tx A) (kf k0 : A -> Tx B) :
  Agrees faults mf m0 ->
  (forall a, Agrees faults (kf a) (k0 a)) ->
  Agrees faults (bind mf kf) (bind m0 k0).
Proof.
  intros Hm Hk s. unfold bind.
  destruct (Hm s) as [[e [s' He]] | [Heq [Hle Hfl]]].
  - left. rewrite He. eauto.
  - rewrite Heq. destruct (m0 s) as [[a | r | e] s1] eqn:Hm0; cbn in Hle, Hfl.
    + destruct (Hk a s1) as [[e [s' He]] | [Heq' [Hle' Hfl']]].
      * left. eauto.
      * right. repeat split; auto; try lia.
        intros n Ha Hb.
        destruct (Nat.lt_ge_cases n (writes s1)); [apply Hfl | apply Hfl']; lia.
    + right. cbn. auto.
    + left. eauto.
Qed.

Lemma Agrees_insertNamed (faults : nat -> bool) (name : string) (f : DB -> DB) :
  Agrees faults (insertNamed faults name f) (insertNamed no_faults name f).
Proof.
  unfold insertNamed. destruct (String.eqb (trim name) "").
  - apply Agrees_raise.
  - apply Agrees_write.
Qed.

Lemma Agrees_forEach (faults : nat -> bool) (A : Type) (ff f0 : A -> Tx unit)
    (l : list A) :
  (forall x, Agrees faults (ff x) (f0 x)) ->
  Agrees faults (forEach ff l) (forEach f0 l).
Proof.
  intros Hf. induction l as [| x t IH]; cbn.
  - apply Agrees_ret.
  - apply Agrees_bind; auto.
Qed.

Create HintDb agrees.

#[local] Hint Resolve Agrees_ret Agrees_respond Agrees_raise Agrees_newObjectId
  Agrees_query Agrees_write Agrees_commit Agrees_insertNamed : agrees.

(** Splits a handler body along its binds and branches. *)
Ltac agrees :=
  repeat first
    [ solve [auto with agrees]
    | apply Agrees_bind; [| intros ]
    | match goal with
      | |- Agrees _ (match ?x with _ => _ end) _ => destruct x
      | |- Agrees _ (if ?x then _ else _) _ => destruct x
      | |- Agrees _ (let (_, _) := ?x in _) _ => destruct x
      end ].

Lemma Agrees_verifiedBranch faults now b face :
  Agrees faults (verifiedBranch faults now b face) (verifiedBranch no_faults now b face).
Proof. unfold verifiedBranch. agrees. Qed.

Lemma Agrees_verifyFaceBody faults now u id b :
  Agrees faults (verifyFaceBody faults now u id b) (verifyFaceBody no_faults now u id b).
Proof.
  unfold verifyFaceBody. agrees; apply Agrees_verifiedBranch.
Qed.

Lemma Agrees_resolvePerson faults now l :
  Agrees faults (resolvePerson faults now l) (resolvePerson no_faults now l).
Proof. unfold resolvePerson. agrees. Qed.

Lemma Agrees_completeCluster faults now u c :
  Agrees faults (completeCluster faults now u c) (completeCluster no_faults now u c).
Proof.
  unfold completeCluster. agrees; apply Agrees_resolvePerson.
Qed.

Lemma Agrees_completeLabelingBody faults now u job :
  Agrees faults (completeLabelingBody faults now u job)
                (completeLabelingBody no_faults now u job).
Proof.
  unfold completeLabelingBody. agrees.
  apply Agrees_forEach. intros c. apply Agrees_completeCluster.
Qed.

Lemma withTransaction_atomic (faults : nat -> bool) (errMsg : string)
    (bf b0 : Tx Response) (w : World) :
  Agrees faults bf b0 ->
  (store (snd (withTransaction errMsg bf w)) = store w
   \/ withTransaction errMsg bf w = withTransaction errMsg b0 w)
  /\ (forall n, n < writes (snd (b0 (session0 w))) -> faults n = true ->
        store (snd (withTransaction errMsg bf w)) = store w
        /\ res_status (fst (withTransaction errMsg bf w)) <> 200).
Proof.
  intros Hag. unfold withTransaction.
  fold (session0 w).
  destruct (Hag (session0 w)) as [[e [s' He]] | [Heq [_ Hfl]]].
  - rewrite He. cbn. split; [left; reflexivity |].
    intros n _ _. split; [reflexivity | discriminate].
  - rewrite Heq. split; [right; reflexivity |].
    intros n Hn Hf. cbn in Hfl. rewrite (Hfl n) in Hf; [discriminate | lia | exact Hn].
Qed.

(** C2.  Promotion is atomic.  Under every fault schedule, a call of the
    verification handler or of the completion handler leaves the database
    as it was or as the call without faults leaves it; and when any of the
    fallible steps the handler issues is made to fail (the write of the
    face after the person was created, for one), the database is as it was
    and the call does not report success. *)
Theorem promotion_is_atomic (faults : nat -> bool) (now : Date) (u : User.t)
    (id : ObjectId) (w : World) :
  (forall b : VerifyBody.t,
      (store (snd (verifyFace faults now u id b w)) = store w
       \/ verifyFace faults now u id b w = verifyFace no_faults now u id b w)
      /\ (forall n, n < verifySteps now u id b w -> faults n = true ->
            store (snd (verifyFace faults now u id b w)) = store w
            /\ res_status (fst (verifyFace faults now u id b w)) <> 200))
  /\ (store (snd (completeLabeling faults now u id w)) = store w
      \/ completeLabeling faults now u id w = completeLabeling no_faults now u id w)
  /\ (forall job n,
        findById ExtractedFace._id id (extractedFaces (store w)) = Some job ->
        n < completeSteps now u job w -> faults n = true ->
        store (snd (completeLabeling faults now u id w)) = store w
        /\ res_status (fst (completeLabeling faults now u id w)) <> 200).
Proof.
  split; [| split].
  - intros b. unfold verifyFace, verifySteps.
    destruct (negb (checkPermission_canVerifyFaces u)).
    + cbn. split; [left; reflexivity |].
      intros n _ _. split; [reflexivity | discriminate].
    + apply withTransaction_atomic, Agrees_verifyFaceBody.
  - unfold completeLabeling.
    destruct (findById ExtractedFace._id id (extractedFaces (store w))) as [job |];
      [| left; reflexivity].
    destruct (negb (canComplete u job)); [left; reflexivity |].
    destruct (@withTransaction_atomic faults "Error completing face labeling"
                _ _ w (Agrees_completeLabelingBody faults now u job)) as [H _].
    exact H.
  - intros job n Hjob. unfold completeLabeling, completeSteps. rewrite Hjob.
    destruct (negb (canComplete u job)).
    + intros _ _. cbn. split; [reflexivity | discriminate].
    + destruct (@withTransaction_atomic faults "Error completing face labeling"
                  _ _ w (Agrees_completeLabelingBody faults now u job)) as [_ H].
      apply H.
Qed.

Lemma promotion_is_atomic_witness :
  (store (snd (verifyFace faceWriteFails 7 reviewer 20 verifyNewVisitor world0))
   = store world0
   /\ res_status (fst (verifyFace faceWriteFails 7 reviewer 20 verifyNewVisitor world0))
      <> 200)
  /\ (store (snd (completeLabeling faceWriteFails 7 alice 10 world0)) = store world0
      /\ res_status (fst (completeLabeling faceWriteFails 7 alice 10 world0)) <> 200).
Proof.
  destruct (promotion_is_atomic faceWriteFails 7 reviewer 20 world0) as [Hv _].
  destruct (promotion_is_atomic faceWriteFails 7 alice 10 world0) as [_ [_ Hc]].
  split.
  - destruct (Hv verifyNewVisitor) as [_ H].
    apply (H 1); [vm_compute; lia | reflexivity].
  - apply (Hc job10 1); [reflexivity | vm_compute; lia | reflexivity].
Defined.

(** ** Verification without a label *)

Lemma truthy_false (s : option string) :
  truthy s = false -> s = None \/ s = Some "".
Proof.
  destruct s as [x |]; cbn; [| auto].
  destruct (String.eqb_spec x ""); [subst; auto | discriminate].
Qed.

Lemma verifyFaceBody_without_label (faults : nat -> bool) (now : Date)
    (u : User.t) (id : ObjectId) (b : VerifyBody.t) (s : Session) :
  VerifyBody.status b = Some "verified" ->
  truthy (VerifyBody.selectedLabel b) = false ->
  exists r s',
    verifyFaceBody faults now u id b s = (Respond r, s')
    /\ (forall face, findById Face._id id (faces (work s)) = Some face ->
          r = MissingLabel).
Proof.
  intros Hst Hlbl. unfold verifyFaceBody. rewrite Hst.
  change (parseStatus (Some "verified")) with (Some Verified). cbv iota.
  unfold bind at 1, query.
  destruct (findById Face._id id (faces (work s))) as [face |] eqn:Hface.
  - unfold bind at 1, verifiedBranch.
    destruct (truthy_false _ Hlbl) as [Hn | Hn]; rewrite Hn; cbn;
      eexists; eexists; (split; [reflexivity | intros; reflexivity]).
  - cbn. eexists; eexists. split; [reflexivity | discriminate].
Qed.

(** C4.  A verification with [status = verified] and no selected label
    writes nothing: the database, and with it the [verificationStatus] of
    the face, is as before.  When the caller passes the permission check
    and the face exists, the reply is [MissingLabel]. *)
Theorem verified_without_label (faults : nat -> bool) (now : Date) (u : User.t)
    (id : ObjectId) (b : VerifyBody.t) (w : World) :
  VerifyBody.status b = Some "verified" ->
  truthy (VerifyBody.selectedLabel b) = false ->
  store (snd (verifyFace faults now u id b w)) = store w
  /\ option_map Face.verificationStatus
       (findById Face._id id (faces (store (snd (verifyFace faults now u id b w)))))
     = option_map Face.verificationStatus (findById Face._id id (faces (store w)))
  /\ (forall face,
        checkPermission_canVerifyFaces u = true ->
        findById Face._id id (faces (store w)) = Some face ->
        fst (verifyFace faults now u id b w) = MissingLabel).
Proof.
  intros Hst Hlbl.
  assert (Hrun :
    store (snd (verifyFace faults now u id b w)) = store w
    /\ (forall face,
          checkPermission_canVerifyFaces u = true ->
          findById Face._id id (faces (store w)) = Some face ->
          fst (verifyFace faults now u id b w) = MissingLabel)).
  { unfold verifyFace.
    destruct (checkPermission_canVerifyFaces u) eqn:Hp; cbn [negb].
    2: { split; [reflexivity | discriminate]. }
    unfold withTransaction.
    destruct (verifyFaceBody_without_label faults now u id b
                {| work := store w; oid := nextOid w; writes := 0 |} Hst Hlbl)
      as [r [s' [Hbody Hr]]].
    rewrite Hbody. cbn. split; [reflexivity |].
    intros face _ Hface. exact (Hr face Hface). }
  destruct Hrun as [Hs Hr]. split; [exact Hs |]. split; [| exact Hr].
  rewrite Hs. reflexivity.
Qed.

Lemma verified_without_label_witness :
  store (snd (verifyFace no_faults 7 reviewer 20 verifyNoLabel world0)) = store world0
  /\ fst (verifyFace no_faults 7 reviewer 20 verifyNoLabel world0) = MissingLabel.
Proof.
  destruct (verified_without_label no_faults 7 reviewer 20 verifyNoLabel world0
              eq_refl eq_refl) as [Hs [_ Hr]].
  split; [exact Hs |].
  apply (Hr face20); reflexivity.
Defined.

(** ** Collections *)

Lemma findById_id (A : Type) (idOf : A -> ObjectId) (i : ObjectId)
    (coll : list A) (x : A) :
  findById idOf i coll = Some x -> idOf x = i.
Proof.
  unfold findById. intros H. apply find_some in H. destruct H as [_ H].
  apply Nat.eqb_eq. exact H.
Qed.

Lemma findById_In (A : Type) (idOf : A -> ObjectId) (i : ObjectId)
    (coll : list A) (x : A) :
  findById idOf i coll = Some x -> In x coll.
Proof.
  unfold findById. intros H. apply find_some in H. tauto.
Qed.

Lemma findById_replaceById (A : Type) (idOf : A -> ObjectId) (i k : ObjectId)
    (f : A -> A) (coll : list A) :
  (forall d, idOf d = i -> idOf (f d) = i) ->
  findById idOf k (replaceById idOf i f coll)
  = if Nat.eqb k i then option_map f (findById idOf i coll)
    else findById idOf k coll.
Proof.
  intros Hf. unfold findById, replaceById.
  destruct (Nat.eqb_spec k i) as [Hk | Hk].
  - subst k. induction coll as [| x t IH]; cbn; [reflexivity |].
    destruct (Nat.eqb_spec (idOf x) i) as [Hx | Hx].
    + rewrite (Hf x Hx), Nat.eqb_refl. reflexivity.
    + destruct (Nat.eqb_spec (idOf x) i); [contradiction | exact IH].
  - induction coll as [| x t IH]; cbn; [reflexivity |].
    destruct (Nat.eqb_spec (idOf x) i) as [Hx | Hx].
    + rewrite (Hf x Hx).
      destruct (Nat.eqb_spec i k); [congruence |].
      rewrite IH. rewrite Hx.
      destruct (Nat.eqb_spec i k); [congruence | reflexivity].
    + rewrite IH. reflexivity.
Qed.

Lemma In_replaceById (A : Type) (idOf : A -> ObjectId) (i : ObjectId)
    (f : A -> A) (coll : list A) (y : A) :
  In y (replaceById idOf i f coll) ->
  In y coll \/ exists x, In x coll /\ idOf x = i /\ y = f x.
Proof.
  unfold replaceById. intros H. apply in_map_iff in H.
  destruct H as [x [Hy Hx]].
  destruct (Nat.eqb_spec (idOf x) i).
  - right. exists x. auto.
  - left. subst y. exact Hx.
Qed.

Lemma find_updateAt (A : Type) (p : A -> bool) (g : A -> A) (l : list A) (i : nat) :
  (forall x, p (g x) = p x) ->
  findIndex p l = Some i ->
  find p (updateAt i g l) = option_map g (find p l).
Proof.
  intros Hg. revert i. induction l as [| x t IH]; intros i; cbn.
  - discriminate.
  - destruct (p x) eqn:Hp.
    + intros H. injection H as <-. cbn. rewrite Hg, Hp. reflexivity.
    + destruct (findIndex p t) as [j |]; cbn; [| discriminate].
      intros H. injection H as <-. cbn. rewrite Hp. apply IH. reflexivity.
Qed.

Lemma In_updateAt (A : Type) (g : A -> A) (l : list A) (i : nat) (y : A) :
  In y (updateAt i g l) -> In y l \/ exists x, In x l /\ y = g x.
Proof.
  revert i. induction l as [| x t IH]; intros i; cbn; [tauto |].
  destruct i as [| j]; cbn.
  - intros [H | H]; [right; exists x; auto | auto].
  - intros [H | H]; [auto |].
    destruct (IH j H) as [H' | [z [Hz Hy]]]; [auto |].
    right. exists z. auto.
Qed.

Lemma length_updateAt (A : Type) (g : A -> A) (l : list A) (i : nat) :
  List.length (updateAt i g l) = List.length l.
Proof.
  revert i. induction l as [| x t IH]; intros [| j]; cbn; auto.
Qed.

(** ** Who may propose a label for a face *)

(** C8, as the handler has it.  A proposer who is not the uploader, is
    neither admin nor manager, holds neither [canViewAllData] nor
    [canVerifyFaces], and proposes a label for an existing face, is
    answered [Forbidden], and no proposal is recorded. *)
Theorem propose_without_access (faults : nat -> bool) (now : Date) (u : User.t)
    (id : ObjectId) (l : string) (d : DB) (face : Face.t) :
  l <> "" ->
  findById Face._id id (faces d) = Some face ->
  uploadedByUser (Face.uploadedBy face) u = false ->
  User.role u <> RAdmin ->
  User.role u <> RManager ->
  Permissions.canViewAllData (User.permissions u) = false ->
  Permissions.canVerifyFaces (User.permissions u) = false ->
  proposeFaceLabel faults now u id (Some l) d = (ForbiddenToPropose, d).
Proof.
  intros Hl Hface Hup Ha Hm Hview Hver. unfold proposeFaceLabel.
  destruct (String.eqb_spec l ""); [contradiction |].
  rewrite Hface. unfold canUserAccessFace, isAdminOrManager.
  rewrite Hview, Hver, Hup.
  destruct (User.role u); try contradiction; reflexivity.
Qed.

Lemma propose_without_access_witness :
  proposeFaceLabel no_faults 7 bob 20 (Some "Bob") (store world0)
  = (ForbiddenToPropose, store world0).
Proof.
  apply (propose_without_access no_faults 7 bob 20 "Bob" (store world0) face20);
    try reflexivity; discriminate.
Defined.

(** The claim C8 fails for a proposer whose only grant is
    [canVerifyFaces]: the guard of the handler lets that proposer through. *)
Lemma propose_without_access_counterexample :
  uploadedByUser (Face.uploadedBy face20) reviewer = false
  /\ User.role reviewer = RUser
  /\ Permissions.canViewAllData (User.permissions reviewer) = false
  /\ res_status (fst (proposeFaceLabel no_faults 7 reviewer 20 (Some "Bob") (store world0)))
     = 200
  /\ faceProposals 20 (snd (proposeFaceLabel no_faults 7 reviewer 20 (Some "Bob") (store world0)))
     = Some [newProposal 1 "Alice" 0; newProposal 2 "Bob" 7].
Proof. repeat split. Qed.

(** ** Privileged proposals *)

Lemma labelClusterAt_clusterId (u : User.t) (l : string) (now : Date)
    (cid : string) (c : Cluster.t) :
  hasClusterId cid (labelClusterAt u l now c) = hasClusterId cid c.
Proof.
  unfold labelClusterAt, hasClusterId. destruct (selectsOnProposal u); reflexivity.
Qed.

Lemma privileged_selects (u : User.t) : privileged u -> selectsOnProposal u = true.
Proof.
  unfold privileged, selectsOnProposal.
  intros [H | [H | H]]; rewrite H; cbn; auto using orb_true_r.
Qed.

(** What a successful call of the cluster-label handler leaves behind
    for the cluster it addressed. *)
Lemma labelCluster_success (faults : nat -> bool) (now : Date) (u : User.t)
    (id : ObjectId) (cid : string) (label : option string) (d : DB) :
  succeeded (fst (labelCluster faults now u id cid label d)) ->
  exists l c,
    label = Some l /\ l <> ""
    /\ findCluster id cid d = Some c
    /\ findCluster id cid (snd (labelCluster faults now u id cid label d))
       = Some (labelClusterAt u l now c).
Proof.
  unfold labelCluster, succeeded, findCluster.
  destruct label as [l |]; [| discriminate].
  destruct (String.eqb_spec l ""); [discriminate |].
  destruct (findById ExtractedFace._id id (extractedFaces d)) as [job |] eqn:Hjob;
    [| discriminate].
  destruct (cannotAccessExtraction u job); [discriminate |].
  fold (hasClusterId cid).
  destruct (findIndex (hasClusterId cid) (ExtractedFace.clusters job)) as [ci |] eqn:Hci;
    [| discriminate].
  destruct (faults 0); [discriminate |].
  intros _. cbn [fst snd extractedFaces set_extractedFaces].
  rewrite findById_replaceById.
  2: { intros _ _. cbn. eapply findById_id. exact Hjob. }
  rewrite Nat.eqb_refl, Hjob. cbn [option_map ExtractedFace.clusters ExtractedFace.set_clusters ExtractedFace.set_updatedAt].
  rewrite (find_updateAt _ _ _ _ _ (labelClusterAt_clusterId u l now cid) Hci).
  destruct (find (hasClusterId cid) (ExtractedFace.clusters job)) as [c |] eqn:Hc.
  - exists l, c. auto.
  - exfalso. clear - Hci Hc.
    induction (ExtractedFace.clusters job) as [| x t IH] in ci, Hci, Hc |- *;
      cbn in *; [discriminate |].
    destruct (hasClusterId cid x); [discriminate |].
    destruct (findIndex (hasClusterId cid) t); [eapply IH; eauto | discriminate].
Qed.

(** C3, as the handlers have it.  A successful proposal on a cluster by
    a holder of [canVerifyFaces], an admin or a manager sets the selected
    label of the cluster to the proposed label in the same write.  A
    proposal on a face, by anyone, leaves the selected label of every
    face as it was. *)
Theorem privileged_proposal_selects :
  (forall faults now u id cid l d,
      privileged u ->
      succeeded (fst (labelCluster faults now u id cid (Some l) d)) ->
      clusterSelectedLabel id cid (snd (labelCluster faults now u id cid (Some l) d))
      = Some (Some l))
  /\ (forall faults now u id label d k,
        faceSelectedLabel k (snd (proposeFaceLabel faults now u id label d))
        = faceSelectedLabel k d).
Proof.
  split.
  - intros faults now u id cid l d Hpriv Hok.
    destruct (labelCluster_success faults now u id cid (Some l) d Hok)
      as [l' [c [Hl [_ [_ Hc]]]]].
    injection Hl as <-.
    unfold clusterSelectedLabel. rewrite Hc. cbn.
    unfold labelClusterAt. rewrite (privileged_selects u Hpriv). reflexivity.
  - intros faults now u id label d k. unfold proposeFaceLabel, faceSelectedLabel.
    destruct label as [l |]; [| reflexivity].
    destruct (String.eqb l ""); [reflexivity |].
    destruct (findById Face._id id (faces d)) as [face |] eqn:Hface; [| reflexivity].
    destruct (_ && _); [reflexivity |].
    destruct (faults 0); [reflexivity |]. cbn [fst snd faces set_faces].
    rewrite findById_replaceById.
    2: { intros _ _. cbn. eapply findById_id. exact Hface. }
    destruct (Nat.eqb_spec k id) as [-> | _]; [| reflexivity].
    rewrite Hface. reflexivity.
Qed.

Lemma privileged_proposal_selects_witness :
  clusterSelectedLabel 10 "0" (snd (labelCluster no_faults 7 root 10 "0" (Some "Bob") (store world0)))
  = Some (Some "Bob").
Proof.
  destruct privileged_proposal_selects as [H _].
  apply H; [right; left; reflexivity | reflexivity].
Defined.

(** The claim C3 fails on the face path: an administrator proposes "Bob"
    for a face, the proposal is recorded, and the selected label of the
    face stays absent. *)
Lemma privileged_proposal_selects_counterexample :
  User.role root = RAdmin
  /\ succeeded (fst (proposeFaceLabel no_faults 7 root 20 (Some "Bob") (store world0)))
  /\ faceProposals 20 (snd (proposeFaceLabel no_faults 7 root 20 (Some "Bob") (store world0)))
     = Some [newProposal 1 "Alice" 0; newProposal 3 "Bob" 7]
  /\ faceSelectedLabel 20 (snd (proposeFaceLabel no_faults 7 root 20 (Some "Bob") (store world0)))
     <> Some (Some "Bob").
Proof. repeat split. discriminate. Qed.

(** ** What the transactional handlers do to the collections *)

(** Runs a handler body symbolically: every decision is split. *)
Ltac tx_unfold :=
  unfold insertNamed in *;
  unfold bind, ret, query, write, newObjectId, commitTransaction, respond,
    raise in *;
  cbn [fst snd work oid writes store nextOid] in *.

Ltac split_innermost x :=
  match x with
  | context [match ?y with _ => _ end] => split_innermost y
  | context [if ?y then _ else _] => split_innermost y
  | _ => destruct x eqn:?
  end.

Ltac tx_split :=
  repeat (match goal with
          | H : (_, _) = (_, _) |- _ => injection H as ?; subst
          | H : Value _ = Value _ |- _ => injection H as ?; subst
          | H : context [match ?x with _ => _ end] |- _ => split_innermost x
          | H : context [if ?x then _ else _] |- _ => split_innermost x
          | |- context [match ?x with _ => _ end] => split_innermost x
          | |- context [if ?x then _ else _] => split_innermost x
          end; cbn [fst snd work oid writes store nextOid] in *;
          try discriminate).

Lemma verifyFace_effect (faults : nat -> bool) (now : Date) (u : User.t)
    (id : ObjectId) (b : VerifyBody.t) (w : World) :
  extractedFaces (store (snd (verifyFace faults now u id b w)))
  = extractedFaces (store w)
  /\ nextOid w <= nextOid (snd (verifyFace faults now u id b w))
  /\ (faces (store (snd (verifyFace faults now u id b w))) = faces (store w)
      \/ exists face face2,
           findById Face._id id (faces (store w)) = Some face
           /\ Face.proposedLabels face2 = Face.proposedLabels face
           /\ faces (store (snd (verifyFace faults now u id b w)))
              = replaceById Face._id id (fun _ => face2) (faces (store w))).
Proof.
  unfold verifyFace, withTransaction, verifyFaceBody, verifiedBranch.
  tx_unfold. tx_split;
    try (split; [reflexivity | split; [lia | left; reflexivity]]).
  all: cbn [extractedFaces faces set_faces set_employees set_visitors].
  all: split; [reflexivity | split; [lia |]].
  all: right; eexists; eexists; split; [reflexivity | split; [| reflexivity]];
    reflexivity.
Qed.

Lemma forEach_invariant (A : Type) (f : A -> Tx unit) (I : Session -> Prop)
    (l : list A) :
  (forall x s s' a, In x l -> I s -> f x s = (Value a, s') -> I s') ->
  forall s s' a, I s -> forEach f l s = (Value a, s') -> I s'.
Proof.
  induction l as [| x t IH]; intros Hf s s' a Hs; cbn.
  - unfold ret. intros H. injection H as _ <-. exact Hs.
  - unfold bind. destruct (f x s) as [[b | r | e] s1] eqn:Hx; try discriminate.
    intros H. apply (IH (fun y s2 s3 a2 Hy => Hf y s2 s3 a2 (or_intror Hy)) s1 s' a);
      [| exact H].
    apply (Hf x s s1 b); [left; reflexivity | exact Hs | exact Hx].
Qed.

Lemma completeCluster_loopInv (faults : nat -> bool) (now : Date) (u : User.t)
    (d0 : DB) (o0 : ObjectId) (c : Cluster.t) (s s' : Session) (a : unit) :
  loopInv d0 o0 s ->
  completeCluster faults now u c s = (Value a, s') ->
  loopInv d0 o0 s'.
Proof.
  unfold loopInv. intros [Hjobs [Hoid [added [Hfaces Hadded]]]].
  unfold completeCluster, resolvePerson. tx_unfold. intros H.
  tx_split; cbn [extractedFaces faces set_faces set_visitors];
    try (split; [assumption | split; [lia | exists added; split; assumption]]).
  all: split; [assumption | split; [lia |]].
  all: eexists; rewrite Hfaces, <- app_assoc; split; [reflexivity |].
  all: apply Forall_app; split; [assumption |].
  all: constructor; [eexists; reflexivity | constructor].
Qed.

Lemma OidMono_bind (A B : Type) (m : Tx A) (k : A -> Tx B) :
  OidMono m -> (forall a, OidMono (k a)) -> OidMono (bind m k).
Proof.
  intros Hm Hk s. unfold bind. specialize (Hm s).
  destruct (m s) as [[a | r | e] s1]; cbn in *; [| exact Hm | exact Hm].
  specialize (Hk a s1). lia.
Qed.

Lemma OidMono_forEach (A : Type) (f : A -> Tx unit) (l : list A) :
  (forall x, OidMono (f x)) -> OidMono (forEach f l).
Proof.
  intros Hf. induction l as [| x t IH]; cbn.
  - intros s. cbn. lia.
  - apply OidMono_bind; auto.
Qed.

Lemma OidMono_completeCluster (faults : nat -> bool) (now : Date) (u : User.t)
    (c : Cluster.t) :
  OidMono (completeCluster faults now u c).
Proof.
  intros s. unfold completeCluster, resolvePerson. tx_unfold.
  tx_split; lia.
Qed.

Lemma OidMono_completeLabelingBody (faults : nat -> bool) (now : Date)
    (u : User.t) (job : ExtractedFace.t) :
  OidMono (completeLabelingBody faults now u job).
Proof.
  unfold completeLabelingBody.
  apply OidMono_bind.
  - apply OidMono_forEach. intros c. apply OidMono_completeCluster.
  - intros _ s. tx_unfold. tx_split; lia.
Qed.

Lemma withTransaction_oid (errMsg : string) (body : Tx Response) (w : World) :
  OidMono body -> nextOid w <= nextOid (snd (withTransaction errMsg body w)).
Proof.
  intros H. unfold withTransaction.
  specialize (H {| work := store w; oid := nextOid w; writes := 0 |}).
  destruct (body _) as [[a | r | e] s1]; exact H.
Qed.

Lemma completeLabeling_effect (faults : nat -> bool) (now : Date) (u : User.t)
    (id : ObjectId) (w : World) :
  nextOid w <= nextOid (snd (completeLabeling faults now u id w))
  /\ (store (snd (completeLabeling faults now u id w)) = store w
      \/ exists job added,
           findById ExtractedFace._id id (extractedFaces (store w)) = Some job
           /\ extractedFaces (store (snd (completeLabeling faults now u id w)))
              = replaceById ExtractedFace._id id (fun _ => labeled now job)
                  (extractedFaces (store w))
           /\ faces (store (snd (completeLabeling faults now u id w)))
              = faces (store w) ++ added
           /\ Forall singleProposal added).
Proof.
  unfold completeLabeling.
  destruct (findById ExtractedFace._id id (extractedFaces (store w)))
    as [job |] eqn:Hjob; [| cbn; auto].
  destruct (negb (canComplete u job)); [cbn; auto |].
  split; [apply withTransaction_oid, OidMono_completeLabelingBody |].
  unfold withTransaction, completeLabelingBody.
  unfold bind at 1.
  destruct (forEach (completeCluster faults now u) (ExtractedFace.clusters job)
              {| work := store w; oid := nextOid w; writes := 0 |})
    as [[a | r | e] s1] eqn:Hloop; [| left; reflexivity | left; reflexivity].
  assert (Hinv : loopInv (store w) (nextOid w) s1).
  { eapply forEach_invariant; [| | exact Hloop].
    - intros c s s' b _. apply completeCluster_loopInv.
    - unfold loopInv. cbn. split; [reflexivity | split; [lia |]].
      exists []. rewrite app_nil_r. split; [reflexivity | constructor]. }
  destruct Hinv as [Hjobs [Hoid [added [Hfaces Hadded]]]].
  tx_unfold. tx_split; try (left; reflexivity).
  right. exists job, added.
  unfold updateJob. cbn [extractedFaces faces set_extractedFaces].
  rewrite Hjobs, (findById_id _ _ _ _ _ Hjob). auto.
Qed.

(** ** One slot per proposer *)

Lemma findIndex_None_find (A : Type) (p : A -> bool) (l : list A) :
  findIndex p l = None -> find p l = None.
Proof.
  induction l as [| x t IH]; cbn; [reflexivity |].
  destruct (p x); [discriminate |].
  destruct (findIndex p t); [discriminate | auto].
Qed.

Lemma findIndex_Some_find (A : Type) (p : A -> bool) (f : A -> A) (l : list A)
    (i : nat) :
  findIndex p l = Some i ->
  (exists x, find p l = Some x) /\ mutateFound p f l = updateAt i f l.
Proof.
  revert i. induction l as [| x t IH]; intros i; cbn; [discriminate |].
  destruct (p x).
  - intros H. injection H as <-. split; [eauto | reflexivity].
  - destruct (findIndex p t) as [j |]; cbn; [| discriminate].
    intros H. injection H as <-.
    destruct (IH j eq_refl) as [Hx Hm]. split; [exact Hx |]. rewrite Hm. reflexivity.
Qed.

(** The two handlers update the proposals in the same way. *)
Lemma upsert_paths_agree (uid : ObjectId) (l : string) (now : Date)
    (ps : list Proposal.t) :
  upsertClusterProposal uid l now ps = upsertFaceProposal uid l now ps.
Proof.
  unfold upsertClusterProposal, upsertFaceProposal.
  destruct (findIndex (Proposal.by_user uid) ps) as [i |] eqn:Hi.
  - destruct (findIndex_Some_find _ (Proposal.by_user uid)
                (Proposal.relabel l now) ps i Hi) as [[x Hx] Hm].
    rewrite Hx, Hm. reflexivity.
  - rewrite (findIndex_None_find _ _ _ Hi). reflexivity.
Qed.

Lemma updateAt_relabel_proposers (l : string) (now : Date) (ps : list Proposal.t)
    (i : nat) :
  map Proposal.proposedBy (updateAt i (Proposal.relabel l now) ps)
  = map Proposal.proposedBy ps.
Proof.
  revert i. induction ps as [| p t IH]; intros [| j]; cbn; try reflexivity.
  rewrite IH. reflexivity.
Qed.

Lemma findIndex_None_notIn (uid : ObjectId) (ps : list Proposal.t) :
  findIndex (Proposal.by_user uid) ps = None ->
  ~ In uid (map Proposal.proposedBy ps).
Proof.
  induction ps as [| p t IH]; cbn; [tauto |].
  unfold Proposal.by_user at 1.
  destruct (Nat.eqb_spec (Proposal.proposedBy p) uid); [discriminate |].
  destruct (findIndex (Proposal.by_user uid) t); [discriminate |].
  intros _ [H | H]; [contradiction | exact (IH eq_refl H)].
Qed.

Lemma upsertClusterProposal_oneSlot (uid : ObjectId) (l : string) (now : Date)
    (ps : list Proposal.t) :
  oneSlotPerProposer ps -> oneSlotPerProposer (upsertClusterProposal uid l now ps).
Proof.
  unfold oneSlotPerProposer, upsertClusterProposal. intros Hnd.
  destruct (findIndex (Proposal.by_user uid) ps) as [i |] eqn:Hi.
  - rewrite updateAt_relabel_proposers. exact Hnd.
  - rewrite map_app. cbn.
    apply NoDup_app; [exact Hnd | repeat constructor; cbn; tauto |].
    intros x Hx [<- | []]. exact (findIndex_None_notIn _ _ Hi Hx).
Qed.

Lemma upsertFaceProposal_oneSlot (uid : ObjectId) (l : string) (now : Date)
    (ps : list Proposal.t) :
  oneSlotPerProposer ps -> oneSlotPerProposer (upsertFaceProposal uid l now ps).
Proof.
  rewrite <- upsert_paths_agree. apply upsertClusterProposal_oneSlot.
Qed.

Lemma slotsInv_updateJob (id : ObjectId) (f : ExtractedFace.t -> ExtractedFace.t)
    (d : DB) :
  (forall j, In j (extractedFaces d) ->
     forall c, In c (ExtractedFace.clusters (f j)) ->
       oneSlotPerProposer (Cluster.proposedLabels c)) ->
  slotsInv d -> slotsInv (updateJob id f d).
Proof.
  intros Hf [Hfaces Hjobs]. split; [exact Hfaces |].
  intros j c Hj Hc. unfold updateJob in Hj. cbn in Hj.
  destruct (In_replaceById _ _ _ _ _ _ Hj) as [Hold | [j0 [Hj0 [_ ->]]]].
  - exact (Hjobs j c Hold Hc).
  - exact (Hf j0 Hj0 c Hc).
Qed.

Lemma buildCluster_oneSlot (fileId : string) (entries : list (string * list Buffer))
    (c : Cluster.t) :
  In c (map (buildCluster fileId) entries) ->
  oneSlotPerProposer (Cluster.proposedLabels c).
Proof.
  intros H. apply in_map_iff in H. destruct H as [[cid fs] [<- _]].
  cbn. constructor.
Qed.

Lemma slotsInv_extractContinuation (faults : nat -> bool) (now : Date)
    (doc : ExtractedFace.t) (outcome : BridgeOutcome) (d : DB) :
  slotsInv d -> slotsInv (extractContinuation faults now doc outcome d).
Proof.
  intros Hinv. pose proof Hinv as [_ Hjobs].
  unfold extractContinuation, orCatch.
  destruct outcome as [r | e].
  - destruct (negb (ProviderResult.success r));
      [| destruct (negb (ProviderResult.is_valid r)
                   || Nat.eqb (ProviderResult.face_count r) 0)];
      destruct (faults 0); try destruct (faults 1); try exact Hinv;
      apply slotsInv_updateJob; try exact Hinv;
      intros j Hj c Hc; cbn in Hc;
      solve [ exact (Hjobs j c Hj Hc) | exact (buildCluster_oneSlot _ _ _ Hc) ].
  - destruct (faults 0); [exact Hinv |].
    apply slotsInv_updateJob; [| exact Hinv].
    intros j Hj c Hc. exact (Hjobs j c Hj Hc).
Qed.

Lemma slotsInv_labelCluster (faults : nat -> bool) (now : Date) (u : User.t)
    (id : ObjectId) (cid : string) (label : option string) (d : DB) :
  slotsInv d -> slotsInv (snd (labelCluster faults now u id cid label d)).
Proof.
  intros Hinv. pose proof Hinv as [Hfaces Hjobs]. unfold labelCluster.
  destruct label as [l |]; [| exact Hinv].
  destruct (String.eqb l ""); [exact Hinv |].
  destruct (findById ExtractedFace._id id (extractedFaces d)) as [job |] eqn:Hjob;
    [| exact Hinv].
  destruct (cannotAccessExtraction u job); [exact Hinv |].
  destruct (findIndex _ (ExtractedFace.clusters job)) as [ci |]; [| exact Hinv].
  destruct (faults 0); [exact Hinv |].
  cbn [snd]. split; [exact Hfaces |].
  intros j c Hj Hc. cbn in Hj.
  destruct (In_replaceById _ _ _ _ _ _ Hj) as [Hold | [j0 [_ [_ ->]]]].
  - exact (Hjobs j c Hold Hc).
  - cbn in Hc.
    pose proof (findById_In _ _ _ _ _ Hjob) as Hin.
    destruct (In_updateAt _ _ _ _ _ Hc) as [Hc0 | [c0 [Hc0 ->]]].
    + exact (Hjobs job c Hin Hc0).
    + unfold labelClusterAt.
      destruct (selectsOnProposal u); cbn;
        apply upsertClusterProposal_oneSlot; exact (Hjobs job c0 Hin Hc0).
Qed.

Lemma slotsInv_proposeFaceLabel (faults : nat -> bool) (now : Date) (u : User.t)
    (id : ObjectId) (label : option string) (d : DB) :
  slotsInv d -> slotsInv (snd (proposeFaceLabel faults now u id label d)).
Proof.
  intros Hinv. pose proof Hinv as [Hfaces Hjobs]. unfold proposeFaceLabel.
  destruct label as [l |]; [| exact Hinv].
  destruct (String.eqb l ""); [exact Hinv |].
  destruct (findById Face._id id (faces d)) as [face |] eqn:Hface; [| exact Hinv].
  destruct (_ && _); [exact Hinv |].
  destruct (faults 0); [exact Hinv |].
  cbn [snd]. split; [| exact Hjobs].
  intros f Hf. cbn in Hf.
  destruct (In_replaceById _ _ _ _ _ _ Hf) as [Hold | [f0 [_ [_ ->]]]].
  - exact (Hfaces f Hold).
  - cbn. apply upsertFaceProposal_oneSlot.
    exact (Hfaces face (findById_In _ _ _ _ _ Hface)).
Qed.

Lemma register_effect (ep : string -> bool) (h : string -> string)
    (faults : nat -> bool) (b : RegisterBody.t) (w : World) :
  faces (store (snd (register ep h faults b w))) = faces (store w)
  /\ extractedFaces (store (snd (register ep h faults b w)))
     = extractedFaces (store w)
  /\ nextOid w <= nextOid (snd (register ep h faults b w)).
Proof.
  unfold register.
  destruct (findUserByEmail _ _); [cbn; auto |].
  destruct (validateUser _ _ _); [| cbn; auto].
  destruct (faults 0); cbn; auto.
Qed.

Lemma slotsInv_same (d d' : DB) :
  faces d' = faces d -> extractedFaces d' = extractedFaces d ->
  slotsInv d -> slotsInv d'.
Proof. unfold slotsInv. intros -> ->. tauto. Qed.

Lemma slotsInv_step (op : Op) (s : System) :
  slotsInv (store (world s)) -> slotsInv (store (world (step op s))).
Proof.
  intros Hinv. pose proof Hinv as [Hfaces Hjobs].
  destruct op as [ep h faults b | faults now u id label | faults now u id b
                  | faults now u file ft sid | faults now id outcome
                  | faults now u id cid label | faults now u id]; cbn [step].
  - destruct (register_effect ep h faults b (world s)) as [Hf [Hj _]].
    cbn. exact (slotsInv_same _ _ Hf Hj Hinv).
  - cbn. apply slotsInv_proposeFaceLabel. exact Hinv.
  - cbn. destruct (verifyFace_effect faults now u id b (world s))
      as [Hj [_ [Hf | [face [face2 [Hface [Hps Hf]]]]]]].
    + exact (slotsInv_same _ _ Hf Hj Hinv).
    + split.
      * intros f Hin. rewrite Hf in Hin.
        destruct (In_replaceById _ _ _ _ _ _ Hin) as [Hold | [f0 [_ [_ ->]]]].
        -- exact (Hfaces f Hold).
        -- rewrite Hps. exact (Hfaces face (findById_In _ _ _ _ _ Hface)).
      * rewrite Hj. exact Hjobs.
  - unfold extractFaces. destruct file as [f |]; [| exact Hinv].
    destruct (faults 0); cbn; [exact Hinv |].
    split; [exact Hfaces |].
    intros j c Hj Hc. apply in_app_or in Hj. destruct Hj as [Hj | [<- | []]].
    + exact (Hjobs j c Hj Hc).
    + destruct Hc.
  - destruct (find (isJob id) (pending s)) as [doc |]; [| exact Hinv].
    cbn. apply slotsInv_extractContinuation. exact Hinv.
  - cbn. apply slotsInv_labelCluster. exact Hinv.
  - cbn. destruct (completeLabeling_effect faults now u id (world s))
      as [_ [Hsame | [job [added [Hjob [Hj [Hf Hadded]]]]]]].
    + rewrite Hsame. exact Hinv.
    + split.
      * intros f Hin. rewrite Hf in Hin. apply in_app_or in Hin.
        destruct Hin as [Hold | Hnew]; [exact (Hfaces f Hold) |].
        rewrite Forall_forall in Hadded. destruct (Hadded f Hnew) as [p Hp].
        unfold oneSlotPerProposer. rewrite Hp. cbn.
        constructor; [cbn; tauto | constructor].
      * intros j c Hin Hc. rewrite Hj in Hin.
        destruct (In_replaceById _ _ _ _ _ _ Hin) as [Hold | [j0 [_ [_ ->]]]].
        -- exact (Hjobs j c Hold Hc).
        -- exact (Hjobs job c (findById_In _ _ _ _ _ Hjob) Hc).
Qed.

Lemma slotsInv_run (ops : list Op) (s : System) :
  slotsInv (store (world s)) -> slotsInv (store (world (run ops s))).
Proof.
  unfold run. revert s. induction ops as [| op t IH]; intros s Hinv; cbn.
  - exact Hinv.
  - apply IH, slotsInv_step, Hinv.
Qed.

Lemma proposeFaceLabel_success (faults : nat -> bool) (now : Date) (u : User.t)
    (id : ObjectId) (label : option string) (d : DB) :
  succeeded (fst (proposeFaceLabel faults now u id label d)) ->
  exists l ps,
    label = Some l /\ l <> ""
    /\ faceProposals id d = Some ps
    /\ faceProposals id (snd (proposeFaceLabel faults now u id label d))
       = Some (upsertFaceProposal (User._id u) l now ps).
Proof.
  unfold proposeFaceLabel, succeeded, faceProposals.
  destruct label as [l |]; [| discriminate].
  destruct (String.eqb_spec l ""); [discriminate |].
  destruct (findById Face._id id (faces d)) as [face |] eqn:Hface; [| discriminate].
  destruct (_ && _); [discriminate |].
  destruct (faults 0); [discriminate |].
  intros _. cbn [fst snd faces set_faces].
  rewrite findById_replaceById.
  2: { intros _ _. cbn. eapply findById_id. exact Hface. }
  rewrite Nat.eqb_refl, Hface. cbn.
  exists l, (Face.proposedLabels face). auto.
Qed.

(** C5.  Every face and every cluster keeps at most one proposal per
    proposer through any sequence of operations of the system, the label
    proposals among them; and a proposal by a user who already holds an
    entry rewrites that entry where it stands (same index, same proposer,
    new label and time) and leaves the number of entries as it was. *)
Theorem one_slot_per_proposer :
  (forall ops s,
      slotsInv (store (world s)) -> slotsInv (store (world (run ops s))))
  /\ (forall faults now u id l d ps i,
        faceProposals id d = Some ps ->
        findIndex (Proposal.by_user (User._id u)) ps = Some i ->
        succeeded (fst (proposeFaceLabel faults now u id (Some l) d)) ->
        faceProposals id (snd (proposeFaceLabel faults now u id (Some l) d))
        = Some (updateAt i (Proposal.relabel l now) ps)
        /\ List.length (updateAt i (Proposal.relabel l now) ps) = List.length ps)
  /\ (forall faults now u id cid l d ps i,
        clusterProposals id cid d = Some ps ->
        findIndex (Proposal.by_user (User._id u)) ps = Some i ->
        succeeded (fst (labelCluster faults now u id cid (Some l) d)) ->
        clusterProposals id cid (snd (labelCluster faults now u id cid (Some l) d))
        = Some (updateAt i (Proposal.relabel l now) ps)
        /\ List.length (updateAt i (Proposal.relabel l now) ps) = List.length ps).
Proof.
  split; [exact slotsInv_run |]. split.
  - intros faults now u id l d ps i Hps Hi Hok.
    split; [| apply length_updateAt].
    destruct (proposeFaceLabel_success faults now u id (Some l) d Hok)
      as [l' [ps' [Hl [_ [Hps' Hafter]]]]].
    injection Hl as <-. rewrite Hps in Hps'. injection Hps' as <-.
    rewrite Hafter, <- upsert_paths_agree.
    unfold upsertClusterProposal. rewrite Hi. reflexivity.
  - intros faults now u id cid l d ps i Hps Hi Hok.
    split; [| apply length_updateAt].
    destruct (labelCluster_success faults now u id cid (Some l) d Hok)
      as [l' [c [Hl [_ [Hc Hafter]]]]].
    injection Hl as <-.
    unfold clusterProposals in *. rewrite Hc in Hps. cbn in Hps.
    injection Hps as <-. rewrite Hafter. cbn.
    unfold labelClusterAt, upsertClusterProposal. rewrite Hi.
    destruct (selectsOnProposal u); reflexivity.
Qed.

Lemma one_slot_per_proposer_witness :
  slotsInv (store (world (run proposals0 system0)))
  /\ faceProposals 20
       (snd (proposeFaceLabel no_faults 7 alice 20 (Some "Alicia") (store world0)))
     = Some [newProposal 1 "Alicia" 7]
  /\ clusterProposals 10 "0"
       (snd (labelCluster no_faults 9 alice 10 "0" (Some "Alicia") (store world0)))
     = Some [newProposal 1 "Alicia" 9].
Proof.
  destruct one_slot_per_proposer as [Hrun [Hface Hcluster]].
  split; [| split].
  - apply Hrun. split.
    + intros f [<- | []]. repeat constructor. cbn. tauto.
    + intros j c [<- | []] [<- | []]. repeat constructor. cbn. tauto.
  - apply (Hface no_faults 7 alice 20 "Alicia" (store world0)
             [newProposal 1 "Alice" 0] 0); reflexivity.
  - apply (Hcluster no_faults 9 alice 10 "0" "Alicia" (store world0)
             [newProposal 1 "Alice" 3] 0); reflexivity.
Defined.

(** ** The life of an extraction job *)

Lemma statusStep_refl (a : JobStatus) : statusStep a a.
Proof. left. reflexivity. Qed.

Lemma Forall2_refl (A : Type) (R : A -> A -> Prop) (l : list A) :
  (forall x, In x l -> R x x) -> Forall2 R l l.
Proof.
  induction l as [| x t IH]; intros H; constructor.
  - apply H. left. reflexivity.
  - apply IH. intros y Hy. apply H. right. exact Hy.
Qed.

Lemma sameButLabeling_refl (j : ExtractedFace.t) : sameButLabeling j j.
Proof.
  unfold sameButLabeling. repeat split.
  apply Forall2_refl. intros c _. unfold sameButLabels. auto.
Qed.

Lemma allowedChange_refl (j : ExtractedFace.t) : allowedChange j j.
Proof.
  split; [reflexivity |]. split; [apply statusStep_refl |].
  intros _. apply sameButLabeling_refl.
Qed.

Lemma jobsEvolve_refl (l : list ExtractedFace.t) : jobsEvolve l l.
Proof.
  exists l, []. rewrite app_nil_r. split; [reflexivity |].
  split; [| constructor].
  apply Forall2_refl. intros j _. apply allowedChange_refl.
Qed.

Lemma Forall2_replaceById (A : Type) (idOf : A -> ObjectId) (R : A -> A -> Prop)
    (i : ObjectId) (f : A -> A) (l : list A) :
  (forall x, In x l -> R x x) ->
  (forall x, In x l -> idOf x = i -> R x (f x)) ->
  Forall2 R l (replaceById idOf i f l).
Proof.
  unfold replaceById. induction l as [| x t IH]; intros Hr Hf; cbn; constructor.
  - destruct (Nat.eqb_spec (idOf x) i).
    + apply Hf; [left; reflexivity | assumption].
    + apply Hr. left. reflexivity.
  - apply IH.
    + intros y Hy. apply Hr. right. exact Hy.
    + intros y Hy. apply Hf. right. exact Hy.
Qed.

Lemma map_id_replaceById (A : Type) (idOf : A -> ObjectId) (i : ObjectId)
    (f : A -> A) (l : list A) :
  (forall x, idOf x = i -> idOf (f x) = i) ->
  map idOf (replaceById idOf i f l) = map idOf l.
Proof.
  intros Hf. unfold replaceById. induction l as [| x t IH]; cbn; [reflexivity |].
  rewrite IH. destruct (Nat.eqb_spec (idOf x) i) as [E | _]; [| reflexivity].
  rewrite (Hf x E), E. reflexivity.
Qed.

Lemma findById_unique (A : Type) (idOf : A -> ObjectId) (i : ObjectId)
    (l : list A) (x y : A) :
  NoDup (map idOf l) -> findById idOf i l = Some x ->
  In y l -> idOf y = i -> y = x.
Proof.
  unfold findById. intros Hnd Hfind Hy Hid. subst i.
  induction l as [| z t IH]; cbn in *; [discriminate |].
  inversion Hnd as [| ? ? Hnotin Hnd']; subst.
  destruct (Nat.eqb_spec (idOf z) (idOf y)) as [E | E].
  - injection Hfind as <-. destruct Hy as [-> | Hy]; [reflexivity |].
    exfalso. apply Hnotin. rewrite E. apply in_map. exact Hy.
  - destruct Hy as [-> | Hy]; [contradiction |].
    apply IH; assumption.
Qed.

(** A write that replaces the job [id] by [job'], a document with the
    same id as the stored one. *)
Lemma jobsEvolve_replace (id : ObjectId) (job job' : ExtractedFace.t)
    (l : list ExtractedFace.t) :
  NoDup (map ExtractedFace._id l) ->
  findById ExtractedFace._id id l = Some job ->
  allowedChange job job' ->
  jobsEvolve l (replaceById ExtractedFace._id id (fun _ => job') l).
Proof.
  intros Hnd Hjob Hch.
  exists (replaceById ExtractedFace._id id (fun _ => job') l), [].
  rewrite app_nil_r. split; [reflexivity |]. split; [| constructor].
  apply Forall2_replaceById.
  - intros j _. apply allowedChange_refl.
  - intros j Hj Hid.
    rewrite (findById_unique _ _ _ _ _ _ Hnd Hjob Hj Hid). exact Hch.
Qed.

Lemma sameButLabels_labelClusterAt (u : User.t) (l : string) (now : Date)
    (cs : list Cluster.t) (ci : nat) :
  Forall2 sameButLabels cs (updateAt ci (labelClusterAt u l now) cs).
Proof.
  revert ci. induction cs as [| c t IH]; intros ci; cbn; [constructor |].
  destruct ci as [| k]; constructor.
  - unfold sameButLabels, labelClusterAt.
    destruct (selectsOnProposal u); cbn; auto.
  - apply Forall2_refl. intros x _. unfold sameButLabels. auto.
  - unfold sameButLabels. auto.
  - apply IH.
Qed.

(** What the cluster-label handler does to the collection of jobs. *)
Lemma labelCluster_effect (faults : nat -> bool) (now : Date) (u : User.t)
    (id : ObjectId) (cid : string) (label : option string) (d : DB) :
  extractedFaces (snd (labelCluster faults now u id cid label d)) = extractedFaces d
  \/ exists job job',
       findById ExtractedFace._id id (extractedFaces d) = Some job
       /\ allowedChange job job'
       /\ ExtractedFace.status job' = ExtractedFace.status job
       /\ extractedFaces (snd (labelCluster faults now u id cid label d))
          = replaceById ExtractedFace._id id (fun _ => job') (extractedFaces d).
Proof.
  unfold labelCluster.
  destruct label as [l |]; [| left; reflexivity].
  destruct (String.eqb l ""); [left; reflexivity |].
  destruct (findById ExtractedFace._id id (extractedFaces d)) as [job |] eqn:Hjob;
    [| left; reflexivity].
  destruct (cannotAccessExtraction u job); [left; reflexivity |].
  destruct (findIndex _ (ExtractedFace.clusters job)) as [ci |]; [| left; reflexivity].
  destruct (faults 0); [left; reflexivity |].
  right. eexists; eexists. split; [reflexivity |].
  split; [| split; [| reflexivity]]; cbn; [| reflexivity].
  split; [reflexivity |]. split; [apply statusStep_refl |].
  intros _. unfold sameButLabeling. cbn. repeat split.
  apply sameButLabels_labelClusterAt.
Qed.

Lemma allowedChange_labeled (now : Date) (job : ExtractedFace.t) :
  allowedChange job (labeled now job).
Proof.
  split; [reflexivity |]. split; [apply statusStep_refl |].
  intros _. unfold sameButLabeling. cbn. repeat split.
  apply Forall2_refl. intros c _. unfold sameButLabels. auto.
Qed.

(** What the continuation does to the collection of jobs. *)
Lemma extractContinuation_effect (faults : nat -> bool) (now : Date)
    (doc : ExtractedFace.t) (outcome : BridgeOutcome) (d : DB) :
  extractedFaces (extractContinuation faults now doc outcome d) = extractedFaces d
  \/ exists f,
       (forall j, ExtractedFace._id (f j) = ExtractedFace._id j
                  /\ terminal (ExtractedFace.status (f j)))
       /\ extractedFaces (extractContinuation faults now doc outcome d)
          = replaceById ExtractedFace._id (ExtractedFace._id doc) f (extractedFaces d).
Proof.
  unfold extractContinuation, orCatch, updateJob, terminal.
  destruct outcome as [r | e].
  - destruct (negb (ProviderResult.success r));
      [| destruct (negb (ProviderResult.is_valid r)
                   || Nat.eqb (ProviderResult.face_count r) 0)];
      destruct (faults 0); try destruct (faults 1);
      try (left; reflexivity);
      right; eexists; (split; [| reflexivity]); intros j; cbn; auto.
  - destruct (faults 0); [left; reflexivity |].
    right. eexists. split; [| reflexivity]. intros j. cbn. auto.
Qed.

Lemma systemInv_same_jobs (s s' : System) :
  systemInv s ->
  jobsOf s' = jobsOf s -> pending s' = pending s ->
  nextOid (world s) <= nextOid (world s') ->
  systemInv s' /\ jobsEvolve (jobsOf s) (jobsOf s').
Proof.
  intros [Hj [Hp [Hnj [Hnp Hproc]]]] Ejobs Epend Hoid.
  split; [| rewrite Ejobs; apply jobsEvolve_refl].
  unfold systemInv. rewrite Ejobs, Epend.
  repeat split; try assumption.
  - intros j Hin. specialize (Hj j Hin). lia.
  - intros p Hin. specialize (Hp p Hin). lia.
Qed.

Lemma systemInv_replace (s s' : System) (id : ObjectId)
    (job job' : ExtractedFace.t) :
  systemInv s ->
  findById ExtractedFace._id id (jobsOf s) = Some job ->
  allowedChange job job' ->
  ExtractedFace.status job' = ExtractedFace.status job ->
  jobsOf s' = replaceById ExtractedFace._id id (fun _ => job') (jobsOf s) ->
  pending s' = pending s ->
  nextOid (world s) <= nextOid (world s') ->
  systemInv s' /\ jobsEvolve (jobsOf s) (jobsOf s').
Proof.
  intros [Hj [Hp [Hnj [Hnp Hproc]]]] Hjob Hch Hst Ejobs Epend Hoid.
  pose proof (findById_id _ _ _ _ _ Hjob) as Hid.
  pose proof (findById_In _ _ _ _ _ Hjob) as Hin.
  destruct Hch as [Hid' Hch].
  split.
  - unfold systemInv. rewrite Ejobs, Epend. repeat split.
    + intros j Hj'.
      destruct (In_replaceById _ _ _ _ _ _ Hj') as [Hold | [j0 [_ [_ ->]]]].
      * specialize (Hj j Hold). lia.
      * rewrite Hid'. specialize (Hj job Hin). lia.
    + intros p Hp'. specialize (Hp p Hp'). lia.
    + rewrite map_id_replaceById; [exact Hnj |].
      intros _ _. congruence.
    + exact Hnp.
    + intros p j Hp' Hj' E.
      destruct (In_replaceById _ _ _ _ _ _ Hj') as [Hold | [j0 [_ [_ ->]]]].
      * exact (Hproc p j Hp' Hold E).
      * rewrite Hst. apply (Hproc p job Hp' Hin). congruence.
  - rewrite Ejobs. apply (jobsEvolve_replace _ _ _ _ Hnj Hjob).
    split; assumption.
Qed.

Lemma systemInv_extract (s : System) (doc : ExtractedFace.t) :
  systemInv s ->
  ExtractedFace._id doc = S (nextOid (world s)) ->
  ExtractedFace.status doc = Processing ->
  forall s',
    jobsOf s' = jobsOf s ++ [doc] ->
    pending s' = pending s ++ [doc] ->
    nextOid (world s') = S (S (nextOid (world s))) ->
    systemInv s' /\ jobsEvolve (jobsOf s) (jobsOf s').
Proof.
  intros [Hj [Hp [Hnj [Hnp Hproc]]]] Hid Hst s' Ejobs Epend Eoid.
  assert (Hfresh : forall l : list ExtractedFace.t,
            (forall j, In j l -> ExtractedFace._id j < nextOid (world s)) ->
            ~ In (ExtractedFace._id doc) (map ExtractedFace._id l)).
  { intros l Hl Hin. apply in_map_iff in Hin. destruct Hin as [j [E Hin]].
    specialize (Hl j Hin). lia. }
  split.
  - unfold systemInv. rewrite Ejobs, Epend, Eoid. repeat split.
    + intros j Hin. apply in_app_or in Hin. destruct Hin as [Hin | [<- | []]].
      * specialize (Hj j Hin). lia.
      * lia.
    + intros p Hin. apply in_app_or in Hin. destruct Hin as [Hin | [<- | []]].
      * specialize (Hp p Hin). lia.
      * lia.
    + rewrite map_app. cbn. apply NoDup_app; [exact Hnj | repeat constructor; cbn; tauto |].
      intros x Hx [<- | []]. exact (Hfresh _ Hj Hx).
    + rewrite map_app. cbn. apply NoDup_app; [exact Hnp | repeat constructor; cbn; tauto |].
      intros x Hx [<- | []]. exact (Hfresh _ Hp Hx).
    + intros p j Hp' Hj' E.
      apply in_app_or in Hj'. destruct Hj' as [Hj' | [<- | []]]; [| exact Hst].
      apply in_app_or in Hp'. destruct Hp' as [Hp' | [<- | []]].
      * exact (Hproc p j Hp' Hj' E).
      * specialize (Hj j Hj'). lia.
  - rewrite Ejobs. exists (jobsOf s), [doc]. split; [reflexivity |].
    split; [| repeat constructor; exact Hst].
    apply Forall2_refl. intros j _. apply allowedChange_refl.
Qed.

Lemma pending_ids_filter (keep : ExtractedFace.t -> bool)
    (docs : list ExtractedFace.t) :
  NoDup (map ExtractedFace._id docs) ->
  NoDup (map ExtractedFace._id (filter keep docs)).
Proof.
  intros Hnd. induction docs as [| doc rest IH]; cbn in *; [exact Hnd |].
  inversion Hnd as [| ? ? Hfresh Hrest]; subst.
  destruct (keep doc); cbn; [| exact (IH Hrest)].
  constructor; [| exact (IH Hrest)].
  intros Hin. apply Hfresh. apply in_map_iff in Hin.
  destruct Hin as [other [E Hother]]. apply filter_In in Hother.
  rewrite <- E. apply in_map. tauto.
Qed.

Lemma systemInv_continuation (s s' : System) (id : ObjectId)
    (f : ExtractedFace.t -> ExtractedFace.t) :
  systemInv s ->
  (exists doc, In doc (pending s) /\ ExtractedFace._id doc = id) ->
  (forall j, ExtractedFace._id (f j) = ExtractedFace._id j
             /\ terminal (ExtractedFace.status (f j))) ->
  jobsOf s' = replaceById ExtractedFace._id id f (jobsOf s) ->
  pending s' = filter (fun j => negb (isJob id j)) (pending s) ->
  nextOid (world s') = nextOid (world s) ->
  systemInv s' /\ jobsEvolve (jobsOf s) (jobsOf s').
Proof.
  intros [Hj [Hp [Hnj [Hnp Hproc]]]] [doc [Hdoc Hdid]] Hf Ejobs Epend Eoid.
  split.
  - unfold systemInv. rewrite Ejobs, Epend, Eoid. repeat split.
    + intros j Hj'.
      destruct (In_replaceById _ _ _ _ _ _ Hj') as [Hold | [j0 [Hj0 [_ ->]]]].
      * exact (Hj j Hold).
      * destruct (Hf j0) as [-> _]. exact (Hj j0 Hj0).
    + intros p Hp'. apply filter_In in Hp'. apply Hp. tauto.
    + rewrite map_id_replaceById; [exact Hnj |].
      intros x Hx. destruct (Hf x) as [-> _]. exact Hx.
    + apply pending_ids_filter. exact Hnp.
    + intros p j Hp' Hj' E. apply filter_In in Hp'. destruct Hp' as [Hp' Hne].
      unfold isJob in Hne.
      destruct (Nat.eqb_spec (ExtractedFace._id p) id) as [| Hne']; [discriminate |].
      destruct (In_replaceById _ _ _ _ _ _ Hj') as [Hold | [j0 [Hj0 [Hid0 ->]]]].
      * exact (Hproc p j Hp' Hold E).
      * exfalso. destruct (Hf j0) as [E0 _]. congruence.
  - rewrite Ejobs.
    exists (replaceById ExtractedFace._id id f (jobsOf s)), [].
    rewrite app_nil_r. split; [reflexivity |]. split; [| constructor].
    apply Forall2_replaceById.
    + intros j _. apply allowedChange_refl.
    + intros j Hin Hid. destruct (Hf j) as [E Hterm].
      assert (Hst : ExtractedFace.status j = Processing).
      { apply (Hproc doc j Hdoc Hin). congruence. }
      split; [exact E |]. split.
      * right. split; [exact Hst | exact Hterm].
      * rewrite Hst. intros [H | H]; discriminate.
Qed.

Lemma systemInv_fewer_pending (s s' : System) :
  systemInv s ->
  jobsOf s' = jobsOf s ->
  (forall p, In p (pending s') -> In p (pending s)) ->
  NoDup (map ExtractedFace._id (pending s')) ->
  nextOid (world s) <= nextOid (world s') ->
  systemInv s' /\ jobsEvolve (jobsOf s) (jobsOf s').
Proof.
  intros [Hj [Hp [Hnj [Hnp Hproc]]]] Ejobs Hsub Hnd Hoid.
  split; [| rewrite Ejobs; apply jobsEvolve_refl].
  unfold systemInv. rewrite Ejobs. repeat split; try assumption.
  - intros j Hin. specialize (Hj j Hin). lia.
  - intros p Hin. specialize (Hp p (Hsub p Hin)). lia.
  - intros p j Hin. apply Hproc, Hsub, Hin.
Qed.

Lemma proposeFaceLabel_jobs (faults : nat -> bool) (now : Date) (u : User.t)
    (id : ObjectId) (label : option string) (d : DB) :
  extractedFaces (snd (proposeFaceLabel faults now u id label d)) = extractedFaces d.
Proof.
  unfold proposeFaceLabel.
  destruct label as [l |]; [| reflexivity].
  destruct (String.eqb l ""); [reflexivity |].
  destruct (findById Face._id id (faces d)); [| reflexivity].
  destruct (_ && _); [reflexivity |].
  destruct (faults 0); reflexivity.
Qed.

Lemma systemInv_step (op : Op) (s : System) :
  systemInv s ->
  systemInv (step op s) /\ jobsEvolve (jobsOf s) (jobsOf (step op s)).
Proof.
  intros Hinv.
  destruct op as [ep h faults b | faults now u id label | faults now u id b
                  | faults now u file ft sid | faults now id outcome
                  | faults now u id cid label | faults now u id]; cbn [step].
  - destruct (register_effect ep h faults b (world s)) as [_ [Hj Hoid]].
    apply systemInv_same_jobs; auto.
  - apply systemInv_same_jobs; auto.
    apply proposeFaceLabel_jobs.
  - destruct (verifyFace_effect faults now u id b (world s)) as [Hj [Hoid _]].
    apply systemInv_same_jobs; auto.
  - unfold extractFaces. destruct file as [f |].
    + destruct (faults 0).
      * apply systemInv_same_jobs; cbn; auto; lia.
      * match goal with
        | |- context [pending s ++ [?doc]] =>
          apply (systemInv_extract s doc Hinv); reflexivity
        end.
    + apply systemInv_same_jobs; auto.
  - destruct (find (isJob id) (pending s)) as [doc |] eqn:Hdoc.
    2: { apply systemInv_same_jobs; auto. }
    apply find_some in Hdoc. destruct Hdoc as [Hin Hid].
    unfold isJob in Hid. apply Nat.eqb_eq in Hid.
    destruct (extractContinuation_effect faults now doc outcome (store (world s)))
      as [Hsame | [f [Hf Hjobs]]].
    + apply systemInv_fewer_pending; auto.
      * intros p Hp. cbn in Hp. apply filter_In in Hp. tauto.
      * cbn. apply pending_ids_filter. destruct Hinv as [_ [_ [_ [Hnp _]]]]. exact Hnp.
    + apply (systemInv_continuation s _ id f); auto.
      * exists doc. auto.
      * unfold jobsOf. cbn. rewrite Hjobs, Hid. reflexivity.
  - destruct (labelCluster_effect faults now u id cid label (store (world s)))
      as [Hsame | [job [job' [Hjob [Hch [Hst Hjobs]]]]]].
    + apply systemInv_same_jobs; auto.
    + apply (systemInv_replace s _ id job job'); auto.
  - destruct (completeLabeling_effect faults now u id (world s))
      as [Hoid [Hsame | [job [added [Hjob [Hjobs _]]]]]].
    + apply systemInv_same_jobs; auto. unfold jobsOf. cbn. rewrite Hsame. reflexivity.
    + apply (systemInv_replace s _ id job (labeled now job)); auto.
      apply allowedChange_labeled.
Qed.

Lemma systemInv_initial : systemInv initialSystem.
Proof.
  unfold systemInv, initialSystem, jobsOf. cbn.
  repeat split.
  - intros j [].
  - intros p [].
  - constructor.
  - constructor.
  - intros p j [].
Qed.

(** C6, as the handlers have it.  In every state the system can reach,
    one operation leaves the status of a job as it is or takes it from
    [processing] to [completed] or to [failed]; a new job starts in
    [processing]; and a job that is [completed] or [failed] changes at
    most in the label fields of its clusters, in [isLabeled] and in
    [updatedAt]. *)
Theorem job_status_transitions :
  (forall ops, systemInv (run ops initialSystem))
  /\ (forall op s,
        systemInv s ->
        systemInv (step op s) /\ jobsEvolve (jobsOf s) (jobsOf (step op s))).
Proof.
  split; [| exact systemInv_step].
  intros ops. unfold run.
  generalize systemInv_initial. generalize initialSystem.
  induction ops as [| op t IH]; intros s Hinv; cbn; [exact Hinv |].
  apply IH. apply (systemInv_step op s Hinv).
Qed.

Lemma systemInv_system0 : systemInv system0.
Proof.
  unfold systemInv, system0, jobsOf. cbn. repeat split.
  - intros j [<- | []]. cbn. lia.
  - intros p [].
  - repeat constructor. cbn. tauto.
  - constructor.
  - intros p j [].
Defined.

Lemma job_status_transitions_witness :
  jobsEvolve (jobsOf system0)
    (jobsOf (step (OpLabelCluster no_faults 9 alice 10 "0" (Some "Alicia")) system0))
  /\ jobsEvolve (jobsOf system0)
       (jobsOf (step (OpCompleteLabeling no_faults 9 alice 10) system0)).
Proof.
  destruct job_status_transitions as [_ H].
  split.
  - exact (proj2 (H (OpLabelCluster no_faults 9 alice 10 "0" (Some "Alicia"))
                    system0 systemInv_system0)).
  - exact (proj2 (H (OpCompleteLabeling no_faults 9 alice 10)
                    system0 systemInv_system0)).
Defined.

(** The claim C6 fails in its last part: labelling a cluster of a
    completed job also writes [updatedAt], which is neither a label field
    nor [isLabeled]. *)
Lemma job_status_transitions_counterexample :
  ExtractedFace.status job10 = Completed
  /\ ExtractedFace.updatedAt job10 = 3
  /\ option_map ExtractedFace.updatedAt
       (findById ExtractedFace._id 10
          (jobsOf (step (OpLabelCluster no_faults 9 alice 10 "0" (Some "Alicia"))
                        system0)))
     = Some 9.
Proof. repeat split. Qed.

(** ** Calling the completion handler twice *)

Lemma existsb_app_l (A : Type) (p : A -> bool) (l l' : list A) :
  existsb p l = true -> existsb p (l ++ l') = true.
Proof. intros H. rewrite existsb_app, H. reflexivity. Qed.

Lemma existsb_replaceById (A : Type) (idOf : A -> ObjectId) (p : A -> bool)
    (i : ObjectId) (g : A -> A) (l : list A) :
  (forall x, p x = true -> p (g x) = true) ->
  existsb p l = true -> existsb p (replaceById idOf i g l) = true.
Proof.
  intros Hg. unfold replaceById. induction l as [| x t IH]; cbn; [auto |].
  intros H. apply orb_true_iff in H. apply orb_true_iff.
  destruct H as [H | H]; [left | right; auto].
  destruct (Nat.eqb (idOf x) i); auto.
Qed.

Lemma existsb_replaced (A : Type) (idOf : A -> ObjectId) (p q : A -> bool)
    (g : A -> A) (l : list A) (x : A) :
  find q l = Some x -> p (g x) = true ->
  existsb p (replaceById idOf (idOf x) g l) = true.
Proof.
  intros Hfind Hp. apply find_some in Hfind. destruct Hfind as [Hin _].
  apply existsb_exists. exists (g x). split; [| exact Hp].
  unfold replaceById. apply in_map_iff. exists x.
  rewrite Nat.eqb_refl. auto.
Qed.

(** A visitor the loop has just inserted already carries a face
    reference, the placeholder: the query in front of the back-link update
    finds it. *)
Lemma visitorWithFaceExists_inserted (vid : ObjectId) (l : string) (now : Date)
    (placeholder : ObjectId) (d : DB) :
  visitorWithFaceExists l
    (set_visitors (visitors d ++ [newExtractedVisitor vid l now placeholder]) d)
  = true.
Proof.
  unfold visitorWithFaceExists. cbn [visitors set_visitors].
  rewrite existsb_app. cbn. rewrite String.eqb_refl. cbn.
  apply orb_true_r.
Qed.

Lemma set_faceId_keeps (l : string) (fid : ObjectId) (v : Visitor.t) :
  String.eqb (Visitor.name v) (trim l)
  && match Visitor.faceId v with Some _ => true | None => false end = true ->
  String.eqb (Visitor.name (Visitor.set_faceId (Some fid) v)) (trim l)
  && match Visitor.faceId (Visitor.set_faceId (Some fid) v) with
     | Some _ => true | None => false end = true.
Proof.
  cbn. intros H. apply andb_true_iff in H. destruct H as [-> _]. reflexivity.
Qed.

(** One turn of the loop keeps every resolved label resolved, and
    resolves the label it promotes. *)
Lemma completeCluster_resolves (faults : nat -> bool) (now : Date) (u : User.t)
    (c : Cluster.t) (s s' : Session) (a : unit) :
  completeCluster faults now u c s = (Value a, s') ->
  (forall l, resolved l (work s) -> resolved l (work s'))
  /\ (forall l img, promotable c = Some (l, img) -> resolved l (work s')).
Proof.
  unfold completeCluster, resolvePerson, resolved,
    findEmployeeByName, findVisitorByName. tx_unfold. intros H.
  destruct (promotable c) as [[l0 img0] |] eqn:Hprom.
  2: { injection H as _ <-. split; [auto | discriminate]. }
  tx_split; cbn [employees visitors set_faces set_visitors] in *.
  all: split;
    [ intros l [He | Hv]; [left; exact He | right]
    | intros l img E; injection E as <- <- ].
  all: unfold visitorWithFaceExists in *;
       cbn [employees visitors set_faces set_visitors] in *.
  all: try solve
    [ assumption
    | right; apply negb_false_iff; assumption
    | apply negb_false_iff; assumption
    | left; congruence
    | right; assumption
    | apply existsb_app_l; assumption
    | apply existsb_replaceById; [apply set_faceId_keeps | assumption]
    | right; rewrite existsb_app; cbn; rewrite String.eqb_refl; cbn;
      apply orb_true_r ].
  all: try (exfalso;
            match goal with
            | H : negb (existsb _ (_ ++ [_])) = true |- _ =>
              rewrite existsb_app in H; cbn in H;
              rewrite String.eqb_refl in H; cbn in H;
              rewrite orb_true_r in H; discriminate
            end).
  all: right; eapply existsb_replaced; [eassumption |].
  all: match goal with
       | H : find _ _ = Some ?v |- _ =>
         apply find_some in H; destruct H as [_ H]; cbn; rewrite H; reflexivity
       end.
Qed.

Lemma forEach_resolves (faults : nat -> bool) (now : Date) (u : User.t)
    (cs : list Cluster.t) (s s' : Session) (a : unit) :
  forEach (completeCluster faults now u) cs s = (Value a, s') ->
  (forall l, resolved l (work s) -> resolved l (work s'))
  /\ allResolved cs (work s').
Proof.
  revert s. induction cs as [| c t IH]; intros s; cbn.
  - unfold ret. intros H. injection H as _ <-.
    split; [auto | intros c l img []].
  - unfold bind.
    destruct (completeCluster faults now u c s) as [[b | r | e] s1] eqn:Hc;
      try discriminate.
    intros Ht.
    destruct (completeCluster_resolves faults now u c s s1 b Hc) as [Hmono Hnew].
    destruct (IH s1 Ht) as [Hmono' Hall].
    split; [auto |].
    intros c' l img [<- | Hin] Hprom.
    + apply Hmono'. exact (Hnew l img Hprom).
    + exact (Hall c' l img Hin Hprom).
Qed.

Lemma resolved_same_persons (l : string) (d d' : DB) :
  employees d' = employees d -> visitors d' = visitors d ->
  resolved l d -> resolved l d'.
Proof.
  unfold resolved, findEmployeeByName, visitorWithFaceExists.
  intros -> ->. auto.
Qed.

Lemma visitorWithFace_found (l : string) (d : DB) :
  visitorWithFaceExists l d = true -> findVisitorByName l d <> None.
Proof.
  unfold visitorWithFaceExists, findVisitorByName. intros H Hnone.
  apply existsb_exists in H. destruct H as [v [Hin Hv]].
  apply andb_true_iff in Hv. destruct Hv as [Hname _].
  pose proof (find_none _ _ Hnone v Hin) as Hno. cbn in Hno.
  rewrite Hname in Hno. discriminate.
Qed.

(** One turn of the loop when the label it promotes already resolves:
    no person is written, and a face is added. *)
Lemma completeCluster_again (now : Date) (u : User.t) (c : Cluster.t) (s : Session) :
  (forall l img, promotable c = Some (l, img) -> resolved l (work s)) ->
  exists s',
    completeCluster no_faults now u c s = (Value tt, s')
    /\ employees (work s') = employees (work s)
    /\ visitors (work s') = visitors (work s)
    /\ extractedFaces (work s') = extractedFaces (work s)
    /\ List.length (faces (work s'))
       = List.length (faces (work s)) + (if isPromotable c then 1 else 0).
Proof.
  intros Hres. unfold completeCluster, isPromotable.
  destruct (promotable c) as [[l img] |] eqn:Hprom.
  2: { exists s. unfold ret. repeat split. lia. }
  specialize (Hres l img eq_refl).
  unfold resolvePerson. tx_unfold. unfold no_faults.
  destruct (findEmployeeByName l (work s)) as [e |] eqn:He.
  - eexists. split; [reflexivity |]. cbn. repeat split.
    rewrite length_app. reflexivity.
  - destruct Hres as [Hres | Hres]; [contradiction |].
    pose proof (visitorWithFace_found l (work s) Hres) as Hv.
    cbn [fst snd work oid writes].
    destruct (findVisitorByName l (work s)) as [v |]; [| contradiction].
    cbn [fst snd work oid writes].
    assert (Hlinked : forall x,
              visitorWithFaceExists l (set_faces x (work s)) = true)
      by (intros x; exact Hres).
    rewrite Hlinked. cbn.
    eexists. split; [reflexivity |]. cbn. repeat split.
    rewrite length_app. reflexivity.
Qed.

Lemma forEach_again (now : Date) (u : User.t) (cs : list Cluster.t) (s : Session) :
  allResolved cs (work s) ->
  exists s',
    forEach (completeCluster no_faults now u) cs s = (Value tt, s')
    /\ employees (work s') = employees (work s)
    /\ visitors (work s') = visitors (work s)
    /\ extractedFaces (work s') = extractedFaces (work s)
    /\ List.length (faces (work s'))
       = List.length (faces (work s)) + List.length (filter isPromotable cs).
Proof.
  revert s. induction cs as [| c t IH]; intros s Hall; cbn.
  - exists s. unfold ret. repeat split. lia.
  - destruct (completeCluster_again now u c s) as [s1 [Hrun [He [Hv [Hj Hlen]]]]].
    { intros l img Hp. apply (Hall c l img); [left; reflexivity | exact Hp]. }
    destruct (IH s1) as [s2 [Hrun2 [He2 [Hv2 [Hj2 Hlen2]]]]].
    { intros c' l img Hin Hp.
      apply (resolved_same_persons l (work s) (work s1) He Hv).
      apply (Hall c' l img); [right; exact Hin | exact Hp]. }
    exists s2. unfold bind. rewrite Hrun, Hrun2.
    split; [reflexivity |].
    repeat split; try congruence.
    rewrite Hlen2, Hlen. destruct (isPromotable c); cbn; lia.
Qed.

(** What a successful call of the completion handler has done. *)
Lemma completeLabeling_success (faults : nat -> bool) (now : Date) (u : User.t)
    (id : ObjectId) (w : World) (job : ExtractedFace.t) :
  findById ExtractedFace._id id (extractedFaces (store w)) = Some job ->
  res_status (fst (completeLabeling faults now u id w)) = 200 ->
  exists a s1,
    forEach (completeCluster faults now u) (ExtractedFace.clusters job) (session0 w)
    = (Value a, s1)
    /\ store (snd (completeLabeling faults now u id w))
       = updateJob id (fun _ => labeled now job) (work s1).
Proof.
  intros Hjob. unfold completeLabeling. rewrite Hjob.
  destruct (negb (canComplete u job)); [discriminate |].
  unfold withTransaction, completeLabelingBody. fold (session0 w).
  unfold bind at 1.
  destruct (forEach (completeCluster faults now u) (ExtractedFace.clusters job)
              (session0 w)) as [[a | r | e] s1] eqn:Hloop.
  - tx_unfold. tx_split. intros _. exists a, s1.
    split; [reflexivity |].
    rewrite (findById_id _ _ _ _ _ Hjob). reflexivity.
  - cbn. intros Hr. exfalso.
    assert (Hnever : forall cs s r' s',
              forEach (completeCluster faults now u) cs s <> (Respond r', s')).
    { clear. induction cs as [| c t IH]; intros s r' s'; cbn.
      - discriminate.
      - unfold bind.
        destruct (completeCluster faults now u c s) as [[b | r | e] s1] eqn:Hc.
        + apply IH.
        + exfalso. revert Hc. unfold completeCluster, resolvePerson.
          tx_unfold. tx_split.
        + discriminate. }
    exact (Hnever _ _ _ _ Hloop).
  - cbn. discriminate.
Qed.

Lemma forEach_keeps_jobs (faults : nat -> bool) (now : Date) (u : User.t)
    (cs : list Cluster.t) (w : World) (a : unit) (s1 : Session) :
  forEach (completeCluster faults now u) cs (session0 w) = (Value a, s1) ->
  extractedFaces (work s1) = extractedFaces (store w).
Proof.
  intros Hloop.
  assert (Hinv : loopInv (store w) (nextOid w) s1).
  { eapply forEach_invariant; [| | exact Hloop].
    - intros c s s' b _. apply completeCluster_loopInv.
    - unfold loopInv, session0. cbn. split; [reflexivity | split; [lia |]].
      exists []. rewrite app_nil_r. split; [reflexivity | constructor]. }
  destruct Hinv as [H _]. exact H.
Qed.

(** C1, as the handler has it.  The handler does not consult
    [isLabeled].  After a call that succeeded, a second call by a caller
    who may complete the job succeeds again and leaves [isLabeled] true;
    it runs the loop again: every selected label now resolves by name, so
    the employees and the visitors are those after the first call, and
    one more face is stored for each cluster that has a selected label
    and a representative crop. *)
Theorem completion_twice (faults : nat -> bool) (now1 now2 : Date)
    (u1 u2 : User.t) (id : ObjectId) (w : World) (job : ExtractedFace.t) :
  findById ExtractedFace._id id (extractedFaces (store w)) = Some job ->
  res_status (fst (completeLabeling faults now1 u1 id w)) = 200 ->
  canComplete u2 job = true ->
  res_status
    (fst (completeLabeling no_faults now2 u2 id
            (snd (completeLabeling faults now1 u1 id w)))) = 200
  /\ isLabeledIn id (store (snd (completeLabeling faults now1 u1 id w))) = Some true
  /\ isLabeledIn id
       (store (snd (completeLabeling no_faults now2 u2 id
                      (snd (completeLabeling faults now1 u1 id w))))) = Some true
  /\ employees
       (store (snd (completeLabeling no_faults now2 u2 id
                      (snd (completeLabeling faults now1 u1 id w)))))
     = employees (store (snd (completeLabeling faults now1 u1 id w)))
  /\ visitors
       (store (snd (completeLabeling no_faults now2 u2 id
                      (snd (completeLabeling faults now1 u1 id w)))))
     = visitors (store (snd (completeLabeling faults now1 u1 id w)))
  /\ List.length
       (faces
          (store (snd (completeLabeling no_faults now2 u2 id
                         (snd (completeLabeling faults now1 u1 id w))))))
     = List.length (faces (store (snd (completeLabeling faults now1 u1 id w))))
       + promotableCount job.
Proof.
  intros Hjob Hok Hmay.
  destruct (completeLabeling_success faults now1 u1 id w job Hjob Hok)
    as [a [s1 [Hloop Hstore]]].
  pose proof (forEach_keeps_jobs faults now1 u1 _ w a s1 Hloop) as Hjobs1.
  destruct (forEach_resolves faults now1 u1 _ _ s1 a Hloop) as [_ Hall].
  set (w1 := snd (completeLabeling faults now1 u1 id w)) in *.
  pose proof (findById_id _ _ _ _ _ Hjob) as Hid.
  assert (Hjob1 : findById ExtractedFace._id id (extractedFaces (store w1))
                  = Some (labeled now1 job)).
  { rewrite Hstore. unfold updateJob. cbn [extractedFaces set_extractedFaces].
    rewrite findById_replaceById; [| intros _ _; exact Hid].
    rewrite Nat.eqb_refl, Hjobs1, Hjob. reflexivity. }
  assert (Hall1 : allResolved (ExtractedFace.clusters (labeled now1 job)) (store w1)).
  { intros c l img Hin Hp. rewrite Hstore.
    apply (resolved_same_persons l (work s1)); [reflexivity | reflexivity |].
    exact (Hall c l img Hin Hp). }
  destruct (forEach_again now2 u2 _ (session0 w1) Hall1)
    as [s2 [Hloop2 [He2 [Hv2 [Hj2 Hlen2]]]]].
  assert (Hrun2 :
    completeLabeling no_faults now2 u2 id w1
    = (reply 200 "Face labeling completed successfully",
       {| store := updateJob id (fun _ => labeled now2 (labeled now1 job)) (work s2);
          nextOid := oid s2 |})).
  { unfold completeLabeling. rewrite Hjob1.
    replace (canComplete u2 (labeled now1 job)) with true by (symmetry; exact Hmay).
    cbn [negb]. unfold withTransaction, completeLabelingBody.
    fold (session0 w1). unfold bind at 1. rewrite Hloop2.
    tx_unfold. unfold no_faults. cbn. rewrite Hid. reflexivity. }
  rewrite Hrun2. cbn [fst snd store res_status reply].
  split; [reflexivity |].
  split; [unfold isLabeledIn; rewrite Hjob1; reflexivity |].
  split.
  { unfold isLabeledIn, updateJob. cbn [extractedFaces set_extractedFaces].
    rewrite findById_replaceById; [| intros _ _; exact Hid].
    rewrite Nat.eqb_refl, Hj2. cbn [session0 work]. rewrite Hjob1. reflexivity. }
  unfold updateJob.
  cbn [employees visitors faces set_extractedFaces].
  split; [exact He2 |]. split; [exact Hv2 |].
  exact Hlen2.
Qed.

Lemma completion_twice_witness :
  List.length
    (faces (store (snd (completeLabeling no_faults 8 alice 10
                          (snd (completeLabeling no_faults 7 alice 10 world0))))))
  = List.length (faces (store (snd (completeLabeling no_faults 7 alice 10 world0))))
    + promotableCount job10.
Proof.
  apply (completion_twice no_faults 7 8 alice alice 10 world0 job10);
    reflexivity.
Defined.

(** The claim C1 fails: the second call on a labelled job stores a
    second face for the same cluster. *)
Lemma completion_twice_counterexample :
  res_status (fst (completeLabeling no_faults 7 alice 10 world0)) = 200
  /\ isLabeledIn 10 (store (snd (completeLabeling no_faults 7 alice 10 world0)))
     = Some true
  /\ map Face._id
       (faces (store (snd (completeLabeling no_faults 7 alice 10 world0))))
     = [20; 24]
  /\ map Face._id
       (faces (store (snd (completeLabeling no_faults 8 alice 10
                             (snd (completeLabeling no_faults 7 alice 10 world0))))))
     = [20; 24; 26].
Proof. repeat split. Qed.

(** ** The back-link of a visitor created by the completion handler *)

(** C7.  The handler breaks the claim.  The visitor it inserts carries a
    placeholder [faceId]; the update that should replace the placeholder
    by the id of the new face is guarded by a query for a visitor of that
    name whose [faceId] is not null, which the inserted visitor itself
    satisfies, so the update never runs for it.  On a job with one
    cluster labelled "Alice" and no person of that name, the new face 24
    points to the new visitor 23, whose [faceId] is the placeholder 22. *)
Theorem new_visitor_backlink :
  (forall vid l now placeholder d,
      visitorWithFaceExists l
        (set_visitors (visitors d ++ [newExtractedVisitor vid l now placeholder]) d)
      = true)
  /\ res_status (fst (completeLabeling no_faults 7 alice 10 world0)) = 200
  /\ map (fun f => (Face._id f, Face.personType f, Face.personId f))
       (faces (store (snd (completeLabeling no_faults 7 alice 10 world0))))
     = [(20, PUnknown, 19); (24, PVisitor, 23)]
  /\ map (fun v => (Visitor._id v, Visitor.name v, Visitor.faceId v))
       (visitors (store (snd (completeLabeling no_faults 7 alice 10 world0))))
     = [(23, "Alice", Some 22)].
Proof.
  split; [exact visitorWithFaceExists_inserted |].
  repeat split.
Qed.

(** ** Registration *)

Lemma parseRole_nonempty (rs : string) (r : Role) :
  parseRole rs = Some r -> orElse (Some rs) "user" = rs.
Proof.
  unfold orElse. destruct (String.eqb_spec rs "") as [-> | _]; [| reflexivity].
  cbn. discriminate.
Qed.

(** C10.  The registration route takes no authenticated caller.  For a
    request with a well-formed name, email and password, an email that is
    not registered yet and a role among admin, manager and user, it
    stores a user with that role, and the save hook gives the user the
    permissions of the role: all four for admin; [canVerifyFaces],
    [canManageAllFaces] and [canViewAllData] for manager. *)
Theorem register_honors_role (emailPattern : string -> bool)
    (bcryptHash : string -> string) (faults : nat -> bool)
    (b : RegisterBody.t) (w : World) (n e p rs : string) (r : Role) :
  RegisterBody.name b = Some n ->
  RegisterBody.email b = Some e ->
  RegisterBody.password b = Some p ->
  RegisterBody.role b = Some rs ->
  parseRole rs = Some r ->
  trim n <> "" ->
  String.length (trim n) <= 50 ->
  emailPattern e = true ->
  6 <= String.length p ->
  findUserByEmail (Some e) (store w) = None ->
  faults 0 = false ->
  register emailPattern bcryptHash faults b w
  = (reply 201 "",
     {| store :=
          set_users
            (users (store w) ++ [registeredUser bcryptHash (nextOid w) n e p r])
            (store w);
        nextOid := S (nextOid w) |})
  /\ rolePermissions RAdmin
     = {| Permissions.canVerifyFaces := true; Permissions.canManageUsers := true;
          Permissions.canManageAllFaces := true; Permissions.canViewAllData := true |}
  /\ rolePermissions RManager
     = {| Permissions.canVerifyFaces := true; Permissions.canManageUsers := false;
          Permissions.canManageAllFaces := true; Permissions.canViewAllData := true |}
  /\ parseRole "admin" = Some RAdmin
  /\ parseRole "manager" = Some RManager.
Proof.
  intros Hn He Hp Hrs Hr Hname Hlen Hpat Hpw Hfree Hf.
  split; [| repeat split].
  unfold register. rewrite He, Hfree.
  unfold validateUser. rewrite Hn, He, Hp, Hrs.
  rewrite (parseRole_nonempty rs r Hr), Hr.
  destruct (String.eqb_spec (trim n) ""); [contradiction |].
  rewrite Hpat. cbn [negb andb].
  destruct (Nat.leb_spec (String.length (trim n)) 50); [| lia].
  destruct (Nat.leb_spec 6 (String.length p)); [| lia].
  rewrite Hf. reflexivity.
Qed.

Lemma register_honors_role_witness :
  register anyEmail markHashed no_faults registerAdmin world0
  = (reply 201 "",
     {| store :=
          set_users
            (users (store world0)
             ++ [registeredUser markHashed 21 "Mallory" "mallory@example.com"
                   "hunter22" RAdmin])
            (store world0);
        nextOid := 22 |}).
Proof.
  apply (register_honors_role anyEmail markHashed no_faults registerAdmin world0
           "Mallory" "mallory@example.com" "hunter22" "admin" RAdmin);
    [ reflexivity | reflexivity | reflexivity | reflexivity | reflexivity
    | vm_compute; discriminate | vm_compute; lia | reflexivity
    | vm_compute; lia | reflexivity | reflexivity ].
Defined.

(** ** A bridge call that does not settle *)

Lemma pending_step (op : Op) (s : System) (p : ExtractedFace.t) :
  In p (pending s) -> settles (ExtractedFace._id p) op = false ->
  In p (pending (step op s)).
Proof.
  intros Hin Hns.
  destruct op as [ep h faults b | faults now u id label | faults now u id b
                  | faults now u file ft sid | faults now id outcome
                  | faults now u id cid label | faults now u id];
    cbn [step pending]; try exact Hin.
  - destruct (extractFaces faults now u file ft sid (world s)) as [[r w'] [doc |]];
      cbn; [apply in_or_app; left |]; exact Hin.
  - destruct (find (isJob id) (pending s)); [| exact Hin].
    cbn. apply filter_In. split; [exact Hin |].
    unfold isJob. cbn in Hns. rewrite Nat.eqb_sym. rewrite Hns. reflexivity.
Qed.

Lemma run_cons (op : Op) (ops : list Op) (s : System) :
  run (op :: ops) s = run ops (step op s).
Proof. reflexivity. Qed.

(** C9, as the code has it.  Neither the bridge nor the continuation
    sets a timer.  While the bridge call of a job has not settled, no
    operation takes its continuation away and the job stays in
    [processing].  The bridge rejects in two cases only, both at the
    close of the Python process: an exit code other than 0, and output
    that is not JSON; neither is a timeout.  When the call rejects and
    the write goes through, the job is [failed] with the message of the
    error after "Error processing file: ". *)
Theorem provider_call_unbounded :
  (forall ops s p,
      systemInv s -> In p (pending s) ->
      noneSettles (ExtractedFace._id p) ops = true ->
      In p (pending (run ops s))
      /\ (forall j, In j (jobsOf (run ops s)) ->
            ExtractedFace._id j = ExtractedFace._id p ->
            ExtractedFace.status j = Processing))
  /\ (forall parseOutput closed e,
        validateFaceUpload parseOutput closed = Threw e ->
        (PythonExit.code closed <> Some 0
         /\ e = ("Python process exited with code "
                 ++ exitCodeText (PythonExit.code closed) ++ ": "
                 ++ PythonExit.errorData closed)%string)
        \/ (PythonExit.code closed = Some 0
            /\ exists message,
                 parseOutput (PythonExit.outputData closed) = inr message
                 /\ e = ("Failed to parse Python output: " ++ message)%string))
  /\ (forall faults now doc parseOutput closed e d j,
        faults 0 = false ->
        findById ExtractedFace._id (ExtractedFace._id doc) (extractedFaces d) = Some j ->
        validateFaceUpload parseOutput closed = Threw e ->
        jobOutcome (ExtractedFace._id doc)
          (extractContinuation faults now doc
             (validateFaceUpload parseOutput closed) d)
        = Some (Failed, ("Error processing file: " ++ e)%string)).
Proof.
  split; [| split].
  - induction ops as [| op t IH]; intros s p Hinv Hin Hns.
    + split; [exact Hin |].
      intros j Hj E. destruct Hinv as [_ [_ [_ [_ Hproc]]]].
      exact (Hproc p j Hin Hj E).
    + cbn in Hns. apply andb_true_iff in Hns. destruct Hns as [Hop Ht].
      apply negb_true_iff in Hop. rewrite run_cons.
      apply IH; [| | exact Ht].
      * apply (systemInv_step op s Hinv).
      * apply pending_step; assumption.
  - intros parseOutput closed e. unfold validateFaceUpload, runPythonCommand.
    destruct (PythonExit.code closed) as [[| n] |].
    + destruct (parseOutput (PythonExit.outputData closed)) as [r | m];
        [discriminate |].
      intros H. injection H as <-. right. split; [reflexivity |].
      exists m. split; reflexivity.
    + intros H. injection H as <-. left. split; [discriminate | reflexivity].
    + intros H. injection H as <-. left. split; [discriminate | reflexivity].
  - intros faults now doc parseOutput closed e d j Hf Hj ->.
    unfold jobOutcome, extractContinuation, updateJob. rewrite Hf.
    cbn [extractedFaces set_extractedFaces].
    rewrite findById_replaceById; [| intros x Hx; exact Hx].
    rewrite Nat.eqb_refl, Hj. reflexivity.
Qed.

Lemma provider_call_unbounded_witness :
  jobOutcome 30
    (extractContinuation no_faults 9 job30 (validateFaceUpload noJSON killedRun) db30)
  = Some (Failed,
          "Error processing file: Python process exited with code 137: Killed").
Proof.
  destruct provider_call_unbounded as [_ [_ H]].
  apply (H no_faults 9 job30 noJSON killedRun
           "Python process exited with code 137: Killed" db30 job30);
    reflexivity.
Defined.

(** The claim C9 fails when the bridge call does not settle: four
    operations later the job is still in [processing] with the message it
    was created with, and its continuation is still waiting. *)
Lemma provider_call_unbounded_counterexample :
  jobOutcome 1 (store (world (run whileBridgeIsOut initialSystem)))
  = Some (Processing, "Extracting faces from uploaded file...")
  /\ map ExtractedFace._id (pending (run whileBridgeIsOut initialSystem)) = [1].
Proof. split; reflexivity. Qed.

(** * Proofs about the routes *)

(** ** The verification handler *)

(** X1.  The verification route is gated by the [canVerifyFaces] flag of
    the caller and by nothing else: without the flag the reply is 403 and
    the world is as it was, whatever the role; with the flag the reply is
    never 403. *)
Theorem verify_gate_is_the_flag (faults : nat -> bool) (now : Date) (u : User.t)
    (id : ObjectId) (b : VerifyBody.t) (w : World) :
  (Permissions.canVerifyFaces (User.permissions u) = false ->
   verifyFace faults now u id b w = (Forbidden, w))
  /\ (Permissions.canVerifyFaces (User.permissions u) = true ->
      res_status (fst (verifyFace faults now u id b w)) <> 403).
Proof.
  unfold verifyFace, checkPermission_canVerifyFaces. split; intros Hflag; rewrite Hflag.
  - reflexivity.
  - cbn [negb]. unfold withTransaction, verifyFaceBody, verifiedBranch, personNotFound.
    tx_unfold. tx_split; cbn; discriminate.
Qed.

Lemma verify_gate_is_the_flag_witness :
  canUserVerifyFace demotedAdmin = true
  /\ verifyFace no_faults 7 demotedAdmin 20 verifyNewVisitor world0 = (Forbidden, world0)
  /\ res_status (fst (verifyFace no_faults 7 reviewer 20 verifyNewVisitor world0)) <> 403.
Proof.
  destruct (verify_gate_is_the_flag no_faults 7 demotedAdmin 20 verifyNewVisitor world0)
    as [Hoff _].
  destruct (verify_gate_is_the_flag no_faults 7 reviewer 20 verifyNewVisitor world0)
    as [_ Hon].
  split; [reflexivity |]. split; [apply Hoff | apply Hon]; reflexivity.
Defined.



(** X3.  A successful verification that asks for a new person stores that
    person and the face pointing at each other: the person carries the
    trimmed label as its name and the id of the face as [faceId], the face
    carries the type and the id of the person. *)
Theorem verify_new_person_linked (faults : nat -> bool) (now : Date)
    (u : User.t) (id : ObjectId) (b : VerifyBody.t) (w : World) (face : Face.t) :
  parseStatus (VerifyBody.status b) = Some Verified ->
  VerifyBody.createNewPerson b = true ->
  findById Face._id id (faces (store w)) = Some face ->
  res_status (fst (verifyFace faults now u id b w)) = 200 ->
  exists l,
    VerifyBody.selectedLabel b = Some l
    /\ ((parsePersonType (VerifyBody.personType b) = Some PEmployee
         /\ employees (store (snd (verifyFace faults now u id b w)))
            = employees (store w) ++ [newEmployee (nextOid w) l now id b]
         /\ Employee.faceId (newEmployee (nextOid w) l now id b) = Some id
         /\ visitors (store (snd (verifyFace faults now u id b w)))
            = visitors (store w)
         /\ findById Face._id id
              (faces (store (snd (verifyFace faults now u id b w))))
            = Some (Face.set_person PEmployee (nextOid w) (verifiedAs u now b l face)))
        \/ (parsePersonType (VerifyBody.personType b) = Some PVisitor
            /\ visitors (store (snd (verifyFace faults now u id b w)))
               = visitors (store w) ++ [newVerifiedVisitor (nextOid w) l now id b]
            /\ Visitor.faceId (newVerifiedVisitor (nextOid w) l now id b) = Some id
            /\ employees (store (snd (verifyFace faults now u id b w)))
               = employees (store w)
            /\ findById Face._id id
                 (faces (store (snd (verifyFace faults now u id b w))))
               = Some (Face.set_person PVisitor (nextOid w) (verifiedAs u now b l face)))).
Proof.
  intros Hst Hnew Hface. unfold verifyFace.
  destruct (negb (checkPermission_canVerifyFaces u)); [discriminate |].
  unfold withTransaction, verifyFaceBody, verifiedBranch. rewrite Hst, Hnew.
  pose proof (findById_id _ _ _ _ _ Hface) as Hid.
  tx_unfold. rewrite Hface. cbn [fst snd work oid writes store nextOid].
  destruct (VerifyBody.selectedLabel b) as [l |]; [| discriminate].
  destruct (String.eqb l ""); [discriminate |].
  assert (Hpt : parsePersonType (VerifyBody.personType b) <> Some PUnknown).
  { unfold parsePersonType. destruct (VerifyBody.personType b) as [x |]; [| discriminate].
    destruct (String.eqb x "employee"); [discriminate |].
    destruct (String.eqb x "visitor"); discriminate. }
  destruct (parsePersonType (VerifyBody.personType b)) as [[| |] |];
    [| | contradiction | discriminate]; tx_unfold;
    (destruct (String.eqb (trim l) ""); [discriminate |]);
    cbn [fst snd work oid writes];
    (destruct (faults 0); cbn [fst snd work oid writes]; [discriminate |]);
    (destruct (faults 1); cbn [fst snd work oid writes]; [discriminate |]);
    (destruct (faults 2); cbn [fst snd work oid writes store]; [discriminate |]);
    intros _; exists l; (split; [reflexivity |]).
  - left. cbn [employees visitors faces set_faces set_employees].
    rewrite findById_replaceById; [| intros _ _; exact Hid].
    rewrite Nat.eqb_refl, Hface. cbn. rewrite Hid. auto.
  - right. cbn [employees visitors faces set_faces set_visitors].
    rewrite findById_replaceById; [| intros _ _; exact Hid].
    rewrite Nat.eqb_refl, Hface. cbn. rewrite Hid. auto.
Qed.

Lemma verify_new_person_linked_witness :
  exists l,
    VerifyBody.selectedLabel verifyNewVisitor = Some l
    /\ ((parsePersonType (VerifyBody.personType verifyNewVisitor) = Some PEmployee
         /\ employees (store (snd (verifyFace no_faults 7 reviewer 20 verifyNewVisitor world0)))
            = employees (store world0) ++ [newEmployee (nextOid world0) l 7 20 verifyNewVisitor]
         /\ Employee.faceId (newEmployee (nextOid world0) l 7 20 verifyNewVisitor) = Some 20
         /\ visitors (store (snd (verifyFace no_faults 7 reviewer 20 verifyNewVisitor world0)))
            = visitors (store world0)
         /\ findById Face._id 20
              (faces (store (snd (verifyFace no_faults 7 reviewer 20 verifyNewVisitor world0))))
            = Some (Face.set_person PEmployee (nextOid world0)
                      (verifiedAs reviewer 7 verifyNewVisitor l face20)))
        \/ (parsePersonType (VerifyBody.personType verifyNewVisitor) = Some PVisitor
            /\ visitors (store (snd (verifyFace no_faults 7 reviewer 20 verifyNewVisitor world0)))
               = visitors (store world0)
                 ++ [newVerifiedVisitor (nextOid world0) l 7 20 verifyNewVisitor]
            /\ Visitor.faceId (newVerifiedVisitor (nextOid world0) l 7 20 verifyNewVisitor)
               = Some 20
            /\ employees (store (snd (verifyFace no_faults 7 reviewer 20 verifyNewVisitor world0)))
               = employees (store world0)
            /\ findById Face._id 20
                 (faces (store (snd (verifyFace no_faults 7 reviewer 20 verifyNewVisitor world0))))
               = Some (Face.set_person PVisitor (nextOid world0)
                         (verifiedAs reviewer 7 verifyNewVisitor l face20)))).
Proof.
  apply (verify_new_person_linked no_faults 7 reviewer 20 verifyNewVisitor world0 face20);
    reflexivity.
Defined.

(** X4.  Linking a verified face to a person by id.  When no person of the
    given type has that id the reply is 404 and nothing is written; when
    the person exists and the writes go through, the face takes the type
    and the id and no person is written. *)
Theorem verify_link_by_id (faults : nat -> bool) (now : Date) (u : User.t)
    (id : ObjectId) (b : VerifyBody.t) (w : World) (face : Face.t)
    (l : string) (pid : ObjectId) (pt : PersonType) :
  checkPermission_canVerifyFaces u = true ->
  parseStatus (VerifyBody.status b) = Some Verified ->
  VerifyBody.selectedLabel b = Some l -> l <> "" ->
  VerifyBody.createNewPerson b = false ->
  VerifyBody.personId b = Some pid ->
  parsePersonType (VerifyBody.personType b) = Some pt ->
  findById Face._id id (faces (store w)) = Some face ->
  (personExists pt pid (store w) = false ->
   fst (verifyFace faults now u id b w) = personNotFound pt pid
   /\ store (snd (verifyFace faults now u id b w)) = store w)
  /\ (personExists pt pid (store w) = true ->
      faults 0 = false -> faults 1 = false ->
      res_status (fst (verifyFace faults now u id b w)) = 200
      /\ employees (store (snd (verifyFace faults now u id b w))) = employees (store w)
      /\ visitors (store (snd (verifyFace faults now u id b w))) = visitors (store w)
      /\ findById Face._id id (faces (store (snd (verifyFace faults now u id b w))))
         = Some (Face.set_person pt pid (verifiedAs u now b l face))).
Proof.
  intros Hflag Hst Hl Hne Hnew Hpid Hpt Hface. unfold verifyFace. rewrite Hflag.
  cbn [negb]. unfold withTransaction, verifyFaceBody, verifiedBranch.
  rewrite Hst, Hl, Hnew, Hpid, Hpt.
  destruct (String.eqb_spec l ""); [contradiction |].
  pose proof (findById_id _ _ _ _ _ Hface) as Hid.
  tx_unfold. rewrite Hface. cbn [fst snd work oid writes store nextOid].
  split.
  - intros Hno. rewrite Hno. cbn. auto.
  - intros Hyes Hf0 Hf1. rewrite Hyes. cbn [fst snd work oid writes store nextOid].
    rewrite Hf0. cbn [fst snd work oid writes store nextOid].
    rewrite Hf1. cbn [fst snd work oid writes store nextOid res_status reply
                      employees visitors faces set_faces].
    split; [reflexivity |]. split; [reflexivity |]. split; [reflexivity |].
    rewrite findById_replaceById; [| intros _ _; exact Hid].
    rewrite Nat.eqb_refl, Hface. reflexivity.
Qed.

Lemma verify_link_by_id_witness :
  (fst (verifyFace no_faults 7 reviewer 20 verifyLink77 world0) = personNotFound PVisitor 77
   /\ store (snd (verifyFace no_faults 7 reviewer 20 verifyLink77 world0)) = store world0)
  /\ findById Face._id 20
       (faces (store (snd (verifyFace no_faults 7 reviewer 20 verifyLink77 world77))))
     = Some (Face.set_person PVisitor 77 (verifiedAs reviewer 7 verifyLink77 "Alice" face20)).
Proof.
  split.
  - apply (verify_link_by_id no_faults 7 reviewer 20 verifyLink77 world0 face20
             "Alice" 77 PVisitor); try reflexivity. discriminate.
  - apply (verify_link_by_id no_faults 7 reviewer 20 verifyLink77 world77 face20
             "Alice" 77 PVisitor); try reflexivity. discriminate.
Defined.

(** X5.  A verification with a label and neither a new person nor a person
    id succeeds: the face is stored as verified with that label, and its
    person type and person id stay what they were. *)
Theorem verify_without_person (faults : nat -> bool) (now : Date) (u : User.t)
    (id : ObjectId) (b : VerifyBody.t) (w : World) (face : Face.t) (l : string) :
  checkPermission_canVerifyFaces u = true ->
  parseStatus (VerifyBody.status b) = Some Verified ->
  VerifyBody.selectedLabel b = Some l -> l <> "" ->
  VerifyBody.createNewPerson b = false ->
  VerifyBody.personId b = None ->
  findById Face._id id (faces (store w)) = Some face ->
  faults 0 = false -> faults 1 = false ->
  res_status (fst (verifyFace faults now u id b w)) = 200
  /\ findById Face._id id (faces (store (snd (verifyFace faults now u id b w))))
     = Some (verifiedAs u now b l face)
  /\ Face.personType (verifiedAs u now b l face) = Face.personType face
  /\ Face.personId (verifiedAs u now b l face) = Face.personId face
  /\ employees (store (snd (verifyFace faults now u id b w))) = employees (store w)
  /\ visitors (store (snd (verifyFace faults now u id b w))) = visitors (store w).
Proof.
  intros Hflag Hst Hl Hne Hnew Hpid Hface Hf0 Hf1. unfold verifyFace. rewrite Hflag.
  cbn [negb]. unfold withTransaction, verifyFaceBody, verifiedBranch.
  rewrite Hst, Hl, Hnew, Hpid.
  destruct (String.eqb_spec l ""); [contradiction |].
  pose proof (findById_id _ _ _ _ _ Hface) as Hid.
  tx_unfold. rewrite Hface. cbn [fst snd work oid writes store nextOid].
  rewrite Hf0. cbn [fst snd work oid writes store nextOid].
  rewrite Hf1. cbn [fst snd work oid writes store nextOid res_status reply
                    employees visitors faces set_faces].
  split; [reflexivity |]. split.
  - rewrite findById_replaceById; [| intros _ _; exact Hid].
    rewrite Nat.eqb_refl, Hface. reflexivity.
  - repeat split.
Qed.

Lemma verify_without_person_witness :
  findById Face._id 20
    (faces (store (snd (verifyFace no_faults 7 reviewer 20 verifyLabelOnly world0))))
  = Some (verifiedAs reviewer 7 verifyLabelOnly "Alice" face20)
  /\ Face.personType (verifiedAs reviewer 7 verifyLabelOnly "Alice" face20) = PUnknown.
Proof.
  destruct (verify_without_person no_faults 7 reviewer 20 verifyLabelOnly world0 face20
              "Alice" eq_refl eq_refl eq_refl ltac:(discriminate) eq_refl eq_refl
              eq_refl eq_refl eq_refl) as [_ [Hf [Hpt _]]].
  split; [exact Hf | exact Hpt].
Defined.

(** ** [parseInt] on the decimal text of a number *)

From Stdlib Require DecimalNat DecimalFacts.

Lemma parseDigits_decimal (d : Decimal.uint) (acc : nat) :
  parseDigits 10 acc (DecimalString.NilEmpty.string_of_uint d) = Nat.of_uint_acc d acc.
Proof.
  revert acc. induction d; intros acc; cbn [DecimalString.NilEmpty.string_of_uint
    parseDigits Nat.of_uint_acc]; try reflexivity;
    change (digitValue "0") with (Some 0); change (digitValue "1") with (Some 1);
    change (digitValue "2") with (Some 2); change (digitValue "3") with (Some 3);
    change (digitValue "4") with (Some 4); change (digitValue "5") with (Some 5);
    change (digitValue "6") with (Some 6); change (digitValue "7") with (Some 7);
    change (digitValue "8") with (Some 8); change (digitValue "9") with (Some 9);
    cbv iota beta; cbn [Nat.ltb Nat.leb]; rewrite IHd, Nat.tail_mul_spec;
    f_equal; lia.
Qed.

Lemma to_uint_nonnil (n : nat) : Nat.to_uint n <> Decimal.Nil.
Proof.
  rewrite <- (DecimalNat.Unsigned.of_to n) at 1.
  rewrite DecimalNat.Unsigned.to_of. apply DecimalFacts.unorm_nonnil.
Qed.

(** Reading back the decimal text of a number gives the number. *)
Lemma parseInt_natToString (n : nat) :
  parseInt (natToString n)
  = Some {| ParsedInt.negative := false; ParsedInt.magnitude := n |}.
Proof.
  unfold natToString.
  pose proof (to_uint_nonnil n) as Hnil.
  pose proof (DecimalNat.Unsigned.of_to n) as Hof. unfold Nat.of_uint in Hof.
  rewrite <- (parseDigits_decimal (Nat.to_uint n) 0) in Hof.
  destruct (Nat.to_uint n) as [| d | d | d | d | d | d | d | d | d | d];
    [contradiction | ..]; rewrite <- Hof; destruct d; reflexivity.
Qed.

(** ** The continuation and the routes that read a job *)

Lemma jobById_updateJob (id : ObjectId) (f : ExtractedFace.t -> ExtractedFace.t)
    (d : DB) (j : ExtractedFace.t) :
  (forall x, ExtractedFace._id (f x) = ExtractedFace._id x) ->
  jobById id d = Some j ->
  jobById id (updateJob id f d) = Some (f j).
Proof.
  intros Hf Hj. unfold jobById, updateJob in *. cbn [extractedFaces set_extractedFaces].
  rewrite findById_replaceById; [| intros x Hx; rewrite Hf; exact Hx].
  rewrite Nat.eqb_refl, Hj. reflexivity.
Qed.

(** X6.  When the provider reports a failure, an invalid upload or no
    face, the continuation sets the status to [failed] and the message to
    the message of the provider, or to the default of the branch when the
    provider gave none; the clusters, the face count and [updatedAt] of
    the job are left as they were. *)
Theorem continuation_records_failure (faults : nat -> bool) (now : Date)
    (doc : ExtractedFace.t) (r : ProviderResult.t) (d : DB) (j : ExtractedFace.t) :
  faults 0 = false ->
  jobById (ExtractedFace._id doc) d = Some j ->
  providerFailed r = true ->
  jobById (ExtractedFace._id doc) (extractContinuation faults now doc (Returned r) d)
  = Some (ExtractedFace.set_outcome Failed (failureMessage r) j).
Proof.
  intros Hf Hj Hfail. unfold extractContinuation, orCatch, failureMessage.
  unfold providerFailed in Hfail. rewrite Hf.
  destruct (negb (ProviderResult.success r)).
  - apply jobById_updateJob; [reflexivity | exact Hj].
  - cbn [orb] in Hfail. rewrite Hfail.
    apply jobById_updateJob; [reflexivity | exact Hj].
Qed.

Lemma continuation_records_failure_witness :
  option_map (fun j => (ExtractedFace.status j, ExtractedFace.processingMessage j,
                        ExtractedFace.updatedAt j))
    (jobById 30 (extractContinuation no_faults 9 job30 (Returned noFaces) db30))
  = Some (Failed, "No face found", 4).
Proof.
  pose proof (continuation_records_failure no_faults 9 job30 noFaces db30 job30
                eq_refl eq_refl eq_refl) as H.
  change (ExtractedFace._id job30) with 30 in H. rewrite H. reflexivity.
Defined.

Lemma imageData_mapi_from (fileId clusterId : string) (imgs : list Buffer) (i : nat) :
  map Crop.imageData
    (mapi_from i
       (fun face index =>
          {| Crop.imageUrl :=
               "face_" ++ fileId ++ "_" ++ clusterId ++ "_"
               ++ natToString index ++ ".jpg";
             Crop.imageData := Some face |}) imgs)
  = map Some imgs.
Proof.
  revert i. induction imgs as [| x t IH]; intros i; cbn; [reflexivity |].
  rewrite IH. reflexivity.
Qed.

Lemma buildCluster_builtFrom (fileId : string) (entry : string * list Buffer) :
  builtFrom entry (buildCluster fileId entry).
Proof.
  destruct entry as [cid imgs]. unfold builtFrom, buildCluster.
  cbn [Cluster.clusterId Cluster.faces Cluster.representativeFace
       Cluster.proposedLabels Cluster.selectedLabel fst snd].
  split; [reflexivity |]. split; [apply imageData_mapi_from |].
  split; [destruct imgs; reflexivity |]. split; reflexivity.
Qed.

(** X7.  When the provider reports faces, the continuation sets the status
    to [completed], the face count to the count of the provider, and
    stores one cluster per group of the provider, in the order of the
    groups: each with the id of its group, one crop per face, the first
    face as its representative and no label. *)
Theorem continuation_stores_clusters (faults : nat -> bool) (now : Date)
    (doc : ExtractedFace.t) (r : ProviderResult.t) (d : DB) (j : ExtractedFace.t) :
  faults 0 = false ->
  jobById (ExtractedFace._id doc) d = Some j ->
  providerFailed r = false ->
  exists j',
    jobById (ExtractedFace._id doc) (extractContinuation faults now doc (Returned r) d)
    = Some j'
    /\ ExtractedFace.status j' = Completed
    /\ ExtractedFace.facesCount j' = ProviderResult.face_count r
    /\ ExtractedFace.updatedAt j' = now
    /\ ExtractedFace.isLabeled j' = ExtractedFace.isLabeled j
    /\ ExtractedFace.uploadedBy j' = ExtractedFace.uploadedBy j
    /\ Forall2 builtFrom (ProviderResult.clusters r) (ExtractedFace.clusters j').
Proof.
  intros Hf Hj Hok. unfold extractContinuation, orCatch.
  unfold providerFailed in Hok. rewrite Hf.
  apply orb_false_iff in Hok. destruct Hok as [Hok Hcount].
  apply orb_false_iff in Hok. destruct Hok as [Hsucc Hvalid].
  rewrite Hsucc, Hvalid, Hcount. cbn [orb].
  eexists. split; [apply jobById_updateJob; [reflexivity | exact Hj] |].
  cbn. repeat split.
  induction (ProviderResult.clusters r) as [| e t IH]; cbn; constructor;
    [apply buildCluster_builtFrom | exact IH].
Qed.

Lemma continuation_stores_clusters_witness :
  exists j',
    jobById 30 (extractContinuation no_faults 9 job30 (Returned twoGroups) db30) = Some j'
    /\ ExtractedFace.status j' = Completed
    /\ ExtractedFace.facesCount j' = 3
    /\ ExtractedFace.updatedAt j' = 9
    /\ ExtractedFace.isLabeled j' = false
    /\ ExtractedFace.uploadedBy j' = 1
    /\ Forall2 builtFrom (ProviderResult.clusters twoGroups) (ExtractedFace.clusters j').
Proof.
  apply (continuation_stores_clusters no_faults 9 job30 twoGroups db30 job30);
    reflexivity.
Defined.

Lemma find_buildCluster (fileId cid : string) (entries : list (string * list Buffer)) :
  find (hasClusterId cid) (map (buildCluster fileId) entries)
  = option_map (buildCluster fileId) (find (hasKey cid) entries).
Proof.
  induction entries as [| [k imgs] t IH]; cbn; [reflexivity |].
  unfold hasClusterId at 1, hasKey at 1. cbn.
  destruct (String.eqb k cid); [reflexivity | exact IH].
Qed.

Lemma nth_error_mapi_from (A B : Type) (f : A -> nat -> B) (l : list A) (k i : nat) :
  nth_error (mapi_from k f l) i = option_map (fun x => f x (k + i)) (nth_error l i).
Proof.
  revert k i. induction l as [| x t IH]; intros k [| i]; cbn; try reflexivity.
  - rewrite Nat.add_0_r. reflexivity.
  - rewrite IH. replace (S k + i) with (k + S i) by lia. reflexivity.
Qed.

Lemma length_mapi_from (A B : Type) (f : A -> nat -> B) (l : list A) (k : nat) :
  List.length (mapi_from k f l) = List.length l.
Proof.
  revert k. induction l as [| x t IH]; intros k; cbn; [reflexivity |].
  rewrite IH. reflexivity.
Qed.

Lemma cannotAccessExtraction_uploadedBy (u : User.t) (j j' : ExtractedFace.t) :
  ExtractedFace.uploadedBy j' = ExtractedFace.uploadedBy j ->
  cannotAccessExtraction u j' = cannotAccessExtraction u j.
Proof. unfold cannotAccessExtraction. intros ->. reflexivity. Qed.

(** What the continuation stores on success, as a document. *)
Lemma continuation_completed_doc (faults : nat -> bool) (now : Date)
    (doc : ExtractedFace.t) (r : ProviderResult.t) (d : DB) (j : ExtractedFace.t) :
  faults 0 = false ->
  jobById (ExtractedFace._id doc) d = Some j ->
  providerFailed r = false ->
  exists j',
    jobById (ExtractedFace._id doc) (extractContinuation faults now doc (Returned r) d)
    = Some j'
    /\ ExtractedFace.status j' = Completed
    /\ ExtractedFace.uploadedBy j' = ExtractedFace.uploadedBy j
    /\ ExtractedFace.clusters j'
       = map (buildCluster (ExtractedFace.fileId doc)) (ProviderResult.clusters r).
Proof.
  intros Hf Hj Hok. unfold extractContinuation, orCatch.
  unfold providerFailed in Hok. rewrite Hf.
  apply orb_false_iff in Hok. destruct Hok as [Hok Hcount].
  apply orb_false_iff in Hok. destruct Hok as [Hsucc Hvalid].
  rewrite Hsucc, Hvalid, Hcount. cbn [orb].
  eexists. split; [apply jobById_updateJob; [reflexivity | exact Hj] |].
  cbn. repeat split.
Qed.

(** X8.  The bytes the provider gave come back: after the continuation has
    stored the clusters, the crop route, asked for the [i]-th face of a
    group by the decimal text of [i], sends the [i]-th image of that group
    to a caller who may read the job. *)
Theorem crop_round_trip (faults : nat -> bool) (now : Date) (doc : ExtractedFace.t)
    (r : ProviderResult.t) (d : DB) (j : ExtractedFace.t) (u : User.t)
    (cid : string) (group : string * list Buffer) (i : nat) (img : Buffer) :
  faults 0 = false ->
  jobById (ExtractedFace._id doc) d = Some j ->
  providerFailed r = false ->
  cannotAccessExtraction u j = false ->
  find (hasKey cid) (ProviderResult.clusters r) = Some group ->
  nth_error (snd group) i = Some img ->
  getFaceImage u (ExtractedFace._id doc) cid (natToString i)
    (extractContinuation faults now doc (Returned r) d)
  = (reply 200 "", Some img).
Proof.
  intros Hf Hj Hok Hacc Hgroup Himg.
  destruct (continuation_completed_doc faults now doc r d j Hf Hj Hok)
    as [j' [Hj' [_ [Hup Hcl]]]].
  unfold getFaceImage. unfold jobById in Hj'. rewrite Hj'.
  rewrite (cannotAccessExtraction_uploadedBy u j j' Hup), Hacc.
  rewrite Hcl, find_buildCluster, Hgroup. cbn [option_map].
  rewrite parseInt_natToString. cbn [isNegative ParsedInt.negative andb orb
                                    ParsedInt.magnitude].
  destruct group as [k imgs]. cbn [snd] in Himg.
  unfold buildCluster. cbn [Cluster.faces].
  rewrite length_mapi_from.
  assert (Hlt : i < List.length imgs) by (apply nth_error_Some; congruence).
  destruct (Nat.leb_spec (List.length imgs) i); [lia |].
  rewrite nth_error_mapi_from, Himg. reflexivity.
Qed.

Lemma crop_round_trip_witness :
  getFaceImage alice 30 "0" "1"
    (extractContinuation no_faults 9 job30 (Returned twoGroups) db30)
  = (reply 200 "", Some "a1").
Proof.
  apply (crop_round_trip no_faults 9 job30 twoGroups db30 job30 alice "0"
           ("0", ["a0"; "a1"]) 1 "a1"); reflexivity.
Defined.

(** X9.  After the continuation has stored the clusters, the cluster
    listing shows to a caller who may read the job one entry per group of
    the provider, in order, with the number of faces of the group and no
    label. *)
Theorem listing_after_continuation (faults : nat -> bool) (now : Date)
    (doc : ExtractedFace.t) (r : ProviderResult.t) (d : DB) (j : ExtractedFace.t)
    (u : User.t) :
  faults 0 = false ->
  jobById (ExtractedFace._id doc) d = Some j ->
  providerFailed r = false ->
  cannotAccessExtraction u j = false ->
  exists views,
    listClusters u (ExtractedFace._id doc)
      (extractContinuation faults now doc (Returned r) d)
    = (reply 200 "", Some views)
    /\ Forall2 showsGroup (ProviderResult.clusters r) views.
Proof.
  intros Hf Hj Hok Hacc.
  destruct (continuation_completed_doc faults now doc r d j Hf Hj Hok)
    as [j' [Hj' [Hst [Hup Hcl]]]].
  unfold listClusters. unfold jobById in Hj'. rewrite Hj'.
  rewrite (cannotAccessExtraction_uploadedBy u j j' Hup), Hacc, Hst.
  cbn [JobStatus_eqb negb]. eexists. split; [reflexivity |].
  rewrite Hcl. generalize (ProviderResult.clusters r). clear.
  intros entries. induction entries as [| [k imgs] t IH]; cbn; [constructor |].
  constructor; [| exact IH].
  unfold showsGroup. cbn. rewrite length_map, length_mapi_from. auto.
Qed.

Lemma listing_after_continuation_witness :
  exists views,
    listClusters alice 30 (extractContinuation no_faults 9 job30 (Returned twoGroups) db30)
    = (reply 200 "", Some views)
    /\ Forall2 showsGroup (ProviderResult.clusters twoGroups) views.
Proof.
  apply (listing_after_continuation no_faults 9 job30 twoGroups db30 job30 alice);
    reflexivity.
Defined.

(** ** Who may read, label and complete a job *)

Lemma cannotAccess_outsider (u : User.t) (job : ExtractedFace.t) :
  cannotAccessExtraction u job = true <-> outsider u job.
Proof.
  unfold cannotAccessExtraction, outsider. split.
  - intros H. repeat (apply andb_true_iff in H; destruct H as [H ?]).
    repeat split.
    + intros E. rewrite E, Nat.eqb_refl in H. discriminate.
    + destruct (User.role u); [discriminate | discriminate | reflexivity].
    + destruct (Permissions.canViewAllData (User.permissions u));
        [discriminate | reflexivity].
  - intros [Hup [Hrole Hview]]. rewrite Hrole, Hview.
    destruct (Nat.eqb_spec (ExtractedFace.uploadedBy job) (User._id u));
      [contradiction | reflexivity].
Qed.

(** X10.  The status route, the cluster listing, the crop route and the
    cluster-label route share one rule.  A caller who is neither the
    uploader of the job, nor admin or manager, nor a holder of
    [canViewAllData] gets 403 from each, with no data and no write; every
    other caller gets the status summary and never a 403. *)
Theorem extraction_access_rule (u : User.t) (id : ObjectId) (d : DB)
    (job : ExtractedFace.t) :
  jobById id d = Some job ->
  (outsider u job ->
   res_status (fst (getExtractionStatus u id d)) = 403
   /\ snd (getExtractionStatus u id d) = None
   /\ res_status (fst (listClusters u id d)) = 403
   /\ snd (listClusters u id d) = None
   /\ (forall cid idx,
         res_status (fst (getFaceImage u id cid idx d)) = 403
         /\ snd (getFaceImage u id cid idx d) = None)
   /\ (forall faults now cid l, l <> "" ->
         res_status (fst (labelCluster faults now u id cid (Some l) d)) = 403
         /\ snd (labelCluster faults now u id cid (Some l) d) = d))
  /\ (~ outsider u job ->
      getExtractionStatus u id d = (reply 200 "", Some (summarize job))
      /\ res_status (fst (listClusters u id d)) <> 403
      /\ (forall cid idx, res_status (fst (getFaceImage u id cid idx d)) <> 403)
      /\ (forall faults now cid label,
            res_status (fst (labelCluster faults now u id cid label d)) <> 403)).
Proof.
  intros Hjob. unfold jobById in Hjob. split; intros Hout.
  - apply cannotAccess_outsider in Hout.
    unfold getExtractionStatus, listClusters. rewrite Hjob, Hout. cbn.
    repeat split.
    + unfold getFaceImage. rewrite Hjob, Hout. reflexivity.
    + unfold getFaceImage. rewrite Hjob, Hout. reflexivity.
    + unfold labelCluster. destruct (String.eqb_spec l ""); [contradiction |].
      rewrite Hjob, Hout. reflexivity.
    + unfold labelCluster. destruct (String.eqb_spec l ""); [contradiction |].
      rewrite Hjob, Hout. reflexivity.
  - assert (Hacc : cannotAccessExtraction u job = false).
    { destruct (cannotAccessExtraction u job) eqn:E; [| reflexivity].
      exfalso. apply Hout, cannotAccess_outsider, E. }
    unfold getExtractionStatus, listClusters. rewrite Hjob, Hacc.
    split; [reflexivity |]. split.
    + destruct (negb _); cbn; discriminate.
    + split.
      * intros cid idx. unfold getFaceImage. rewrite Hjob, Hacc.
        destruct (find _ _); [| cbn; discriminate].
        destruct (parseInt idx); [| cbn; discriminate].
        destruct (_ || _); [cbn; discriminate |].
        destruct (nth_error _ _) as [crop |]; [| cbn; discriminate].
        destruct (Crop.imageData crop); cbn; discriminate.
      * intros faults now cid label. unfold labelCluster.
        destruct label as [l |]; [| cbn; discriminate].
        destruct (String.eqb l ""); [cbn; discriminate |].
        rewrite Hjob, Hacc.
        destruct (findIndex _ _); [| cbn; discriminate].
        destruct (faults 0); cbn; discriminate.
Qed.

Lemma extraction_access_rule_witness :
  (res_status (fst (getExtractionStatus bob 10 (store world0))) = 403
   /\ snd (getExtractionStatus bob 10 (store world0)) = None)
  /\ getExtractionStatus auditor 10 (store world0) = (reply 200 "", Some (summarize job10)).
Proof.
  destruct (extraction_access_rule bob 10 (store world0) job10 eq_refl) as [Hout _].
  destruct (extraction_access_rule auditor 10 (store world0) job10 eq_refl) as [_ Hin].
  split.
  - destruct Hout as [H1 [H2 _]]; [| split; assumption].
    unfold outsider. cbn. repeat split. discriminate.
  - apply Hin. unfold outsider. cbn. intros [_ [_ H]]. discriminate.
Defined.

Lemma forEach_completeCluster_no_reply (faults : nat -> bool) (now : Date)
    (u : User.t) (cs : list Cluster.t) (s s' : Session) (r : Response) :
  forEach (completeCluster faults now u) cs s <> (Respond r, s').
Proof.
  revert s. induction cs as [| c t IH]; intros s; cbn.
  - discriminate.
  - unfold bind.
    destruct (completeCluster faults now u c s) as [[b | r0 | e] s1] eqn:Hc.
    + apply IH.
    + exfalso. revert Hc. unfold completeCluster, resolvePerson.
      tx_unfold. tx_split.
    + discriminate.
Qed.

Lemma completeLabeling_permitted (faults : nat -> bool) (now : Date) (u : User.t)
    (id : ObjectId) (w : World) (job : ExtractedFace.t) :
  jobById id (store w) = Some job -> canComplete u job = true ->
  res_status (fst (completeLabeling faults now u id w)) = 200
  \/ res_status (fst (completeLabeling faults now u id w)) = 500.
Proof.
  intros Hjob Hmay. unfold jobById in Hjob. unfold completeLabeling.
  rewrite Hjob, Hmay. cbn [negb]. unfold withTransaction.
  destruct (completeLabelingBody faults now u job _) as [[r | r | e] s1] eqn:Hbody;
    cbn [fst res_status reply]; [| | right; reflexivity];
    revert Hbody; unfold completeLabelingBody; unfold bind at 1;
    destruct (forEach _ _ _) as [[a | r0 | e0] s0] eqn:Hloop.
  - tx_unfold. tx_split. intros H. injection H as <- _. left. reflexivity.
  - exfalso. exact (forEach_completeCluster_no_reply _ _ _ _ _ _ _ Hloop).
  - discriminate.
  - tx_unfold. tx_split.
  - exfalso. exact (forEach_completeCluster_no_reply _ _ _ _ _ _ _ Hloop).
  - discriminate.
Qed.

(** X11.  Completing a job follows another rule than reading and labelling
    it.  A holder of [canVerifyFaces] who may not read the job can
    complete it; a holder of [canViewAllData] who is a plain user and not
    the uploader can read and label it, and is refused 403 when
    completing, with nothing written. *)
Theorem completion_rule_differs (faults : nat -> bool) (now : Date) (u : User.t)
    (id : ObjectId) (w : World) (job : ExtractedFace.t) :
  jobById id (store w) = Some job ->
  ExtractedFace.uploadedBy job <> User._id u ->
  User.role u = RUser ->
  (Permissions.canVerifyFaces (User.permissions u) = true ->
   Permissions.canViewAllData (User.permissions u) = false ->
   res_status (fst (getExtractionStatus u id (store w))) = 403
   /\ res_status (fst (completeLabeling faults now u id w)) <> 403)
  /\ (Permissions.canVerifyFaces (User.permissions u) = false ->
      Permissions.canViewAllData (User.permissions u) = true ->
      res_status (fst (getExtractionStatus u id (store w))) = 200
      /\ completeLabeling faults now u id w
         = (reply 403 "You do not have permission to complete this labeling", w)).
Proof.
  intros Hjob Hup Hrole. split; intros Hver Hview.
  - split.
    + assert (Hout : cannotAccessExtraction u job = true)
        by (apply cannotAccess_outsider; repeat split; assumption).
      unfold getExtractionStatus. unfold jobById in Hjob. rewrite Hjob, Hout.
      reflexivity.
    + assert (Hmay : canComplete u job = true).
      { unfold canComplete. rewrite Hver. repeat rewrite orb_true_r. reflexivity. }
      destruct (completeLabeling_permitted faults now u id w job Hjob Hmay) as [H | H];
        rewrite H; discriminate.
  - split.
    + assert (Hin : cannotAccessExtraction u job = false).
      { destruct (cannotAccessExtraction u job) eqn:Hc; [| reflexivity].
        apply cannotAccess_outsider in Hc. destruct Hc as [_ [_ H]]. congruence. }
      unfold getExtractionStatus. unfold jobById in Hjob. rewrite Hjob, Hin.
      reflexivity.
    + unfold completeLabeling. unfold jobById in Hjob. rewrite Hjob.
      unfold canComplete. rewrite Hver, Hrole.
      destruct (Nat.eqb_spec (ExtractedFace.uploadedBy job) (User._id u));
        [contradiction | reflexivity].
Qed.

Lemma completion_rule_differs_witness :
  (res_status (fst (getExtractionStatus reviewer 10 (store world0))) = 403
   /\ res_status (fst (completeLabeling no_faults 7 reviewer 10 world0)) <> 403)
  /\ (res_status (fst (getExtractionStatus auditor 10 (store world0))) = 200
      /\ completeLabeling no_faults 7 auditor 10 world0
         = (reply 403 "You do not have permission to complete this labeling", world0)).
Proof.
  split.
  - apply (completion_rule_differs no_faults 7 reviewer 10 world0 job10);
      try reflexivity. discriminate.
  - apply (completion_rule_differs no_faults 7 auditor 10 world0 job10);
      try reflexivity. discriminate.
Defined.

(** ** The shape of a job *)

Lemma extractContinuation_shape (faults : nat -> bool) (now : Date)
    (doc : ExtractedFace.t) (outcome : BridgeOutcome) (d : DB) :
  extractedFaces (extractContinuation faults now doc outcome d) = extractedFaces d
  \/ exists f,
       extractedFaces (extractContinuation faults now doc outcome d)
       = replaceById ExtractedFace._id (ExtractedFace._id doc) f (extractedFaces d)
       /\ forall j,
            (ExtractedFace.status (f j) = Failed
             /\ ExtractedFace.clusters (f j) = ExtractedFace.clusters j
             /\ ExtractedFace.facesCount (f j) = ExtractedFace.facesCount j)
            \/ (ExtractedFace.status (f j) = Completed
                /\ ExtractedFace.facesCount (f j) <> 0).
Proof.
  unfold extractContinuation, orCatch, updateJob.
  destruct outcome as [r | e].
  - destruct (negb (ProviderResult.success r));
      [| destruct (negb (ProviderResult.is_valid r)) eqn:Hvalid;
         [| destruct (Nat.eqb_spec (ProviderResult.face_count r) 0) as [Hc | Hc]]];
      cbn [orb];
      destruct (faults 0); try destruct (faults 1);
      try (left; reflexivity);
      right; eexists; (split; [reflexivity |]); intros j; cbn; auto.
  - destruct (faults 0); [left; reflexivity |].
    right. eexists. split; [reflexivity |]. intros j. cbn. auto.
Qed.

Lemma labelCluster_shape (faults : nat -> bool) (now : Date) (u : User.t)
    (id : ObjectId) (cid : string) (label : option string) (d : DB)
    (j' : ExtractedFace.t) :
  In j' (extractedFaces (snd (labelCluster faults now u id cid label d))) ->
  exists j,
    In j (extractedFaces d)
    /\ ExtractedFace.status j' = ExtractedFace.status j
    /\ ExtractedFace.facesCount j' = ExtractedFace.facesCount j
    /\ (ExtractedFace.clusters j = [] -> ExtractedFace.clusters j' = []).
Proof.
  unfold labelCluster.
  assert (Hsame : In j' (extractedFaces d) ->
            exists j, In j (extractedFaces d)
              /\ ExtractedFace.status j' = ExtractedFace.status j
              /\ ExtractedFace.facesCount j' = ExtractedFace.facesCount j
              /\ (ExtractedFace.clusters j = [] -> ExtractedFace.clusters j' = []))
    by (intros H; exists j'; auto).
  destruct label as [l |]; [| exact Hsame].
  destruct (String.eqb l ""); [exact Hsame |].
  destruct (findById ExtractedFace._id id (extractedFaces d)) as [job |] eqn:Hjob;
    [| exact Hsame].
  destruct (cannotAccessExtraction u job); [exact Hsame |].
  destruct (findIndex _ (ExtractedFace.clusters job)) as [ci |]; [| exact Hsame].
  destruct (faults 0); [exact Hsame |].
  cbn [snd extractedFaces set_extractedFaces]. intros Hin.
  destruct (In_replaceById _ _ _ _ _ _ Hin) as [Hold | [j0 [_ [_ ->]]]];
    [exact (Hsame Hold) |].
  exists job. split; [exact (findById_In _ _ _ _ _ Hjob) |]. cbn.
  repeat split. intros ->. destruct ci; reflexivity.
Qed.

Lemma shapedSystem_step (op : Op) (s : System) :
  shapedSystem s -> shapedSystem (step op s).
Proof.
  intros [Hinv Hshape]. split; [exact (proj1 (systemInv_step op s Hinv)) |].
  destruct op as [ep h faults b | faults now u id label | faults now u id b
                  | faults now u file ft sid | faults now id outcome
                  | faults now u id cid label | faults now u id];
    cbn [step]; unfold jobsOf in *.
  - destruct (register_effect ep h faults b (world s)) as [_ [Hj _]].
    cbn [world]. rewrite Hj. exact Hshape.
  - cbn [world onStore store]. rewrite proposeFaceLabel_jobs. exact Hshape.
  - destruct (verifyFace_effect faults now u id b (world s)) as [Hj _].
    cbn [world]. rewrite Hj. exact Hshape.
  - unfold extractFaces. destruct file as [f |]; [| exact Hshape].
    destruct (faults 0); cbn; [exact Hshape |].
    intros j Hin. apply in_app_or in Hin. destruct Hin as [Hin | [<- | []]].
    + exact (Hshape j Hin).
    + right. cbn. repeat split. discriminate.
  - destruct (find (isJob id) (pending s)) as [doc |] eqn:Hdoc; [| exact Hshape].
    apply find_some in Hdoc. destruct Hdoc as [Hpend Hid].
    cbn [world onStore store].
    destruct (extractContinuation_shape faults now doc outcome (store (world s)))
      as [Hsame | [f [Hjobs Hf]]].
    + rewrite Hsame. exact Hshape.
    + rewrite Hjobs. intros j' Hin.
      destruct (In_replaceById _ _ _ _ _ _ Hin) as [Hold | [j [Hj [Hjid ->]]]];
        [exact (Hshape j' Hold) |].
      destruct Hinv as [_ [_ [_ [_ Hproc]]]].
      assert (Hst : ExtractedFace.status j = Processing)
        by (apply (Hproc doc j Hpend Hj); exact Hjid).
      destruct (Hf j) as [[Hfail [Hcl Hcount]] | [Hdone Hcount]].
      * right. rewrite Hfail, Hcl, Hcount.
        destruct (Hshape j Hj) as [[Hc _] | [_ [H1 H2]]]; [congruence |].
        repeat split; [discriminate | exact H1 | exact H2].
      * left. auto.
  - cbn [world onStore store]. intros j' Hin.
    destruct (labelCluster_shape faults now u id cid label _ j' Hin)
      as [j [Hj [Hst [Hcount Hcl]]]].
    destruct (Hshape j Hj) as [[Hc Hn] | [Hc [H1 H2]]].
    + left. rewrite Hst, Hcount. auto.
    + right. rewrite Hst, Hcount. auto.
  - destruct (completeLabeling_effect faults now u id (world s))
      as [_ [Hsame | [job [added [Hjob [Hjobs _]]]]]]; cbn [world].
    + rewrite Hsame. exact Hshape.
    + rewrite Hjobs. intros j' Hin.
      destruct (In_replaceById _ _ _ _ _ _ Hin) as [Hold | [j [_ [_ ->]]]];
        [exact (Hshape j' Hold) |].
      exact (Hshape job (findById_In _ _ _ _ _ Hjob)).
Qed.

(** X12.  In every state the system reaches from the empty one, a
    completed job counts at least one face, and a job that is processing
    or failed has no cluster and counts no face: clusters appear with the
    step to [completed] and at no other time. *)
Theorem clusters_only_when_completed (ops : list Op) (j : ExtractedFace.t) :
  In j (jobsOf (run ops initialSystem)) -> jobShape j.
Proof.
  assert (H : shapedSystem (run ops initialSystem)).
  { unfold run.
    assert (H0 : shapedSystem initialSystem)
      by (split; [exact systemInv_initial | intros x []]).
    revert H0. generalize initialSystem.
    induction ops as [| op t IH]; intros s Hs; cbn; [exact Hs |].
    apply IH, shapedSystem_step, Hs. }
  destruct H as [_ H]. exact (H j).
Qed.

Lemma clusters_only_when_completed_witness :
  jobShape
    {| ExtractedFace._id := 1; ExtractedFace.fileId := "0";
       ExtractedFace.fileName := "door.mp4"; ExtractedFace.fileType := Video;
       ExtractedFace.uploadedBy := 1; ExtractedFace.facesCount := 0;
       ExtractedFace.clusters := []; ExtractedFace.status := Processing;
       ExtractedFace.processingMessage := "Extracting faces from uploaded file...";
       ExtractedFace.createdAt := 1; ExtractedFace.updatedAt := 3;
       ExtractedFace.isLabeled := true; ExtractedFace.sessionId := "0" |}.
Proof.
  apply (clusters_only_when_completed whileBridgeIsOut). cbn. left. reflexivity.
Defined.

(** ** The faces the completion stores *)

Lemma visitorsKept_refl (d : DB) : visitorsKept d d.
Proof. intros v Hv. exists v. auto. Qed.

Lemma visitorsKept_trans (d1 d2 d3 : DB) :
  visitorsKept d1 d2 -> visitorsKept d2 d3 -> visitorsKept d1 d3.
Proof.
  intros H12 H23 v Hv.
  destruct (H12 v Hv) as [v2 [Hv2 [Hi2 Hn2]]].
  destruct (H23 v2 Hv2) as [v3 [Hv3 [Hi3 Hn3]]].
  exists v3. split; [exact Hv3 |]. split; congruence.
Qed.

Lemma visitor_relinked (fid pid : ObjectId) (vs : list Visitor.t) (v : Visitor.t) :
  In v vs ->
  exists v', In v' (replaceById Visitor._id pid (Visitor.set_faceId (Some fid)) vs)
             /\ Visitor._id v' = Visitor._id v
             /\ Visitor.name v' = Visitor.name v.
Proof.
  intros Hv. unfold replaceById.
  exists (if Nat.eqb (Visitor._id v) pid
          then Visitor.set_faceId (Some fid) v else v).
  split; [apply (in_map (fun d => if Nat.eqb (Visitor._id d) pid
                                  then Visitor.set_faceId (Some fid) d else d)), Hv |].
  destruct (Nat.eqb (Visitor._id v) pid); split; reflexivity.
Qed.

Lemma refersTo_kept (f : Face.t) (l : string) (d d' : DB) :
  employees d' = employees d -> visitorsKept d d' ->
  refersTo f l d -> refersTo f l d'.
Proof.
  intros He Hv [[Hpt Hemp] | [Hpt [Hnone [v [Hin [Hid Hname]]]]]].
  - left. rewrite He. auto.
  - right. split; [exact Hpt |]. unfold findEmployeeByName in *. rewrite He.
    split; [exact Hnone |].
    destruct (Hv v Hin) as [v' [Hin' [Hid' Hname']]].
    exists v'. split; [exact Hin' |]. split; congruence.
Qed.

Lemma promotes_kept (u : User.t) (now : Date) (c : Cluster.t) (f : Face.t)
    (d d' : DB) :
  employees d' = employees d -> visitorsKept d d' ->
  promotes u now d c f -> promotes u now d' c f.
Proof.
  intros He Hv [l [img [H1 [H2 [H3 [H4 [H5 [H6 [H7 H8]]]]]]]]]. exists l, img.
  repeat (split; [assumption |]). exact (refersTo_kept f l d d' He Hv H8).
Qed.

Lemma all_promotes_kept (u : User.t) (now : Date) (cs : list Cluster.t)
    (fs : list Face.t) (d d' : DB) :
  employees d' = employees d -> visitorsKept d d' ->
  Forall2 (promotes u now d) cs fs -> Forall2 (promotes u now d') cs fs.
Proof.
  intros He Hv Hall.
  induction Hall as [| c f cs' fs' Hcf _ IH]; [constructor |].
  constructor; [exact (promotes_kept u now c f d d' He Hv Hcf) | exact IH].
Qed.

Lemma completeCluster_promotes (faults : nat -> bool) (now : Date) (u : User.t)
    (c : Cluster.t) (s s' : Session) (a : unit) :
  completeCluster faults now u c s = (Value a, s') ->
  employees (work s') = employees (work s)
  /\ visitorsKept (work s) (work s')
  /\ exists added,
       faces (work s') = faces (work s) ++ added
       /\ Forall2 (promotes u now (work s')) (filter isPromotable [c]) added.
Proof.
  unfold completeCluster. cbn [filter]. unfold isPromotable.
  destruct (promotable c) as [[l img] |] eqn:Hp.
  2: { unfold ret. intros H. injection H as _ <-.
       split; [reflexivity |]. split; [apply visitorsKept_refl |].
       exists []. rewrite app_nil_r. split; [reflexivity | constructor]. }
  unfold resolvePerson, findEmployeeByName, findVisitorByName.
  tx_unfold. intros H.
  tx_split; cbn [employees visitors faces set_faces set_visitors] in *.
  all: split; [reflexivity |].
  all: split;
    [ intros v0 Hv0;
      try (apply visitor_relinked);
      try (apply in_or_app; left);
      try (exists v0; split; [first [exact Hv0 | apply in_or_app; left; exact Hv0] |
                              split; reflexivity]);
      try exact Hv0
    | ].
  all: eexists; split; [reflexivity |].
  all: constructor; [| constructor].
  all: exists l, img; repeat (split; [first [reflexivity | exact Hp] |]).
  all: unfold refersTo, findEmployeeByName;
       cbn [Face.personType Face.personId newExtractedFace
            employees visitors set_faces set_visitors].
  all: try (left; split; [reflexivity |];
            match goal with
            | H : find _ (employees _) = Some ?e |- _ =>
              apply find_some in H; destruct H as [Hin Hname];
              apply String.eqb_eq in Hname; exists e; auto
            end).
  all: right; split; [reflexivity |]; split; [assumption |].
  all: try (apply visitor_relinked).
  all: try match goal with
       | H : find _ (visitors _) = Some ?v |- _ =>
         apply find_some in H; destruct H as [Hin Hname];
         apply String.eqb_eq in Hname
       end.
  all: try (eexists; split; [eassumption | split; [reflexivity | assumption]]).
  all: try (eexists; split; [apply in_or_app; right; left; reflexivity |
                             split; reflexivity]).
  - destruct (visitor_relinked (S (oid s)) (Visitor._id t) _ t Hin)
      as [v' [Hin' [Hid' Hname']]].
    exists v'. split; [exact Hin' |]. split; congruence.
  - destruct (visitor_relinked (S (S (S (oid s)))) (S (S (oid s)))
                (visitors (work s)
                 ++ [newExtractedVisitor (S (S (oid s))) l now (S (oid s))])
                (newExtractedVisitor (S (S (oid s))) l now (S (oid s))))
      as [v' [Hin' [Hid' Hname']]].
    + apply in_or_app. right. left. reflexivity.
    + exists v'. split; [exact Hin' |]. split; assumption.
Qed.

Lemma forEach_promotes (faults : nat -> bool) (now : Date) (u : User.t)
    (cs : list Cluster.t) (s s' : Session) (a : unit) :
  forEach (completeCluster faults now u) cs s = (Value a, s') ->
  employees (work s') = employees (work s)
  /\ visitorsKept (work s) (work s')
  /\ exists added,
       faces (work s') = faces (work s) ++ added
       /\ Forall2 (promotes u now (work s')) (filter isPromotable cs) added.
Proof.
  revert s. induction cs as [| c t IH]; intros s; cbn [forEach].
  - unfold ret. intros H. injection H as _ <-.
    split; [reflexivity |]. split; [apply visitorsKept_refl |].
    exists []. rewrite app_nil_r. split; [reflexivity | constructor].
  - unfold bind.
    destruct (completeCluster faults now u c s) as [[b | r | e] s1] eqn:Hc;
      try discriminate.
    intros Hrest.
    destruct (completeCluster_promotes faults now u c s s1 b Hc)
      as [He1 [Hv1 [added1 [Hf1 Hgood1]]]].
    destruct (IH s1 Hrest) as [He2 [Hv2 [added2 [Hf2 Hgood2]]]].
    split; [congruence |].
    split; [exact (visitorsKept_trans _ _ _ Hv1 Hv2) |].
    exists (added1 ++ added2).
    split; [rewrite Hf2, Hf1, app_assoc; reflexivity |].
    change (c :: t) with ([c] ++ t). rewrite filter_app.
    apply Forall2_app; [| exact Hgood2].
    exact (all_promotes_kept u now _ _ _ _ He2 Hv2 Hgood1).
Qed.

(** X13.  A completion that answers 200 has stored, after the faces that
    were there, one face for each cluster of the job that has a
    selected label and a representative crop, in the order of the
    clusters.  The face of a cluster carries the selected label of that
    cluster, its representative crop as the image and its first four
    crops beside it; the label is the caller's proposal, the only one;
    the face is marked as uploaded by the caller, is verified exactly
    when the caller holds the verify permission, and names a person that
    is stored under the trimmed label: an employee, or a visitor when no
    employee has that name. *)
Theorem completion_stores_faces (faults : nat -> bool) (now : Date) (u : User.t)
    (id : ObjectId) (w : World) (job : ExtractedFace.t) :
  findById ExtractedFace._id id (extractedFaces (store w)) = Some job ->
  res_status (fst (completeLabeling faults now u id w)) = 200 ->
  exists added,
    faces (store (snd (completeLabeling faults now u id w)))
    = faces (store w) ++ added
    /\ Forall2
         (promotes u now (store (snd (completeLabeling faults now u id w))))
         (filter isPromotable (ExtractedFace.clusters job)) added.
Proof.
  intros Hjob Hok.
  destruct (completeLabeling_success faults now u id w job Hjob Hok)
    as [a [s1 [Hloop Hstore]]].
  destruct (forEach_promotes faults now u _ _ s1 a Hloop)
    as [He [Hv [added [Hf Hgood]]]].
  exists added. rewrite Hstore. unfold updateJob.
  cbn [faces set_extractedFaces]. split; [exact Hf |].
  apply (all_promotes_kept u now _ _ (work s1)); [reflexivity | | exact Hgood].
  intros v Hin. exists v. auto.
Qed.

Lemma completion_stores_faces_witness :
  faces (store (snd (completeLabeling no_faults 7 alice 10 world0)))
  = faces (store world0) ++ [promotedAlice]
  /\ Forall2
       (promotes alice 7 (store (snd (completeLabeling no_faults 7 alice 10 world0))))
       [cluster0] [promotedAlice].
Proof.
  destruct (completion_stores_faces no_faults 7 alice 10 world0 job10
              eq_refl eq_refl) as [added [Hfaces Hgood]].
  assert (Hadded : added = [promotedAlice]).
  { apply (app_inv_head (faces (store world0))). rewrite <- Hfaces. reflexivity. }
  rewrite Hadded in Hgood. split; [reflexivity | exact Hgood].
Defined.

(** ** The proposals of the other users *)

Lemma upsertFaceProposal_recorded (uid : ObjectId) (l : string) (now : Date)
    (ps : list Proposal.t) :
  proposalRecorded uid l now ps (upsertFaceProposal uid l now ps).
Proof.
  unfold proposalRecorded, upsertFaceProposal, othersEntries.
  induction ps as [| p t IH]; cbn [find mutateFound app filter].
  - unfold Proposal.by_user. cbn. rewrite Nat.eqb_refl. split; reflexivity.
  - destruct (Proposal.by_user uid p) eqn:Hp.
    + cbn [find filter]. unfold Proposal.by_user in *. cbn [Proposal.relabel Proposal.proposedBy].
      rewrite Hp. cbn [negb]. apply Nat.eqb_eq in Hp. subst uid.
      split; reflexivity.
    + destruct (find (Proposal.by_user uid) t) as [q |];
        cbn [find filter app]; rewrite Hp; cbn [negb];
        destruct IH as [IH1 IH2]; (split; [exact IH1 | rewrite IH2; reflexivity]).
Qed.

Lemma upsertClusterProposal_recorded (uid : ObjectId) (l : string) (now : Date)
    (ps : list Proposal.t) :
  proposalRecorded uid l now ps (upsertClusterProposal uid l now ps).
Proof. rewrite upsert_paths_agree. apply upsertFaceProposal_recorded. Qed.

(** X14.  A proposal that succeeds, on a face or on a cluster, records the
    label and the time under the caller's name and leaves the entries of
    every other user as they were, in their order. *)
Theorem proposal_keeps_the_others :
  (forall faults now u id label d,
      succeeded (fst (proposeFaceLabel faults now u id label d)) ->
      exists l before after,
        label = Some l
        /\ faceProposals id d = Some before
        /\ faceProposals id (snd (proposeFaceLabel faults now u id label d))
           = Some after
        /\ proposalRecorded (User._id u) l now before after)
  /\ (forall faults now u id cid label d,
         succeeded (fst (labelCluster faults now u id cid label d)) ->
         exists l before after,
           label = Some l
           /\ clusterProposals id cid d = Some before
           /\ clusterProposals id cid (snd (labelCluster faults now u id cid label d))
              = Some after
           /\ proposalRecorded (User._id u) l now before after).
Proof.
  split.
  - intros faults now u id label d Hok.
    destruct (proposeFaceLabel_success faults now u id label d Hok)
      as [l [ps [Hl [_ [Hps Hafter]]]]].
    exists l, ps, (upsertFaceProposal (User._id u) l now ps).
    repeat (split; [assumption |]). apply upsertFaceProposal_recorded.
  - intros faults now u id cid label d Hok.
    destruct (labelCluster_success faults now u id cid label d Hok)
      as [l [c [Hl [_ [Hc Hafter]]]]].
    exists l, (Cluster.proposedLabels c),
      (upsertClusterProposal (User._id u) l now (Cluster.proposedLabels c)).
    unfold clusterProposals. rewrite Hc, Hafter.
    split; [exact Hl |]. split; [reflexivity |].
    split; [| apply upsertClusterProposal_recorded].
    unfold labelClusterAt. destruct (selectsOnProposal u); reflexivity.
Qed.

Lemma proposal_keeps_the_others_witness :
  (exists l before after,
      Some "Bob" = Some l
      /\ faceProposals 20 (store world0) = Some before
      /\ faceProposals 20
           (snd (proposeFaceLabel no_faults 9 root 20 (Some "Bob") (store world0)))
         = Some after
      /\ proposalRecorded (User._id root) l 9 before after)
  /\ (exists l before after,
         Some "Bob" = Some l
         /\ clusterProposals 10 "0" (store world0) = Some before
         /\ clusterProposals 10 "0"
              (snd (labelCluster no_faults 9 root 10 "0" (Some "Bob") (store world0)))
            = Some after
         /\ proposalRecorded (User._id root) l 9 before after).
Proof.
  split.
  - apply (proj1 proposal_keeps_the_others no_faults 9 root 20 (Some "Bob")
             (store world0)).
    reflexivity.
  - apply (proj2 proposal_keeps_the_others no_faults 9 root 10 "0" (Some "Bob")
             (store world0)).
    reflexivity.
Defined.

(** ** What an upload leaves behind *)

Lemma set_faces_same (d : DB) : set_faces (faces d ++ []) d = d.
Proof. destruct d. cbn. rewrite app_nil_r. reflexivity. Qed.

Lemma uploadEach_effect (faults : nat -> bool) (now : Date) (u : User.t)
    (proposedLabel : option string) (files : list ImageFile.t) :
  forall k w,
  exists stored,
    store (snd (uploadEach faults now u proposedLabel k files w))
    = set_faces (faces (store w) ++ stored) (store w)
    /\ Forall (pendingUpload u now proposedLabel) stored
    /\ match firstFault faults k (List.length files) with
       | None =>
         fst (uploadEach faults now u proposedLabel k files w)
         = Some (map Face._id stored)
         /\ map Face.primaryImage stored = map ImageFile.buffer files
       | Some j =>
         fst (uploadEach faults now u proposedLabel k files w) = None
         /\ map Face.primaryImage stored = map ImageFile.buffer (firstn (j - k) files)
       end.
Proof.
  induction files as [| file rest IH]; intros k w; cbn [uploadEach firstFault List.length].
  - exists []. cbn [fst snd]. rewrite set_faces_same.
    split; [reflexivity |]. split; [constructor |]. split; reflexivity.
  - destruct (faults k) eqn:Hk.
    + exists []. cbn [fst snd store]. rewrite set_faces_same, Nat.sub_diag.
      split; [reflexivity |]. split; [constructor |]. split; reflexivity.
    + set (w1 := {| store := _; nextOid := S (S (nextOid w)) |}).
      destruct (IH (S k) w1) as [stored [Hstore [Hgood Hres]]].
      exists (uploadedFace (S (nextOid w)) (nextOid w) u now file proposedLabel
              :: stored).
      destruct (uploadEach faults now u proposedLabel (S k) rest w1)
        as [[ids |] w2] eqn:Hrest; cbn [fst snd] in *.
      all: split;
        [ rewrite Hstore; unfold w1; cbn [store]; destruct (store w); cbn;
          rewrite <- app_assoc; reflexivity |].
      all: split; [constructor; [repeat split | exact Hgood] |].
      all: destruct (firstFault faults (S k) (List.length rest)) as [j |] eqn:Hj;
        destruct Hres as [Hids Himg]; try discriminate.
      * injection Hids as ->. split; [reflexivity |]. cbn. rewrite Himg. reflexivity.
      * split; [reflexivity |].
        assert (Hle : S k <= j).
        { clear - Hj. revert k Hj. generalize (List.length rest).
          intros n. induction n as [| n IHn]; intros k; cbn; [discriminate |].
          destruct (faults (S k)).
          - intros H. injection H as <-. lia.
          - intros H. specialize (IHn (S k) H). lia. }
        replace (j - k) with (S (j - S k)) by lia.
        cbn. rewrite Himg. reflexivity.
Qed.

(** X15.  The route takes up to five files, each of an allowed mime
    type and within the size limit: a request [multer] refuses is
    answered 500 by the error handler, the handler of the route does not
    run and nothing is stored.  For a request it accepts, with at least
    one file, an upload is not atomic.  Whatever it answers, the store
    afterwards is the store before with faces added at the end, each one
    unverified, of an unknown person, uploaded by the caller and carrying
    the caller's proposal alone.  When no [save] throws the answer is 201
    with the ids of the new faces, one per file in order; when the [j]-th
    is the first to throw the answer is 500 and the faces of the [j]
    files before it stay stored. *)
Theorem upload_keeps_what_was_saved (overFileSize : Buffer -> bool)
    (faults : nat -> bool) (now : Date) (u : User.t) (files : list ImageFile.t)
    (proposedLabel : option string) (w : World) :
  (uploadArray overFileSize 5 files = false ->
   uploadFaces overFileSize faults now u files proposedLabel w = (ServerError, [], w))
  /\ (uploadArray overFileSize 5 files = true ->
      files <> [] ->
      List.length files <= 5
      /\ exists stored,
           store (snd (uploadFaces overFileSize faults now u files proposedLabel w))
           = set_faces (faces (store w) ++ stored) (store w)
           /\ Forall (pendingUpload u now proposedLabel) stored
           /\ match firstFault faults 0 (List.length files) with
              | None =>
                res_status
                  (fst (fst (uploadFaces overFileSize faults now u files proposedLabel w))) = 201
                /\ snd (fst (uploadFaces overFileSize faults now u files proposedLabel w))
                   = map Face._id stored
                /\ map Face.primaryImage stored = map ImageFile.buffer files
              | Some j =>
                res_status
                  (fst (fst (uploadFaces overFileSize faults now u files proposedLabel w))) = 500
                /\ snd (fst (uploadFaces overFileSize faults now u files proposedLabel w)) = []
                /\ map Face.primaryImage stored
                   = map ImageFile.buffer (firstn j files)
              end).
Proof.
  unfold uploadFaces. split; intros Hmulter; rewrite Hmulter; [reflexivity |].
  intros Hfiles. split.
  { unfold uploadArray in Hmulter. apply andb_true_iff in Hmulter.
    apply Nat.leb_le. exact (proj1 Hmulter). }
  destruct (uploadEach_effect faults now u proposedLabel files 0 w)
    as [stored [Hstore [Hgood Hres]]].
  exists stored. unfold uploadFacesHandler.
  destruct files as [| file rest]; [contradiction |].
  destruct (uploadEach faults now u proposedLabel 0 (file :: rest) w)
    as [[ids |] w'] eqn:Hrun; cbn [fst snd] in *.
  all: split; [exact Hstore |]; split; [exact Hgood |].
  all: destruct (firstFault faults 0 (List.length (file :: rest))) as [j |];
    destruct Hres as [Hids Himg]; try discriminate.
  - injection Hids as ->. repeat split. exact Himg.
  - rewrite Nat.sub_0_r in Himg. repeat split. exact Himg.
Qed.

Lemma upload_keeps_what_was_saved_witness :
  uploadFaces noneTooLarge no_faults 9 bob sixImages None world0 = (ServerError, [], world0)
  /\ uploadFaces noneTooLarge no_faults 9 bob oneGif None world0 = (ServerError, [], world0)
  /\ exists stored,
       store (snd (uploadFaces noneTooLarge secondSaveFails 9 bob twoImages None world0))
       = set_faces (faces (store world0) ++ stored) (store world0)
       /\ Forall (pendingUpload bob 9 None) stored
       /\ res_status
            (fst (fst (uploadFaces noneTooLarge secondSaveFails 9 bob twoImages None world0)))
          = 500
       /\ snd (fst (uploadFaces noneTooLarge secondSaveFails 9 bob twoImages None world0)) = []
       /\ map Face.primaryImage stored = ["front"].
Proof.
  split; [| split].
  - apply (proj1 (upload_keeps_what_was_saved noneTooLarge no_faults 9 bob sixImages None world0)).
    reflexivity.
  - apply (proj1 (upload_keeps_what_was_saved noneTooLarge no_faults 9 bob oneGif None world0)).
    reflexivity.
  - apply (proj2 (upload_keeps_what_was_saved noneTooLarge secondSaveFails 9 bob twoImages None
                    world0)).
    + reflexivity.
    + discriminate.
Defined.

(** ** Accounts *)

Lemma find_after_none (A : Type) (p : A -> bool) (old new : list A) :
  find p old = None -> find p (old ++ new) = find p new.
Proof.
  induction old as [| x t IH]; cbn; [reflexivity |].
  destruct (p x); [discriminate | exact IH].
Qed.

Lemma register_stores (ep : string -> bool) (h : string -> string)
    (faults : nat -> bool) (b : RegisterBody.t) (w : World) :
  res_status (fst (register ep h faults b w)) = 201 ->
  exists n e p r,
    RegisterBody.email b = Some e
    /\ RegisterBody.password b = Some p
    /\ ep e = true
    /\ 6 <= String.length p
    /\ findUserByEmail (Some e) (store w) = None
    /\ users (store (snd (register ep h faults b w)))
       = users (store w) ++ [registeredUser h (nextOid w) n e p r].
Proof.
  unfold register.
  destruct (findUserByEmail (RegisterBody.email b) (store w)) eqn:Hfree;
    [discriminate |].
  destruct (validateUser ep (nextOid w) b) as [doc |] eqn:Hdoc; [| discriminate].
  destruct (faults 0); [discriminate |]. intros _.
  revert Hdoc. unfold validateUser.
  destruct (RegisterBody.name b) as [n |]; [| discriminate].
  destruct (RegisterBody.email b) as [e |]; [| discriminate].
  destruct (RegisterBody.password b) as [p |]; [| discriminate].
  destruct (parseRole _) as [r |]; [| discriminate].
  destruct (negb (String.eqb (trim n) "")); [| discriminate].
  destruct (Nat.leb (String.length (trim n)) 50); [| discriminate].
  destruct (ep e) eqn:Hep; [| discriminate].
  destruct (Nat.leb_spec 6 (String.length p)) as [Hlen |]; [| discriminate].
  cbn [andb]. intros H. injection H as <-.
  exists n, e, p, r. repeat (split; [first [reflexivity | assumption] |]).
  reflexivity.
Qed.

(** X16.  Register, then log in.  When [bcrypt.compare] accepts the hashes
    [bcrypt.hash] makes and the email pattern rejects the empty string, a
    registration that answers 201 is followed by a successful login with
    the same email and password, and the login answers with the user the
    registration stored. *)
Theorem register_then_login (ep : string -> bool) (h : string -> string)
    (compare : string -> string -> bool) (faults : nat -> bool)
    (b : RegisterBody.t) (w : World) :
  (forall p, compare p (h p) = true) ->
  ep "" = false ->
  res_status (fst (register ep h faults b w)) = 201 ->
  exists user,
    In user (users (store (snd (register ep h faults b w))))
    /\ User._id user = nextOid w
    /\ RegisterBody.email b = Some (User.email user)
    /\ login compare (RegisterBody.email b) (RegisterBody.password b)
         (store (snd (register ep h faults b w)))
       = (reply 200 "", Some (summarizeUser user)).
Proof.
  intros Hcmp Hempty Hok.
  destruct (register_stores ep h faults b w Hok)
    as [n [e [p [r [He [Hp [Hep [Hlen [Hfree Husers]]]]]]]]].
  exists (registeredUser h (nextOid w) n e p r).
  split; [rewrite Husers; apply in_or_app; right; left; reflexivity |].
  split; [reflexivity |]. split; [exact He |].
  rewrite He, Hp. unfold login, truthy, findUserByEmail, matchPassword, orElse.
  destruct (String.eqb_spec e "") as [-> | _]; [congruence |].
  destruct (String.eqb_spec p "") as [-> | _]; [cbn in Hlen; lia |].
  cbn [negb orb]. rewrite Husers.
  unfold findUserByEmail in Hfree. rewrite (find_after_none _ _ _ _ Hfree).
  cbn. rewrite String.eqb_refl, Hcmp. reflexivity.
Qed.

Lemma register_then_login_witness :
  exists user,
    In user (users (store (snd (register nonEmptyEmail markHashed no_faults
                                  registerAdmin world0))))
    /\ User._id user = nextOid world0
    /\ RegisterBody.email registerAdmin = Some (User.email user)
    /\ login comparesMark (RegisterBody.email registerAdmin)
         (RegisterBody.password registerAdmin)
         (store (snd (register nonEmptyEmail markHashed no_faults registerAdmin world0)))
       = (reply 200 "", Some (summarizeUser user)).
Proof.
  apply (register_then_login nonEmptyEmail markHashed comparesMark no_faults
           registerAdmin world0).
  - intros p. apply String.eqb_refl.
  - reflexivity.
  - reflexivity.
Defined.

Lemma verifyFace_users (faults : nat -> bool) (now : Date) (u : User.t)
    (id : ObjectId) (b : VerifyBody.t) (w : World) :
  users (store (snd (verifyFace faults now u id b w))) = users (store w).
Proof.
  unfold verifyFace, withTransaction, verifyFaceBody, verifiedBranch.
  tx_unfold. tx_split; reflexivity.
Qed.

Lemma completeCluster_users (faults : nat -> bool) (now : Date) (u : User.t)
    (c : Cluster.t) (s s' : Session) (a : unit) :
  completeCluster faults now u c s = (Value a, s') ->
  users (work s') = users (work s).
Proof.
  unfold completeCluster, resolvePerson. tx_unfold. intros H.
  tx_split; reflexivity.
Qed.

Lemma completeLabeling_users (faults : nat -> bool) (now : Date) (u : User.t)
    (id : ObjectId) (w : World) :
  users (store (snd (completeLabeling faults now u id w))) = users (store w).
Proof.
  unfold completeLabeling.
  destruct (findById ExtractedFace._id id (extractedFaces (store w)))
    as [job |]; [| reflexivity].
  destruct (negb (canComplete u job)); [reflexivity |].
  unfold withTransaction, completeLabelingBody. unfold bind at 1.
  destruct (forEach (completeCluster faults now u) (ExtractedFace.clusters job)
              {| work := store w; oid := nextOid w; writes := 0 |})
    as [[a | r | e] s1] eqn:Hloop; [| reflexivity | reflexivity].
  assert (Hinv : users (work s1) = users (store w)).
  { eapply (forEach_invariant _ (completeCluster faults now u)
              (fun s => users (work s) = users (store w)));
      [| | exact Hloop]; [| reflexivity].
    intros c s s' b _ Hs Hc.
    rewrite (completeCluster_users faults now u c s s' b Hc). exact Hs. }
  tx_unfold. tx_split; try reflexivity.
  unfold updateJob. cbn [users set_extractedFaces]. exact Hinv.
Qed.

Lemma step_users (op : Op) (s : System) :
  users (store (world (step op s))) = users (store (world s))
  \/ exists user,
       users (store (world (step op s))) = users (store (world s)) ++ [user]
       /\ findUserByEmail (Some (User.email user)) (store (world s)) = None.
Proof.
  destruct op as [ep h faults b | faults now u id label | faults now u id b
                  | faults now u file ft sid | faults now id outcome
                  | faults now u id cid label | faults now u id];
    cbn [step world].
  - destruct (Nat.eq_dec (res_status (fst (register ep h faults b (world s)))) 201)
      as [Hok | Hno].
    + destruct (register_stores ep h faults b (world s) Hok)
        as [n [e [p [r [_ [_ [_ [_ [Hfree Husers]]]]]]]]].
      right. eexists. split; [exact Husers | exact Hfree].
    + left. revert Hno. clear. unfold register.
      destruct (findUserByEmail _ _); [reflexivity |].
      destruct (validateUser _ _ _); [| reflexivity].
      destruct (faults 0); [reflexivity |]. cbn. congruence.
  - left. cbn [onStore store]. unfold proposeFaceLabel.
    destruct label as [l |]; [| reflexivity].
    destruct (String.eqb l ""); [reflexivity |].
    destruct (findById _ _ _); [| reflexivity].
    destruct (_ && _); [reflexivity |].
    destruct (faults 0); reflexivity.
  - left. apply verifyFace_users.
  - left. unfold extractFaces. destruct file; [| reflexivity].
    destruct (faults 0); reflexivity.
  - left. destruct (find (isJob id) (pending s)); [| reflexivity].
    cbn [onStore store world]. unfold extractContinuation, orCatch, updateJob.
    destruct outcome as [r | e];
      repeat match goal with
             | |- context [if ?c then _ else _] => destruct c
             end; reflexivity.
  - left. cbn [onStore store]. unfold labelCluster.
    destruct label as [l |]; [| reflexivity].
    destruct (String.eqb l ""); [reflexivity |].
    destruct (findById _ _ _); [| reflexivity].
    destruct (cannotAccessExtraction _ _); [reflexivity |].
    destruct (findIndex _ _); [| reflexivity].
    destruct (faults 0); reflexivity.
  - left. apply completeLabeling_users.
Qed.

(** X17.  No two users share an email, in any state the system reaches
    from the empty one: the lookup in front of [User.create] is enough,
    and no other operation writes a user. *)
Theorem emails_stay_distinct (ops : list Op) (s : System) :
  distinctEmails (store (world s)) ->
  distinctEmails (store (world (run ops s))).
Proof.
  unfold run. revert s. induction ops as [| op t IH]; intros s Hs; cbn;
    [exact Hs |].
  apply IH. unfold distinctEmails in *.
  destruct (step_users op s) as [-> | [user [-> Hfree]]]; [exact Hs |].
  rewrite map_app. cbn [map].
  apply NoDup_app; [exact Hs | repeat constructor; cbn; tauto |].
  intros e Hin [<- | []].
  apply in_map_iff in Hin. destruct Hin as [x [Hx Hin]].
  unfold findUserByEmail in Hfree.
  pose proof (find_none _ _ Hfree x Hin) as Hne. cbn in Hne.
  rewrite Hx, String.eqb_refl in Hne. discriminate.
Qed.

Lemma emails_stay_distinct_witness :
  distinctEmails
    (store (world (run [OpRegister nonEmptyEmail markHashed no_faults registerAdmin;
                        OpRegister nonEmptyEmail markHashed no_faults registerAdmin]
                       initialSystem))).
Proof.
  apply (emails_stay_distinct _ initialSystem). constructor.
Defined.

(** ** The label list *)

Lemma mapSet_In (k : string) (v : LabelItem.t) (m : list (string * LabelItem.t)) :
  NoDup (map fst m) ->
  forall k' v',
    In (k', v') (mapSet k v m)
    <-> (k' = k /\ v' = v) \/ (k' <> k /\ In (k', v') m).
Proof.
  induction m as [| [k0 v0] t IH]; intros Hnd k' v'; cbn [mapSet].
  - cbn. split.
    + intros [H | []]. injection H as <- <-. left. auto.
    + intros [[-> ->] | [_ []]]. left. reflexivity.
  - cbn [map fst] in Hnd. apply NoDup_cons_iff in Hnd. destruct Hnd as [Hk0 Hnd].
    destruct (String.eqb_spec k0 k) as [-> | Hne]; cbn [In].
    + split.
      * intros [H | H]; [injection H as <- <-; left; auto |].
        right. split; [| right; exact H].
        intros ->. apply Hk0. exact (in_map fst _ _ H).
      * intros [[-> ->] | [Hk [H | H]]]; [left; reflexivity | | right; exact H].
        injection H as <- _. contradiction.
    + rewrite (IH Hnd k' v'). split.
      * intros [H | [H | [Hk H]]]; [| left; exact H | right; auto].
        injection H as <- <-. right. split; [exact Hne | left; reflexivity].
      * intros [H | [Hk [H | H]]]; [right; left; exact H | left; exact H |].
        right. right. auto.
Qed.

Lemma mapSet_keys (k : string) (v : LabelItem.t) (m : list (string * LabelItem.t)) :
  NoDup (map fst m) -> NoDup (map fst (mapSet k v m)).
Proof.
  induction m as [| [k0 v0] t IH]; intros Hnd; cbn [mapSet].
  - cbn. repeat constructor. tauto.
  - cbn [map fst] in Hnd. pose proof Hnd as Hall.
    apply NoDup_cons_iff in Hnd. destruct Hnd as [Hk0 Hnd].
    destruct (String.eqb_spec k0 k) as [-> | Hne]; [exact Hall |].
    cbn [map fst]. constructor; [| exact (IH Hnd)].
    intros Hin. apply in_map_iff in Hin. destruct Hin as [[k1 v1] [Hfst Hin]].
    cbn in Hfst. subst k1.
    apply (mapSet_In k v t Hnd) in Hin.
    destruct Hin as [[-> _] | [_ Hin]]; [contradiction |].
    apply Hk0. exact (in_map fst _ _ Hin).
Qed.

Lemma lastWith_snoc (k : string) (items : list LabelItem.t) (x : LabelItem.t) :
  lastWith k (items ++ [x])
  = if String.eqb (LabelItem.label x) k then Some x else lastWith k items.
Proof. unfold lastWith. rewrite rev_app_distr. reflexivity. Qed.

Lemma holdsLast_fold (items done : list LabelItem.t)
    (m : list (string * LabelItem.t)) :
  holdsLast m done ->
  holdsLast (fold_left (fun m item => mapSet (LabelItem.label item) item m) items m)
            (done ++ items).
Proof.
  revert done m. induction items as [| x t IH]; intros done m Hm; cbn [fold_left].
  - rewrite app_nil_r. exact Hm.
  - replace (done ++ x :: t) with ((done ++ [x]) ++ t)
      by (rewrite <- app_assoc; reflexivity).
    apply IH. destruct Hm as [Hnd Hm]. split; [exact (mapSet_keys _ _ _ Hnd) |].
    intros k v. rewrite (mapSet_In _ _ _ Hnd), lastWith_snoc, Hm.
    destruct (String.eqb_spec (LabelItem.label x) k) as [<- | Hne]; split.
    + intros [[_ ->] | [H _]]; [reflexivity | contradiction].
    + intros H. injection H as <-. left. auto.
    + intros [[-> _] | [_ H]]; [contradiction | exact H].
    + intros H. right. split; [congruence | exact H].
Qed.

Lemma lastWith_label (k : string) (items : list LabelItem.t) (v : LabelItem.t) :
  lastWith k items = Some v -> In v items /\ LabelItem.label v = k.
Proof.
  unfold lastWith. intros H. apply find_some in H. destruct H as [Hin Hk].
  split; [apply in_rev; exact Hin | apply String.eqb_eq; exact Hk].
Qed.

Lemma uniqueLabels_last (items : list LabelItem.t) :
  NoDup (map LabelItem.label (uniqueLabels items))
  /\ forall item,
       In item (uniqueLabels items)
       <-> lastWith (LabelItem.label item) items = Some item.
Proof.
  unfold uniqueLabels.
  destruct (holdsLast_fold items [] [])
    as [Hnd Hm]; [split; [constructor | intros k v; split; [intros [] | discriminate]] |].
  cbn [app] in Hm.
  set (m := fold_left _ items []) in *.
  assert (Hkey : forall e, In e m -> LabelItem.label (snd e) = fst e).
  { intros [k v] Hin. apply Hm in Hin. exact (proj2 (lastWith_label _ _ _ Hin)). }
  split.
  - rewrite map_map, (map_ext_in _ fst); [exact Hnd | exact Hkey].
  - intros item. split.
    + intros Hin. apply in_map_iff in Hin. destruct Hin as [[k v] [<- Hin]].
      pose proof (Hkey _ Hin) as Hk. cbn [fst snd] in *. rewrite Hk.
      apply Hm. exact Hin.
    + intros H. apply Hm in H. exact (in_map snd _ _ H).
Qed.

(** X18.  The label list names no label twice.  An item is listed exactly
    when it is the last one with its label in the order employees,
    visitors, custom labels of the caller; so a custom label of the caller
    is always listed as custom, with no id, also when an employee or a
    visitor has that name. *)
Theorem labels_last_wins (employeeActive : Employee.t -> bool)
    (createdLabels : option (list string)) (d : DB) :
  NoDup (map LabelItem.label (getLabels employeeActive createdLabels d))
  /\ (forall item,
         In item (getLabels employeeActive createdLabels d)
         <-> lastWith (LabelItem.label item)
               (employeeLabels employeeActive d ++ visitorLabels d
                ++ userLabels createdLabels) = Some item)
  /\ (forall ls s,
         createdLabels = Some ls -> In s ls ->
         In {| LabelItem.label := s; LabelItem.type := LCustom;
               LabelItem.id := None |}
            (getLabels employeeActive createdLabels d)).
Proof.
  unfold getLabels.
  destruct (uniqueLabels_last (employeeLabels employeeActive d ++ visitorLabels d
                               ++ userLabels createdLabels)) as [Hnd Hlast].
  split; [exact Hnd |]. split; [exact Hlast |].
  intros ls s -> Hs. apply Hlast. cbn [LabelItem.label].
  unfold lastWith, userLabels. rewrite !rev_app_distr, <- map_rev.
  apply in_rev in Hs. revert Hs. generalize (rev ls). clear. intros l.
  induction l as [| x t IH]; cbn [In map app find]; [intros [] |].
  cbn [LabelItem.label].
  destruct (String.eqb_spec x s) as [-> | Hne]; [reflexivity |].
  intros [H | H]; [contradiction | exact (IH H)].
Qed.

(** ** An upload, then a proposal by the uploader *)

Lemma findById_after (A : Type) (idOf : A -> ObjectId) (i : ObjectId)
    (old new : list A) :
  findById idOf i (old ++ new)
  = match findById idOf i old with
    | Some x => Some x
    | None => findById idOf i new
    end.
Proof.
  unfold findById. induction old as [| x t IH]; cbn; [reflexivity |].
  destruct (Nat.eqb (idOf x) i); [reflexivity | exact IH].
Qed.

Lemma findById_not_issued (i : ObjectId) (fs : list Face.t) :
  (forall f, In f fs -> Face._id f < i) -> findById Face._id i fs = None.
Proof.
  intros Hlt. unfold findById.
  destruct (find _ fs) as [f |] eqn:Hf; [| reflexivity].
  apply find_some in Hf. destruct Hf as [Hin Heq].
  apply Nat.eqb_eq in Heq. specialize (Hlt f Hin). lia.
Qed.

Lemma uploadEach_lookup (faults : nat -> bool) (now : Date) (u : User.t)
    (proposedLabel : option string) (files : list ImageFile.t) :
  forall k w ids id,
    faceIdsIssued w ->
    fst (uploadEach faults now u proposedLabel k files w) = Some ids ->
    In id ids ->
    exists face,
      findById Face._id id
        (faces (store (snd (uploadEach faults now u proposedLabel k files w))))
      = Some face
      /\ pendingUpload u now proposedLabel face.
Proof.
  induction files as [| file rest IH]; intros k w ids id Hw; cbn [uploadEach].
  - cbn. intros H. injection H as <-. intros [].
  - destruct (faults k); [discriminate |].
    set (new := uploadedFace (S (nextOid w)) (nextOid w) u now file proposedLabel).
    set (w1 := {| store := _; nextOid := S (S (nextOid w)) |}).
    assert (Hw1 : faceIdsIssued w1).
    { intros f. unfold w1. cbn [store faces set_faces nextOid]. intros Hin.
      apply in_app_or in Hin. destruct Hin as [Hin | [<- | []]].
      - specialize (Hw f Hin). lia.
      - cbn. lia. }
    destruct (uploadEach_effect faults now u proposedLabel rest (S k) w1)
      as [stored [Hstore _]].
    specialize (IH (S k) w1).
    destruct (uploadEach faults now u proposedLabel (S k) rest w1)
      as [[ids' |] w2]; cbn [fst snd] in *; [| discriminate].
    intros H. injection H as <-. intros [<- | Hin].
    + exists new. split; [| repeat split].
      rewrite Hstore. unfold w1. cbn [store faces set_faces].
      rewrite <- app_assoc, findById_after, findById_not_issued.
      * unfold findById. cbn. rewrite Nat.eqb_refl. reflexivity.
      * intros f Hf. specialize (Hw f Hf). lia.
    + exact (IH ids' id Hw1 eq_refl Hin).
Qed.

(** X19.  An uploaded face can be relabelled by its uploader.  On a store
    whose face ids were all issued by the counter, a proposal by the
    uploader on a face the upload reported succeeds when its write does,
    and the face then holds one proposal: the uploader's, with the new
    label and time. *)
Theorem uploader_relabels (overFileSize : Buffer -> bool)
    (faults faults' : nat -> bool) (now now' : Date)
    (u : User.t) (files : list ImageFile.t) (proposedLabel : option string)
    (w : World) (id : ObjectId) (l : string) :
  faceIdsIssued w ->
  In id (snd (fst (uploadFaces overFileSize faults now u files proposedLabel w))) ->
  l <> "" ->
  faults' 0 = false ->
  res_status
    (fst (proposeFaceLabel faults' now' u id (Some l)
            (store (snd (uploadFaces overFileSize faults now u files proposedLabel w))))) = 200
  /\ faceProposals id
       (snd (proposeFaceLabel faults' now' u id (Some l)
               (store (snd (uploadFaces overFileSize faults now u files proposedLabel w)))))
     = Some [newProposal (User._id u) l now'].
Proof.
  intros Hw Hin Hl Hf.
  assert (Hface : exists face,
            findById Face._id id
              (faces (store (snd (uploadFaces overFileSize faults now u files proposedLabel w))))
            = Some face
            /\ pendingUpload u now proposedLabel face).
  { revert Hin. unfold uploadFaces.
    destruct (uploadArray overFileSize 5 files); [| intros []].
    unfold uploadFacesHandler. destruct files as [| file rest]; [intros [] |].
    pose proof (uploadEach_lookup faults now u proposedLabel (file :: rest) 0 w)
      as Hlook.
    destruct (uploadEach faults now u proposedLabel 0 (file :: rest) w)
      as [[ids |] w']; cbn [fst snd] in *; [| intros []].
    intros Hin. exact (Hlook ids id Hw eq_refl Hin). }
  destruct Hface as [face [Hfind [_ [_ [Hby [Hps _]]]]]].
  set (d := store (snd (uploadFaces overFileSize faults now u files proposedLabel w))) in *.
  unfold proposeFaceLabel, faceProposals.
  destruct (String.eqb_spec l "") as [| _]; [contradiction |].
  rewrite Hfind.
  assert (Hacc : canUserAccessFace u face = true).
  { unfold canUserAccessFace, uploadedByUser. rewrite Hby, Nat.eqb_refl.
    destruct (_ || _); reflexivity. }
  rewrite Hacc, Hf. cbn [negb andb fst snd res_status reply faces set_faces].
  split; [reflexivity |].
  rewrite findById_replaceById.
  2: { intros _ _. cbn. exact (findById_id _ _ _ _ _ Hfind). }
  rewrite Nat.eqb_refl, Hfind. cbn. rewrite Hps.
  unfold upsertFaceProposal, Proposal.by_user. cbn. rewrite Nat.eqb_refl.
  reflexivity.
Qed.

Lemma uploader_relabels_witness :
  res_status
    (fst (proposeFaceLabel no_faults 10 bob 24 (Some "Carol")
            (store (snd (uploadFaces noneTooLarge no_faults 9 bob twoImages None world0))))) = 200
  /\ faceProposals 24
       (snd (proposeFaceLabel no_faults 10 bob 24 (Some "Carol")
               (store (snd (uploadFaces noneTooLarge no_faults 9 bob twoImages None world0)))))
     = Some [newProposal (User._id bob) "Carol" 10].
Proof.
  apply (uploader_relabels noneTooLarge no_faults no_faults 9 10 bob twoImages None world0 24
           "Carol").
  - intros f [<- | []]. vm_compute. lia.
  - vm_compute. right. left. reflexivity.
  - discriminate.
  - reflexivity.
Defined.

(** ** Starting an extraction, then asking for it *)

Lemma findById_job_not_issued (i : ObjectId) (js : list ExtractedFace.t) :
  (forall j, In j js -> ExtractedFace._id j < i) ->
  findById ExtractedFace._id i js = None.
Proof.
  intros Hlt. unfold findById.
  destruct (find _ js) as [j |] eqn:Hj; [| reflexivity].
  apply find_some in Hj. destruct Hj as [Hin Heq].
  apply Nat.eqb_eq in Heq. specialize (Hlt j Hin). lia.
Qed.

(** X20.  The job a started extraction reports can be read back by its
    uploader at once.  On a store whose job ids were all issued by the
    counter, the status route answers 200 with the summary of the new job,
    which is processing and has no face and no cluster, and the cluster
    listing answers 400 because the job is not completed. *)
Theorem extract_then_poll (faults : nat -> bool) (now : Date) (u : User.t)
    (file : option Upload.t) (fileType : FileType) (sessionId : option string)
    (w : World) (doc : ExtractedFace.t) :
  (forall j, In j (extractedFaces (store w)) -> ExtractedFace._id j < nextOid w) ->
  snd (extractFaces faults now u file fileType sessionId w) = Some doc ->
  getExtractionStatus u (ExtractedFace._id doc)
    (store (snd (fst (extractFaces faults now u file fileType sessionId w))))
  = (reply 200 "", Some (summarize doc))
  /\ StatusSummary.status (summarize doc) = Processing
  /\ StatusSummary.facesCount (summarize doc) = 0
  /\ StatusSummary.clusterCount (summarize doc) = 0
  /\ listClusters u (ExtractedFace._id doc)
       (store (snd (fst (extractFaces faults now u file fileType sessionId w))))
     = (reply 400 "Face extraction is not completed (status: processing)", None).
Proof.
  intros Hissued. unfold extractFaces.
  destruct file as [f |]; [| discriminate].
  destruct (faults 0); [discriminate |].
  cbn [fst snd]. intros H. injection H as <-.
  assert (Hfind : findById ExtractedFace._id (S (nextOid w))
                    (extractedFaces (store w)) = None).
  { apply findById_job_not_issued. intros j Hj. specialize (Hissued j Hj). lia. }
  unfold getExtractionStatus, listClusters.
  cbn [store extractedFaces set_extractedFaces ExtractedFace._id].
  rewrite findById_after, Hfind. unfold findById, cannotAccessExtraction.
  cbn. rewrite !Nat.eqb_refl. cbn. repeat split.
Qed.

Lemma extract_then_poll_witness :
  getExtractionStatus alice 22
    (store (snd (fst (extractFaces no_faults 9 alice (Some doorVideo) Video None
                        world0))))
  = (reply 200 "", Some (summarize job22)).
Proof.
  refine (proj1 (extract_then_poll no_faults 9 alice (Some doorVideo) Video None
                   world0 job22 _ _)).
  - intros j [<- | []]. vm_compute. lia.
  - reflexivity.
Defined.
